(** * gnostic-grpc: the file-descriptor-set generator

    A shallow embedding of [generator/generator.go] and the properties of
    its translation from a surface model to protobuf descriptors.

    Conventions of the embedding.
    - Go strings are byte strings: [string] with [ascii] bytes.
    - A pointer field of a descriptor ([*string], [*int32]) is an [option].
    - [*dpb.FileDescriptorProto] values live in a store ([heap]); a pointer
      is an index into it, so pointer comparison is index comparison and a
      write through one alias is seen through every other.
    - Package-level variables are fields of [State].
    - A call may return normally, return a non-nil [error], panic, or
      exhaust the budget given to unbounded control flow ([outcome]). *)

From Stdlib Require Import ZArith Lia Ascii.
From stdpp Require Import base decidable option list gmap strings sorting pretty.

Local Open Scope Z_scope.

(** ** Go run-time notions *)

Definition error := string.

Inductive outcome (A : Type) : Type :=
| Ok (a : A)
| Err (e : error)
| Panic
| OutOfFuel.
Arguments Ok {A} a.
Arguments Err {A} e.
Arguments Panic {A}.
Arguments OutOfFuel {A}.

#[global] Instance outcome_ret : MRet outcome := λ A a, Ok a.
#[global] Instance outcome_bind : MBind outcome := λ A B f m,
  match m with
  | Ok a => f a
  | Err e => Err e
  | Panic => Panic
  | OutOfFuel => OutOfFuel
  end.

(** [l[i]] on a slice: an index out of range panics. *)
Definition index {A} (l : list A) (i : nat) : outcome A :=
  match l !! i with
  | Some a => Ok a
  | None => Panic
  end.

(** [*p] on a pointer field: a nil pointer panics. *)
Definition deref {A} (p : option A) : outcome A :=
  match p with
  | Some a => Ok a
  | None => Panic
  end.

(** Conversion of an [int] to [int32] keeps the low 32 bits (two's complement). *)
Definition int32 (z : Z) : Z := (z + 2 ^ 31) `mod` 2 ^ 32 - 2 ^ 31.

(** [int] arithmetic wraps at 64 bits. *)
Definition int (z : Z) : Z := (z + 2 ^ 63) `mod` 2 ^ 64 - 2 ^ 63.

(** ** The Go standard library functions the generator calls on strings *)

Module strings.

(** [strings.Contains(s, substr)] *)
Fixpoint Contains (s substr : string) : bool :=
  String.prefix substr s ||
  match s with
  | EmptyString => false
  | String _ s' => Contains s' substr
  end.

(** [strings.Split(s, sep)] for a separator of one byte, the only way the
    generator calls it. *)
Fixpoint Split (s : string) (sep : ascii) : list string :=
  match s with
  | EmptyString => [EmptyString]
  | String c s' =>
      if decide (c = sep) then EmptyString :: Split s' sep
      else match Split s' sep with
           | [] => [String c EmptyString]
           | p :: ps => String c p :: ps
           end
  end.

(** [strings.HasSuffix(s, suffix)] *)
Definition HasSuffix (s suffix : string) : bool :=
  bool_decide (String.length suffix ≤ String.length s)%nat &&
  bool_decide (String.substring (String.length s - String.length suffix)
                 (String.length suffix) s = suffix).

(** [strings.TrimSuffix(s, suffix)] *)
Definition TrimSuffix (s suffix : string) : string :=
  if HasSuffix s suffix
  then String.substring 0 (String.length s - String.length suffix) s
  else s.

End strings.

(** [s[n:]]: panics when [n] exceeds the length of [s]. *)
Fixpoint slice_from (s : string) (n : nat) {struct n} : outcome string :=
  match n with
  | O => Ok s
  | S n' =>
      match s with
      | EmptyString => Panic
      | String _ s' => slice_from s' n'
      end
  end.

Module path.

Definition slash : ascii := "/"%char.

Fixpoint stripLeading (l : list ascii) : list ascii :=
  match l with
  | c :: l' => if decide (c = slash) then stripLeading l' else l
  | [] => []
  end.

Fixpoint upToSlash (l : list ascii) : list ascii :=
  match l with
  | c :: l' => if decide (c = slash) then [] else c :: upToSlash l'
  | [] => []
  end.

(** [path.Base(path)]: the last element of the path, trailing slashes
    removed; "." for the empty path and "/" for a path of slashes only.
    The scan runs from the end of the path, hence over its reversal. *)
Definition Base (p : string) : string :=
  if decide (p = EmptyString) then "."
  else
    let r := stripLeading (reverse (String.list_ascii_of_string p)) in
    let e := String.string_of_list_ascii (reverse (upToSlash r)) in
    if decide (e = EmptyString) then "/" else e.

Fixpoint extFrom (r acc : list ascii) : list ascii :=
  match r with
  | [] => []
  | c :: r' =>
      if decide (c = slash) then []
      else if decide (c = "."%char) then c :: acc
      else extFrom r' (c :: acc)
  end.

(** [filepath.Ext(path)] (separator '/'): the suffix starting at the last
    dot of the last path element, or empty when there is none. *)
Definition Ext (p : string) : string :=
  String.string_of_list_ascii
    (extFrom (reverse (String.list_ascii_of_string p)) []).

End path.

(** [strconv.Itoa]: the decimal numeral, with a leading '-' below zero. *)
Definition Itoa (i : Z) : string := pretty i.

(** [sort.Strings]: ascending in the byte-wise order of Go's [<] on strings. *)
Definition sort_Strings (l : list string) : list string :=
  merge_sort String.le l.

(** ** The surface model (package [surface_v1] of gnostic)

    The generator only reads these messages; the fields kept are the ones
    it reads. *)

Inductive FieldKind :=
| FieldKind_SCALAR | FieldKind_MAP | FieldKind_ARRAY | FieldKind_REFERENCE
| FieldKind_ANY.

Inductive Position :=
| Position_BODY | Position_HEADER | Position_FORMDATA | Position_QUERY
| Position_PATH.

#[global] Instance FieldKind_eq_dec : EqDecision FieldKind.
Proof. solve_decision. Defined.
#[global] Instance Position_eq_dec : EqDecision Position.
Proof. solve_decision. Defined.

Module Field.
(** [EnumValues] is a slice the code tests against nil: [None] is nil. *)
Record t := mk {
  Name : string;
  Kind : FieldKind;
  Position : Position;
  NativeType : string;
  FieldName : string;
  EnumValues : option (list string)
}.
End Field.

Module SType.
(** [surface_v1.Type] *)
Record t := mk {
  Name : string;
  Description : string;
  Fields : list Field.t;
  TypeName : string
}.
End SType.

Module Method.
Record t := mk {
  Path : string;
  Method : string;
  HandlerName : string;
  ParametersTypeName : string;
  ResponsesTypeName : string
}.
End Method.

Module Model.
Record t := mk {
  Types : list SType.t;
  Methods : list Method.t;
  SymbolicReferences : list string
}.
End Model.

(** ** Descriptors (package [dpb]) and the HTTP annotation *)

Inductive FieldDescriptorProto_Type :=
| TYPE_DOUBLE | TYPE_FLOAT | TYPE_INT64 | TYPE_UINT64 | TYPE_INT32
| TYPE_FIXED64 | TYPE_FIXED32 | TYPE_BOOL | TYPE_STRING | TYPE_GROUP
| TYPE_MESSAGE | TYPE_BYTES | TYPE_UINT32 | TYPE_ENUM | TYPE_SFIXED32
| TYPE_SFIXED64 | TYPE_SINT32 | TYPE_SINT64.

Inductive FieldDescriptorProto_Label :=
| LABEL_OPTIONAL | LABEL_REQUIRED | LABEL_REPEATED.

#[global] Instance FieldDescriptorProto_Type_eq_dec :
  EqDecision FieldDescriptorProto_Type.
Proof. solve_decision. Defined.
#[global] Instance FieldDescriptorProto_Label_eq_dec :
  EqDecision FieldDescriptorProto_Label.
Proof. solve_decision. Defined.

Module FieldDescriptorProto.
Record t := mk {
  Name : option string;
  Number : option Z;
  Label : option FieldDescriptorProto_Label;
  Type_ : option FieldDescriptorProto_Type;
  TypeName : option string;
  Extendee : option string
}.
(** [&dpb.FieldDescriptorProto{}] *)
Definition zero : t := mk None None None None None None.
End FieldDescriptorProto.

Module EnumValueDescriptorProto.
Record t := mk { Name : option string; Number : option Z }.
End EnumValueDescriptorProto.

Module EnumDescriptorProto.
Record t := mk {
  Name : option string;
  Value : list EnumValueDescriptorProto.t
}.
End EnumDescriptorProto.

Module MessageOptions.
Record t := mk { MapEntry : option bool }.
End MessageOptions.

Module DescriptorProto.
#[local] Unset Elimination Schemes.
Inductive t := mk {
  Name : option string;
  Field : list FieldDescriptorProto.t;
  NestedType : list t;
  EnumType : list EnumDescriptorProto.t;
  Options : option MessageOptions.t
}.
Definition zero : t := mk None [] [] [] None.
End DescriptorProto.

(** The [pattern] of a [google.api.HttpRule]. *)
Inductive HttpRule_Pattern :=
| HttpRule_Get (p : string)
| HttpRule_Put (p : string)
| HttpRule_Post (p : string)
| HttpRule_Delete (p : string)
| HttpRule_Patch (p : string).

Module HttpRule.
Record t := mk { Pattern : option HttpRule_Pattern; Body : string }.
Definition zero : t := mk None "".
End HttpRule.

Module MethodOptions.
(** Only the [google.api.http] extension is ever set. *)
Record t := mk { E_Http : option HttpRule.t }.
Definition zero : t := mk None.
End MethodOptions.

Module MethodDescriptorProto.
Record t := mk {
  Name : option string;
  InputType : option string;
  OutputType : option string;
  Options : option MethodOptions.t
}.
End MethodDescriptorProto.

Module ServiceDescriptorProto.
Record t := mk {
  Name : option string;
  Method : list MethodDescriptorProto.t
}.
End ServiceDescriptorProto.

Module FileDescriptorProto.
Record t := mk {
  Name : option string;
  Package : option string;
  Dependency : list string;
  MessageType : list DescriptorProto.t;
  Service : list ServiceDescriptorProto.t;
  Extension : list FieldDescriptorProto.t;
  Syntax : option string
}.
Definition zero : t := mk None None [] [] [] [] None.
End FileDescriptorProto.

(** A [*dpb.FileDescriptorProto]: an address in the store. *)
Definition ptr := nat.

Module FileDescriptorSet.
Record t := mk { File : list ptr }.
End FileDescriptorSet.

Module Renderer.
(** Modelled from the spec: the [Renderer] struct is declared in another
    file of the package; the generator uses the surface model, the package
    name and the accumulator of recursively produced descriptor sets. *)
Record t := mk {
  Model : Model.t;
  Package : string;
  SymbolicFdSets : list FileDescriptorSet.t
}.
End Renderer.

(** Modelled from the spec: [NewRenderer] is defined in another file of the
    package; it wraps a surface model in a renderer that has no package name
    and no recursively produced sets yet. *)
Definition NewRenderer (model : Model.t) : Renderer.t :=
  Renderer.mk model "" [].

(** ** Program state *)

Record State := mkState {
  (** the store of allocated file descriptors *)
  heap : list FileDescriptorProto.t;
  (** [var generatedSymbolicReferences map[string]bool] *)
  generatedSymbolicReferences : gmap string bool;
  (** [var generatedMessages map[string]string] *)
  generatedMessages : gmap string string;
  (** [var shouldRenderEmptyImport bool] *)
  shouldRenderEmptyImport : bool;
  (** the URLs handed to the [gnostic] subprocess, oldest first *)
  gnosticCalls : list string;
  (** the lines written by [log.Println], oldest first *)
  logged : list string
}.

(** The package-level variables as initialised when the program starts. *)
Definition initialState : State := mkState [] ∅ ∅ false [] [].

(** Computations over the program state. *)
Definition M (A : Type) : Type := State → outcome (A * State).

#[global] Instance M_ret : MRet M := λ A a st, Ok (a, st).
#[global] Instance M_bind : MBind M := λ A B f m st,
  match m st with
  | Ok (a, st') => f a st'
  | Err e => Err e
  | Panic => Panic
  | OutOfFuel => OutOfFuel
  end.

(** A state-independent computation inside [M]. *)
Definition lift {A} (o : outcome A) : M A := λ st,
  match o with
  | Ok a => Ok (a, st)
  | Err e => Err e
  | Panic => Panic
  | OutOfFuel => OutOfFuel
  end.

Definition get : M State := λ st, Ok (st, st).
Definition modify (f : State → State) : M unit := λ st, Ok (tt, f st).

Definition set_heap (h : list FileDescriptorProto.t) (st : State) : State :=
  mkState h (generatedSymbolicReferences st) (generatedMessages st)
    (shouldRenderEmptyImport st) (gnosticCalls st) (logged st).
Definition set_generatedSymbolicReferences (g : gmap string bool) (st : State)
  : State :=
  mkState (heap st) g (generatedMessages st) (shouldRenderEmptyImport st)
    (gnosticCalls st) (logged st).
Definition set_generatedMessages (g : gmap string string) (st : State) : State :=
  mkState (heap st) (generatedSymbolicReferences st) g
    (shouldRenderEmptyImport st) (gnosticCalls st) (logged st).
Definition set_shouldRenderEmptyImport (b : bool) (st : State) : State :=
  mkState (heap st) (generatedSymbolicReferences st) (generatedMessages st) b
    (gnosticCalls st) (logged st).
Definition set_gnosticCalls (l : list string) (st : State) : State :=
  mkState (heap st) (generatedSymbolicReferences st) (generatedMessages st)
    (shouldRenderEmptyImport st) l (logged st).
Definition set_logged (l : list string) (st : State) : State :=
  mkState (heap st) (generatedSymbolicReferences st) (generatedMessages st)
    (shouldRenderEmptyImport st) (gnosticCalls st) l.

(** [&dpb.FileDescriptorProto{...}]: a fresh address holding [fd]. *)
Definition alloc (fd : FileDescriptorProto.t) : M ptr := λ st,
  Ok (length (heap st), set_heap (heap st ++ [fd]) st).

(** Reading through a file-descriptor pointer. *)
Definition load (p : ptr) : M FileDescriptorProto.t := λ st,
  match heap st !! p with
  | Some fd => Ok (fd, st)
  | None => Panic
  end.

(** Writing through a file-descriptor pointer. *)
Definition store (p : ptr) (fd : FileDescriptorProto.t) : M unit := λ st,
  match heap st !! p with
  | Some _ => Ok (tt, set_heap (<[p := fd]> (heap st)) st)
  | None => Panic
  end.

(** [log.Println(line)] *)
Definition log_Println (line : string) : M unit :=
  modify (λ st, set_logged (logged st ++ [line]) st).

(** ** What the generator takes from outside its own file

    Library functions whose result depends on Unicode tables, the embedded
    descriptors of the well-known files, and the collaborators of the
    reference resolution (the [gnostic] subprocess, the protobuf decoder, the
    surface-model builder and the language model of this repository). *)

Inductive result (A : Type) : Type :=
| Success (a : A)
| Failure (e : error).
Arguments Success {A} a.
Arguments Failure {A} e.

Class Env := {
  (** [strings.Title] and [strings.ToUpper] *)
  strings_Title : string → string;
  strings_ToUpper : string → string;
  (** the message types of the embedded descriptor of a well-known file *)
  embeddedMessages : string → list DescriptorProto.t;
  (** [openapiv3.Document], its zero value and its [Openapi] field *)
  Document : Type;
  Document_zero : Document;
  Document_Openapi : Document → string;
  (** [proto.Unmarshal(b, document)]: the document as the decoder leaves it,
      and the error it returns, if any *)
  proto_Unmarshal : list Byte.byte → Document → Document * option error;
  (** [exec.Command("gnostic", "--pb-out=-", ref).Output()] *)
  gnostic_Output : string → result (list Byte.byte);
  (** [surface_v1.NewModelFromOpenAPI3(document, ref)] *)
  NewModelFromOpenAPI3 : Document → string → result Model.t;
  (** [NewProtoLanguageModel().Prepare(model, inputDocumentType)], which
      rewrites the model in place *)
  Prepare : Model.t → string → Model.t
}.

(** ** Type Mapper *)

(** [getProtobufTypes], in the order of its assignments. *)
Definition getProtobufTypes : gmap string FieldDescriptorProto_Type :=
  let typeMapping : gmap string FieldDescriptorProto_Type := ∅ in
  let typeMapping := <["double" := TYPE_DOUBLE]> typeMapping in
  let typeMapping := <["float" := TYPE_FLOAT]> typeMapping in
  let typeMapping := <["int64" := TYPE_INT64]> typeMapping in
  let typeMapping := <["uint64" := TYPE_UINT64]> typeMapping in
  let typeMapping := <["int32" := TYPE_INT32]> typeMapping in
  let typeMapping := <["fixed64" := TYPE_FIXED64]> typeMapping in
  let typeMapping := <["fixed32" := TYPE_FIXED32]> typeMapping in
  let typeMapping := <["bool" := TYPE_BOOL]> typeMapping in
  let typeMapping := <["string" := TYPE_STRING]> typeMapping in
  let typeMapping := <["bytes" := TYPE_BYTES]> typeMapping in
  let typeMapping := <["uint32" := TYPE_UINT32]> typeMapping in
  let typeMapping := <["sfixed32" := TYPE_SFIXED32]> typeMapping in
  let typeMapping := <["sfixed64" := TYPE_SFIXED64]> typeMapping in
  let typeMapping := <["sint32" := TYPE_SINT32]> typeMapping in
  let typeMapping := <["sint64" := TYPE_SINT64]> typeMapping in
  typeMapping.

Definition protoBufScalarTypes : gmap string FieldDescriptorProto_Type :=
  getProtobufTypes.

(** [getFieldDescriptorType]; the result is a pointer and never nil. *)
Definition getFieldDescriptorType (nativeType : string)
    (enumValues : option (list string)) : option FieldDescriptorProto_Type :=
  match protoBufScalarTypes !! nativeType with
  | Some protoType => Some protoType
  | None =>
      match enumValues with
      | Some _ => Some TYPE_ENUM
      | None => Some TYPE_MESSAGE
      end
  end.

(** [getTypeNameForMapValueType] *)
Definition getTypeNameForMapValueType (valueType : string) : option string :=
  match protoBufScalarTypes !! valueType with
  | Some _ => None
  | None => Some valueType
  end.

(** ** Message Builder *)

(** [setFieldDescriptorLabel] *)
Definition setFieldDescriptorLabel (fd : FieldDescriptorProto.t) (f : Field.t)
  : FieldDescriptorProto.t :=
  let label :=
    if bool_decide (Field.Kind f = FieldKind_ARRAY)
       || strings.Contains (Field.NativeType f) "map"
    then LABEL_REPEATED else LABEL_OPTIONAL in
  FieldDescriptorProto.mk (FieldDescriptorProto.Name fd)
    (FieldDescriptorProto.Number fd) (Some label)
    (FieldDescriptorProto.Type_ fd) (FieldDescriptorProto.TypeName fd)
    (FieldDescriptorProto.Extendee fd).

Definition set_TypeName (typeName : option string) (fd : FieldDescriptorProto.t)
  : FieldDescriptorProto.t :=
  FieldDescriptorProto.mk (FieldDescriptorProto.Name fd)
    (FieldDescriptorProto.Number fd) (FieldDescriptorProto.Label fd)
    (FieldDescriptorProto.Type_ fd) typeName
    (FieldDescriptorProto.Extendee fd).

(** [setFieldDescriptorTypeName]; it reads [generatedMessages] and
    dereferences [fd.Type]. *)
Definition setFieldDescriptorTypeName (fd : FieldDescriptorProto.t)
    (f : Field.t) (packageName : string) : M FieldDescriptorProto.t :=
  ty ← lift (deref (FieldDescriptorProto.Type_ fd));
  st ← get;
  let fd :=
    if decide (ty = TYPE_MESSAGE) then
      let typeName := packageName +:+ "." +:+ Field.NativeType f in
      let typeName :=
        match generatedMessages st !! Field.NativeType f with
        | Some n => n
        | None => typeName
        end in
      set_TypeName (Some typeName) fd
    else fd in
  let fd :=
    if decide (ty = TYPE_ENUM) then set_TypeName (Some (Field.NativeType f)) fd
    else fd in
  mret fd.

(** [buildKeyValueFields]; the slice expression [field.NativeType[11:]]
    panics on a native type shorter than 11 bytes. *)
Definition buildKeyValueFields (field : Field.t)
  : outcome (list FieldDescriptorProto.t) :=
  let k := "key" in
  let v := "value" in
  let l := LABEL_OPTIONAL in
  let t := TYPE_STRING in
  let keyField :=
    FieldDescriptorProto.mk (Some k) (Some 1) (Some l) (Some t) None None in
  valueType ← slice_from (Field.NativeType field) 11;
  let valueField :=
    FieldDescriptorProto.mk (Some v) (Some 2) (Some l)
      (getFieldDescriptorType valueType (Field.EnumValues field))
      (getTypeNameForMapValueType valueType) None in
  mret [keyField; valueField].

(** [buildMapDescriptorProto] *)
Definition buildMapDescriptorProto (field : Field.t) : outcome DescriptorProto.t :=
  let isMapEntry := true in
  let n := Field.FieldName field +:+ "Entry" in
  fields ← buildKeyValueFields field;
  mret (DescriptorProto.mk (Some n) fields [] []
          (Some (MessageOptions.mk (Some isMapEntry)))).

(** The loop of [buildEnumDescriptorProto]: [enumCtr] is the index of
    [value]. *)
Fixpoint enumValueDescriptors `{Env} (enumCtr : nat) (values : list string)
  : list EnumValueDescriptorProto.t :=
  match values with
  | [] => []
  | value :: values' =>
      let num := int32 (Z.of_nat enumCtr) in
      let name := strings_ToUpper value in
      EnumValueDescriptorProto.mk (Some name) (Some num)
        :: enumValueDescriptors (S enumCtr) values'
  end.

(** [buildEnumDescriptorProto]; ranging over a nil slice does nothing. *)
Definition buildEnumDescriptorProto `{Env} (f : Field.t) : EnumDescriptorProto.t :=
  EnumDescriptorProto.mk (Some (Field.NativeType f))
    (enumValueDescriptors 0 (default [] (Field.EnumValues f))).

(** [validatePathParameter] *)
Definition validatePathParameter (field : Field.t) : M unit :=
  if decide (Field.Kind field ≠ FieldKind_SCALAR) then
    log_Println ("The path parameter with the Name " +:+ Field.Name field +:+
      " is invalid. " +:+
      "The path template may refer to one or more fields in the gRPC request message, as" +:+
      " long as each field is a non-repeated field with a primitive (non-message) type. " +:+
      "See: https://github.com/googleapis/googleapis/blob/master/google/api/http.proto#L62 for more information.")
  else mret tt.

(** [validateQueryParameter] *)
Definition validateQueryParameter (field : Field.t) : M unit :=
  let isScalar :=
    bool_decide (is_Some (protoBufScalarTypes !! Field.NativeType field)) in
  if negb (bool_decide (Field.Kind field = FieldKind_SCALAR)
           || (bool_decide (Field.Kind field = FieldKind_ARRAY) && isScalar)
           || bool_decide (Field.Kind field = FieldKind_REFERENCE)) then
    log_Println ("The query parameter with the Name " +:+ Field.Name field +:+
      " is invalid. " +:+
      "Note that fields which are mapped to URL query parameters must have a primitive type or" +:+
      " a repeated primitive type or a non-repeated message type. " +:+
      "See: https://github.com/googleapis/googleapis/blob/master/google/api/http.proto#L118 for more information.")
  else mret tt.

(** [isRequestParameter] *)
Definition isRequestParameter (t : SType.t) : bool :=
  strings.Contains (SType.Description t)
    (SType.Name t +:+ " holds parameters to").

Definition add_EnumType (e : EnumDescriptorProto.t) (m : DescriptorProto.t)
  : DescriptorProto.t :=
  DescriptorProto.mk (DescriptorProto.Name m) (DescriptorProto.Field m)
    (DescriptorProto.NestedType m) (DescriptorProto.EnumType m ++ [e])
    (DescriptorProto.Options m).
Definition add_NestedType (n : DescriptorProto.t) (m : DescriptorProto.t)
  : DescriptorProto.t :=
  DescriptorProto.mk (DescriptorProto.Name m) (DescriptorProto.Field m)
    (DescriptorProto.NestedType m ++ [n]) (DescriptorProto.EnumType m)
    (DescriptorProto.Options m).
Definition add_Field (fd : FieldDescriptorProto.t) (m : DescriptorProto.t)
  : DescriptorProto.t :=
  DescriptorProto.mk (DescriptorProto.Name m) (DescriptorProto.Field m ++ [fd])
    (DescriptorProto.NestedType m) (DescriptorProto.EnumType m)
    (DescriptorProto.Options m).

Section Generator.
Context `{Env}.

(** The checks at the head of the loop over [t.Fields] in
    [buildMessagesFromTypes]. *)
Definition validateRequestParameter (t : SType.t) (f : Field.t) : M unit :=
  if isRequestParameter t then
    (if decide (Field.Position f = Position_PATH)
     then validatePathParameter f else mret tt);;
    (if decide (Field.Position f = Position_QUERY)
     then validateQueryParameter f else mret tt)
  else mret tt.

(** The body of the loop over [t.Fields] in [buildMessagesFromTypes]: [i] is
    the index of [f] and [message] the descriptor under construction. The
    [continue] of the unsupported map-of-array case returns the message
    without the field. *)
Definition buildField (t : SType.t) (packageName : string) (i : nat)
    (f : Field.t) (message : DescriptorProto.t) : M DescriptorProto.t :=
  validateRequestParameter t f;;
  let message :=
    match Field.EnumValues f with
    | Some _ => add_EnumType (buildEnumDescriptorProto f) message
    | None => message
    end in
  let ctr := int32 (int (Z.of_nat i + 1)) in
  let fieldDescriptor :=
    FieldDescriptorProto.mk (Some (Field.FieldName f)) (Some ctr) None
      (getFieldDescriptorType (Field.NativeType f) (Field.EnumValues f))
      None None in
  let fieldDescriptor := setFieldDescriptorLabel fieldDescriptor f in
  fieldDescriptor ←
    setFieldDescriptorTypeName fieldDescriptor f packageName;
  if decide (Field.Kind f = FieldKind_MAP) then
    if strings.Contains (Field.NativeType f) "map[string][]" then
      mret message
    else
      mapDescriptorProto ← lift (buildMapDescriptorProto f);
      let fieldDescriptor :=
        set_TypeName (DescriptorProto.Name mapDescriptorProto)
          fieldDescriptor in
      let message := add_NestedType mapDescriptorProto message in
      mret (add_Field fieldDescriptor message)
  else mret (add_Field fieldDescriptor message).

Fixpoint buildFields (t : SType.t) (packageName : string) (i : nat)
    (fields : list Field.t) (message : DescriptorProto.t)
  : M DescriptorProto.t :=
  match fields with
  | [] => mret message
  | f :: fields' =>
      message ← buildField t packageName i f message;
      buildFields t packageName (S i) fields' message
  end.

(** The message descriptor of one surface-model type. *)
Definition buildMessage (t : SType.t) (packageName : string)
  : M DescriptorProto.t :=
  let message :=
    DescriptorProto.mk (Some (SType.TypeName t)) [] [] [] None in
  buildFields t packageName 0 (SType.Fields t) message.

Definition add_MessageType (m : DescriptorProto.t)
    (fd : FileDescriptorProto.t) : FileDescriptorProto.t :=
  FileDescriptorProto.mk (FileDescriptorProto.Name fd)
    (FileDescriptorProto.Package fd) (FileDescriptorProto.Dependency fd)
    (FileDescriptorProto.MessageType fd ++ [m])
    (FileDescriptorProto.Service fd) (FileDescriptorProto.Extension fd)
    (FileDescriptorProto.Syntax fd).

(** The loop over [renderer.Model.Types] in [buildMessagesFromTypes]. *)
Fixpoint buildMessages (descr : ptr) (packageName : string)
    (types : list SType.t) : M unit :=
  match types with
  | [] => mret tt
  | t :: types' =>
      message ← buildMessage t packageName;
      d ← load descr;
      store descr (add_MessageType message d);;
      name ← lift (deref (DescriptorProto.Name message));
      modify (λ st,
        set_generatedMessages
          (<[name := packageName +:+ "." +:+ name]> (generatedMessages st))
          st);;
      buildMessages descr packageName types'
  end.

(** [buildMessagesFromTypes]; its error result is always nil. *)
Definition buildMessagesFromTypes (descr : ptr) (renderer : Renderer.t)
  : M unit :=
  buildMessages descr (Renderer.Package renderer)
    (Model.Types (Renderer.Model renderer)).

(** ** Service Builder *)

(** The first loop of [findValidServiceName]. *)
Fixpoint collectMessageNames (messages : list DescriptorProto.t)
    (messageNames : gmap string bool) : outcome (gmap string bool) :=
  match messages with
  | [] => Ok messageNames
  | m :: messages' =>
      n ← deref (DescriptorProto.Name m);
      collectMessageNames messages' (<[n := true]> messageNames)
  end.

(** The [for { ... }] of [findValidServiceName]; [fuel] bounds the number
    of iterations. *)
Fixpoint findValidServiceName_loop (fuel : nat)
    (messageNames : gmap string bool) (serviceName validServiceName : string)
    (ctr : Z) : outcome string :=
  match fuel with
  | O => OutOfFuel
  | S fuel' =>
      let nameIsAlreadyTaken :=
        default false (messageNames !! validServiceName) in
      if negb nameIsAlreadyTaken then Ok validServiceName
      else
        let validServiceName := serviceName +:+ "Service" in
        let validServiceName :=
          if decide (ctr > 0) then validServiceName +:+ Itoa ctr
          else validServiceName in
        let ctr := int (ctr + 1) in
        findValidServiceName_loop fuel' messageNames serviceName
          validServiceName ctr
  end.

(** [findValidServiceName] *)
Definition findValidServiceName (fuel : nat)
    (messages : list DescriptorProto.t) (serviceName : string)
  : outcome string :=
  messageNames ← collectMessageNames messages ∅;
  findValidServiceName_loop fuel messageNames serviceName serviceName 0.

(** [getRequestBodyForRequestParameters]: the last type named [name] is
    searched for its first BODY field. *)
Definition getRequestBodyForRequestParameters (name : string)
    (types : list SType.t) : option string :=
  let requestParameterType :=
    foldl (λ acc t, if decide (SType.Name t = name) then t else acc)
      (SType.mk "" "" [] "") types in
  Field.FieldName <$>
    head (filter (λ f, Field.Position f = Position_BODY)
            (SType.Fields requestParameterType)).

(** [getHttpRuleForMethod] *)
Definition getHttpRuleForMethod (method : Method.t) (body : option string)
  : HttpRule.t :=
  let verb := Method.Method method in
  let pattern :=
    if decide (verb = "GET") then Some (HttpRule_Get (Method.Path method))
    else if decide (verb = "POST") then
      Some (HttpRule_Post (Method.Path method))
    else if decide (verb = "PUT") then Some (HttpRule_Put (Method.Path method))
    else if decide (verb = "PATCH") then
      Some (HttpRule_Patch (Method.Path method))
    else if decide (verb = "DELETE") then
      Some (HttpRule_Delete (Method.Path method))
    else None in
  HttpRule.mk pattern (default "" body).

(** [proto.SetExtension(mOptionsDescr, annotations.E_Http, &httpRule)]. Its
    error cases (a message that is not the extended type, a value of
    another type than the extension's, a nil value) are excluded by the
    types at this call. *)
Definition proto_SetExtension_E_Http (pb : MethodOptions.t)
    (value : HttpRule.t) : result MethodOptions.t :=
  Success (MethodOptions.mk (Some value)).

(** The body of the loop over [methods] in [buildServiceFromMethods]. The
    method is a pointer into the surface model: the substitution of the
    empty type is written to the model, so the method comes back with it. *)
Definition buildMethod (types : list SType.t) (method : Method.t)
  : M (Method.t * MethodDescriptorProto.t) :=
  let mOptionsDescr := MethodOptions.zero in
  let requestBody :=
    getRequestBodyForRequestParameters (Method.ParametersTypeName method)
      types in
  let httpRule := getHttpRuleForMethod method requestBody in
  match proto_SetExtension_E_Http mOptionsDescr httpRule with
  | Failure err => λ _, Err err
  | Success mOptionsDescr =>
      method ←
        (if decide (Method.ParametersTypeName method = "") then
           modify (set_shouldRenderEmptyImport true);;
           mret (Method.mk (Method.Path method) (Method.Method method)
                   (Method.HandlerName method) "google.protobuf.Empty"
                   (Method.ResponsesTypeName method))
         else mret method);
      method ←
        (if decide (Method.ResponsesTypeName method = "") then
           modify (set_shouldRenderEmptyImport true);;
           mret (Method.mk (Method.Path method) (Method.Method method)
                   (Method.HandlerName method)
                   (Method.ParametersTypeName method) "google.protobuf.Empty")
         else mret method);
      let mDescr :=
        MethodDescriptorProto.mk (Some (Method.HandlerName method))
          (Some (Method.ParametersTypeName method))
          (Some (Method.ResponsesTypeName method)) (Some mOptionsDescr) in
      mret (method, mDescr)
  end.

Fixpoint buildMethods (types : list SType.t) (methods : list Method.t)
  : M (list Method.t * list MethodDescriptorProto.t) :=
  match methods with
  | [] => mret ([], [])
  | method :: methods' =>
      '(method, mDescr) ← buildMethod types method;
      '(ms, ds) ← buildMethods types methods';
      mret (method :: ms, mDescr :: ds)
  end.

Definition set_Service (s : list ServiceDescriptorProto.t)
    (fd : FileDescriptorProto.t) : FileDescriptorProto.t :=
  FileDescriptorProto.mk (FileDescriptorProto.Name fd)
    (FileDescriptorProto.Package fd) (FileDescriptorProto.Dependency fd)
    (FileDescriptorProto.MessageType fd) s (FileDescriptorProto.Extension fd)
    (FileDescriptorProto.Syntax fd).

(** [buildServiceFromMethods]. The service is reachable from [descr] while
    its methods are appended; the descriptor is written once the loop is
    over, which is what a normal return leaves in the store. *)
Definition buildServiceFromMethods (fuel : nat) (descr : ptr)
    (renderer : Renderer.t) : M Renderer.t :=
  let model := Renderer.Model renderer in
  let methods := Model.Methods model in
  d ← load descr;
  serviceName ←
    lift (findValidServiceName fuel (FileDescriptorProto.MessageType d)
            (strings_Title (Renderer.Package renderer)));
  '(methods, mDescrs) ← buildMethods (Model.Types model) methods;
  let service := ServiceDescriptorProto.mk (Some serviceName) mDescrs in
  store descr (set_Service [service] d);;
  mret (Renderer.mk
          (Model.mk (Model.Types model) methods
             (Model.SymbolicReferences model))
          (Renderer.Package renderer) (Renderer.SymbolicFdSets renderer)).

(** ** Dependency Assembler *)

(** [descriptor.MessageDescriptorProto(&annotations.Http{})]: the embedded
    descriptor of google/api/http.proto. *)
Definition httpFileDescriptor : FileDescriptorProto.t :=
  FileDescriptorProto.mk (Some "google/api/http.proto") (Some "google.api")
    [] (embeddedMessages "google/api/http.proto") [] [] (Some "proto3").

(** [descriptor.MessageDescriptorProto(&empty.Empty{})] *)
Definition emptyFileDescriptor : FileDescriptorProto.t :=
  FileDescriptorProto.mk (Some "google/protobuf/empty.proto")
    (Some "google.protobuf") []
    (embeddedMessages "google/protobuf/empty.proto") [] [] (Some "proto3").

(** [descriptor.MessageDescriptorProto(&dpb.DescriptorProto{})] *)
Definition descriptorFileDescriptor : FileDescriptorProto.t :=
  FileDescriptorProto.mk (Some "google/protobuf/descriptor.proto")
    (Some "google.protobuf") []
    (embeddedMessages "google/protobuf/descriptor.proto") [] [] None.

(** [annotations.E_Http.Field] *)
Definition E_Http_Field : Z := 72295728.

(** [buildDependencies]. [descriptor.MessageDescriptorProto] is taken to
    decode the embedded descriptor into a fresh object on every call; the
    first is patched before anything else can reach it. *)
Definition buildDependencies (fdSet : FileDescriptorSet.t)
  : M FileDescriptorSet.t :=
  let http := httpFileDescriptor in
  let extensionName := "http" in
  let n := "google/api/annotations.proto" in
  let l := LABEL_OPTIONAL in
  let t := TYPE_MESSAGE in
  let tName := "google.api.HttpRule" in
  let extendee := ".google.protobuf.MethodOptions" in
  let httpExtension :=
    FieldDescriptorProto.mk (Some extensionName) (Some E_Http_Field) (Some l)
      (Some t) (Some tName) (Some extendee) in
  fd ← alloc
    (FileDescriptorProto.mk (Some n) (FileDescriptorProto.Package http)
       (FileDescriptorProto.Dependency http
          ++ ["google/protobuf/descriptor.proto"])
       (FileDescriptorProto.MessageType http)
       (FileDescriptorProto.Service http)
       (FileDescriptorProto.Extension http ++ [httpExtension])
       (FileDescriptorProto.Syntax http));
  fd2 ← alloc emptyFileDescriptor;
  fd3 ← alloc descriptorFileDescriptor;
  let dependencies := [fd; fd2; fd3] in
  mret (FileDescriptorSet.mk (dependencies ++ FileDescriptorSet.File fdSet)).

(** ** Descriptor Set Assembler *)

(** [getLast]: indexing an empty slice panics. *)
Definition getLast (protos : list ptr) : outcome ptr :=
  index protos (length protos - 1).

(** The loop of [addDependencies]; [dependency] stands for
    [lastFdProto.Dependency], the only field the loop writes, and every
    descriptor it reads is another object than [lastFdProto]. *)
Fixpoint collectDependencies (lastFdProto : ptr) (files : list ptr)
    (dependency : list string) : M (list string) :=
  match files with
  | [] => mret dependency
  | fd :: files' =>
      if decide (fd ≠ lastFdProto) then
        d ← load fd;
        name ← lift (deref (FileDescriptorProto.Name d));
        st ← get;
        if decide (name = "google/protobuf/empty.proto") then
          collectDependencies lastFdProto files'
            (if shouldRenderEmptyImport st then dependency ++ [name]
             else dependency)
        else collectDependencies lastFdProto files' (dependency ++ [name])
      else collectDependencies lastFdProto files' dependency
  end.

Definition set_Dependency (deps : list string) (fd : FileDescriptorProto.t)
  : FileDescriptorProto.t :=
  FileDescriptorProto.mk (FileDescriptorProto.Name fd)
    (FileDescriptorProto.Package fd) deps
    (FileDescriptorProto.MessageType fd) (FileDescriptorProto.Service fd)
    (FileDescriptorProto.Extension fd) (FileDescriptorProto.Syntax fd).

(** [addDependencies] *)
Definition addDependencies (fdSet : FileDescriptorSet.t) : M unit :=
  lastFdProto ← lift (getLast (FileDescriptorSet.File fdSet));
  l ← load lastFdProto;
  dependency ←
    collectDependencies lastFdProto (FileDescriptorSet.File fdSet)
      (FileDescriptorProto.Dependency l);
  store lastFdProto (set_Dependency (sort_Strings dependency) l).

(** ** Symbolic Reference Resolver *)

(** [createOpenAPIDocFromGnosticOutput]; an error is compared by its
    message. *)
Definition createOpenAPIDocFromGnosticOutput (binaryInput : list Byte.byte)
  : outcome Document :=
  let document := Document_zero in
  let '(document, err) := proto_Unmarshal binaryInput document in
  match err with
  | Some e =>
      if decide (e ≠ "unexpected EOF") then Err e else Ok document
  | None => Ok document
  end.

(** [isDuplicate] *)
Fixpoint isDuplicate (ss : list string) (s : string) : bool :=
  match ss with
  | [] => false
  | s2 :: ss' => if decide (s = s2) then true else isDuplicate ss' s
  end.

(** The loop of [trimAndRemoveDuplicates]; [result] is the slice built so
    far. *)
Fixpoint trimAndRemoveDuplicates_loop (urls result : list string)
  : outcome (list string) :=
  match urls with
  | [] => Ok result
  | url :: urls' =>
      let parts := strings.Split url "#" in
      part0 ← index parts 0;
      if negb (isDuplicate result part0)
      then trimAndRemoveDuplicates_loop urls' (result ++ [part0])
      else trimAndRemoveDuplicates_loop urls' result
  end.

(** [trimAndRemoveDuplicates] *)
Definition trimAndRemoveDuplicates (urls : list string)
  : outcome (list string) :=
  trimAndRemoveDuplicates_loop urls [].

(** Running the [gnostic] subprocess on a reference. *)
Definition exec_gnostic (ref : string) : M (list Byte.byte) := λ st,
  let st := set_gnosticCalls (gnosticCalls st ++ [ref]) st in
  match gnostic_Output ref with
  | Success b => Ok (b, st)
  | Failure err => Err err
  end.

Definition lift_result {A} (r : result A) : M A := λ st,
  match r with
  | Success a => Ok (a, st)
  | Failure err => Err err
  end.

Definition add_SymbolicFdSet (s : FileDescriptorSet.t) (r : Renderer.t)
  : Renderer.t :=
  Renderer.mk (Renderer.Model r) (Renderer.Package r)
    (Renderer.SymbolicFdSets r ++ [s]).

(** The loop over the references in [buildSymbolicReferences]; [run] is
    [runFileDescriptorSetGenerator], which the loop calls on the renderer
    of the referenced document. *)
Fixpoint resolveReferences
    (run : Renderer.t → M (FileDescriptorSet.t * Renderer.t))
    (symbolicReferences : list string) (renderer : Renderer.t)
    (symbolicFileDescriptorProtos : list ptr)
  : M (Renderer.t * list ptr) :=
  match symbolicReferences with
  | [] => mret (renderer, symbolicFileDescriptorProtos)
  | ref :: symbolicReferences' =>
      st ← get;
      if decide (is_Some (generatedSymbolicReferences st !! ref)) then
        resolveReferences run symbolicReferences' renderer
          symbolicFileDescriptorProtos
      else
        modify (λ st,
          set_generatedSymbolicReferences
            (<[ref := true]> (generatedSymbolicReferences st)) st);;
        b ← exec_gnostic ref;
        document ← lift (createOpenAPIDocFromGnosticOutput b);
        surfaceModel ← lift_result (NewModelFromOpenAPI3 document ref);
        let inputDocumentType :=
          if decide (Document_Openapi document = "2.0.0")
          then "openapi.v2.Document" else "openapi.v3.Document" in
        let surfaceModel := Prepare surfaceModel inputDocumentType in
        let recursiveRenderer := NewRenderer surfaceModel in
        let fileName := path.Base ref in
        let recursiveRenderer :=
          Renderer.mk (Renderer.Model recursiveRenderer)
            (strings.TrimSuffix fileName (path.Ext fileName))
            (Renderer.SymbolicFdSets recursiveRenderer) in
        '(newFdSet, _) ← run recursiveRenderer;
        let renderer := add_SymbolicFdSet newFdSet renderer in
        symbolicProto ← lift (getLast (FileDescriptorSet.File newFdSet));
        resolveReferences run symbolicReferences' renderer
          (symbolicFileDescriptorProtos ++ [symbolicProto])
  end.

(** [buildSymbolicReferences] *)
Definition buildSymbolicReferences
    (run : Renderer.t → M (FileDescriptorSet.t * Renderer.t))
    (fdSet : FileDescriptorSet.t) (renderer : Renderer.t)
  : M (FileDescriptorSet.t * Renderer.t) :=
  let symbolicReferences :=
    Model.SymbolicReferences (Renderer.Model renderer) in
  symbolicReferences ← lift (trimAndRemoveDuplicates symbolicReferences);
  '(renderer, symbolicFileDescriptorProtos) ←
    resolveReferences run symbolicReferences renderer [];
  mret (FileDescriptorSet.mk
          (symbolicFileDescriptorProtos ++ FileDescriptorSet.File fdSet),
        renderer).

(** [runFileDescriptorSetGenerator]. [fuel] bounds the depth of the
    recursion through [buildSymbolicReferences] and the iterations of the
    loop of [findValidServiceName]. The renderer is returned as the run
    leaves it. *)
Fixpoint runFileDescriptorSetGenerator (fuel : nat) (renderer : Renderer.t)
  : M (FileDescriptorSet.t * Renderer.t) :=
  match fuel with
  | O => λ _, OutOfFuel
  | S fuel' =>
      let syntax := "proto3" in
      let n := Renderer.Package renderer +:+ ".proto" in
      mainProto ← alloc
        (FileDescriptorProto.mk (Some n) (Some (Renderer.Package renderer))
           [] [] [] [] (Some syntax));
      let fdSet := FileDescriptorSet.mk [mainProto] in
      fdSet ← buildDependencies fdSet;
      '(fdSet, renderer) ←
        buildSymbolicReferences (runFileDescriptorSetGenerator fuel') fdSet
          renderer;
      buildMessagesFromTypes mainProto renderer;;
      renderer ← buildServiceFromMethods fuel' mainProto renderer;
      addDependencies fdSet;;
      mret (fdSet, renderer)
  end.
End Generator.

(** ** A concrete environment and concrete inputs

    Used to run the generator on explicit inputs. Strings are ASCII here, on
    which [strings.Title] and [strings.ToUpper] act byte by byte. *)

Module Example.

Definition isLower (c : ascii) : bool :=
  bool_decide (97 ≤ nat_of_ascii c ≤ 122)%nat.
Definition isAlnum (c : ascii) : bool :=
  let n := nat_of_ascii c in
  bool_decide (48 ≤ n ≤ 57 ∨ 65 ≤ n ≤ 90 ∨ 97 ≤ n ≤ 122)%nat.
Definition upper (c : ascii) : ascii :=
  if isLower c then ascii_of_nat (nat_of_ascii c - 32) else c.

(** A byte separates words unless it is a letter, a digit or '_'. *)
Definition isSeparator (c : ascii) : bool :=
  negb (isAlnum c || bool_decide (c = "_"%char)).

Fixpoint titleFrom (prev : ascii) (s : string) : string :=
  match s with
  | EmptyString => EmptyString
  | String c s' =>
      String (if isSeparator prev then upper c else c) (titleFrom c s')
  end.
Definition Title (s : string) : string := titleFrom " "%char s.

Fixpoint ToUpper (s : string) : string :=
  match s with
  | EmptyString => EmptyString
  | String c s' => String (upper c) (ToUpper s')
  end.

(** The well-known files, reduced to the names of their messages. *)
Definition named (n : string) : DescriptorProto.t :=
  DescriptorProto.mk (Some n) [] [] [] None.
Definition embedded (file : string) : list DescriptorProto.t :=
  if decide (file = "google/protobuf/empty.proto") then [named "Empty"]
  else if decide (file = "google/api/http.proto") then
    [named "Http"; named "HttpRule"; named "CustomHttpPattern"]
  else [].

(** A document is reduced to its [openapi] field, which is field 1 of the
    message and of wire type 2: tag byte 0x0a, a length byte, the bytes of
    the string. A field cut short is the unexpected end of input. *)
Definition Unmarshal (b : list Byte.byte) (document : string)
  : string * option error :=
  match b with
  | [] => (EmptyString, None)
  | Byte.x0a :: n :: rest =>
      let len := Byte.to_nat n in
      if decide (len ≤ length rest)%nat then
        let v := String.string_of_list_byte (take len rest) in
        match drop len rest with
        | [] => (v, None)
        | [_] => (v, Some "unexpected EOF")
        | _ => (v, Some "proto: illegal wireType 7")
        end
      else (EmptyString, Some "unexpected EOF")
  | [_] => (EmptyString, Some "unexpected EOF")
  | _ => (EmptyString, Some "proto: illegal wireType 7")
  end.

(** The encoding of a document whose [openapi] field is "3.0.0". *)
Definition openapi300 : list Byte.byte :=
  [Byte.x0a; Byte.x05; Byte.x33; Byte.x2e; Byte.x30; Byte.x2e; Byte.x30].

(** ** Surface models *)

Definition scalar (name ty : string) : Field.t :=
  Field.mk name FieldKind_SCALAR Position_BODY ty name None.

(** A type with a scalar, a map of int32, an unsupported map of arrays and
    a trailing scalar. *)
Definition petFields : list Field.t :=
  [ scalar "id" "int64";
    Field.mk "counts" FieldKind_MAP Position_BODY "map[string]int32" "counts"
      None;
    Field.mk "labels" FieldKind_MAP Position_BODY "map[string][]string"
      "labels" None;
    scalar "name" "string" ].
Definition Pet : SType.t := SType.mk "Pet" "A pet." petFields "Pet".

(** A message type whose name contains "map", and a reference to it. *)
Definition Roadmap : SType.t :=
  SType.mk "Roadmap" "" [scalar "title" "string"] "Roadmap".
Definition planField : Field.t :=
  Field.mk "plan" FieldKind_REFERENCE Position_BODY "Roadmap" "plan" None.
Definition Project : SType.t :=
  SType.mk "Project" "" [scalar "id" "int64"; planField] "Project".

(** Methods with and without declared parameter and response types. *)
Definition listPets : Method.t :=
  Method.mk "/pets" "GET" "ListPets" "" "".
Definition getPet : Method.t :=
  Method.mk "/pets/{id}" "GET" "GetPet" "GetPetParameters" "Pet".

(** The documents behind the symbolic references. [a.yaml] declares a
    method without parameter and response types, [b.yaml] a method with
    both, [pets.yaml] nothing, and [c.yaml] refers to [a.yaml]. *)
Definition modelA : Model.t := Model.mk [] [listPets] [].
Definition modelB : Model.t := Model.mk [Pet] [getPet] [].
Definition modelC : Model.t :=
  Model.mk [] [getPet] ["http://example.com/a.yaml#/components"].
Definition modelEmpty : Model.t := Model.mk [] [] [].

(** Models of main documents: [modelMain] names [a.yaml] twice, with
    different fragments, [modelSiblings] refers to [a.yaml] and [b.yaml]
    and declares a method with both types, [modelPets] refers to
    [pets.yaml]. *)
Definition modelMain : Model.t :=
  Model.mk [Pet] [getPet]
    ["http://example.com/a.yaml"; "http://example.com/b.yaml#x";
     "http://example.com/a.yaml#frag"; "http://example.com/c.yaml"].
Definition modelSiblings : Model.t :=
  Model.mk [] [getPet]
    ["http://example.com/a.yaml"; "http://example.com/b.yaml"].
Definition modelPets : Model.t :=
  Model.mk [] [] ["http://example.com/pets.yaml"].

Definition gnostic (ref : string) : result (list Byte.byte) :=
  if decide (path.Ext ref = ".yaml") then Success openapi300
  else Failure "exit status 1".

Definition NewModel (document : string) (ref : string) : result Model.t :=
  let base := path.Base ref in
  if decide (base = "a.yaml") then Success modelA
  else if decide (base = "b.yaml") then Success modelB
  else if decide (base = "c.yaml") then Success modelC
  else Success modelEmpty.

Definition env : Env := {|
  strings_Title := Title;
  strings_ToUpper := ToUpper;
  embeddedMessages := embedded;
  Document := string;
  Document_zero := EmptyString;
  Document_Openapi := λ d, d;
  proto_Unmarshal := Unmarshal;
  gnostic_Output := gnostic;
  NewModelFromOpenAPI3 := NewModel;
  Prepare := λ m _, m
|}.

(** The state in which a run for package [packageName] has just allocated
    its target file, and the renderer of a model. *)
Definition started (packageName : string) : State :=
  set_heap
    [FileDescriptorProto.mk (Some (packageName +:+ ".proto"))
       (Some packageName) [] [] [] [] (Some "proto3")]
    initialState.
Definition renderer (packageName : string) (model : Model.t) : Renderer.t :=
  Renderer.mk model packageName [].

End Example.

(** ** Documents that refer to each other

    [loop.yaml] refers to [pair.yaml] and to itself, and [pair.yaml] refers
    back to [loop.yaml]. *)

Module Cyclic.

Definition modelLoop : Model.t :=
  Model.mk [] [Example.listPets]
    ["http://example.com/pair.yaml";
     "http://example.com/loop.yaml#/components/schemas/Node"].
Definition modelPair : Model.t :=
  Model.mk [Example.Pet] [Example.getPet] ["http://example.com/loop.yaml"].

Definition NewModel (document : string) (ref : string) : result Model.t :=
  let base := path.Base ref in
  if decide (base = "loop.yaml") then Success modelLoop
  else if decide (base = "pair.yaml") then Success modelPair
  else Failure "no such document".

Definition env : Env := {|
  strings_Title := Example.Title;
  strings_ToUpper := Example.ToUpper;
  embeddedMessages := Example.embedded;
  Document := string;
  Document_zero := EmptyString;
  Document_Openapi := λ d, d;
  proto_Unmarshal := Example.Unmarshal;
  gnostic_Output := Example.gnostic;
  NewModelFromOpenAPI3 := NewModel;
  Prepare := λ m _, m
|}.

Definition references : list string :=
  ["http://example.com/loop.yaml"; "http://example.com/pair.yaml"].

End Cyclic.

(** ** Vocabulary of the statements *)

(** The state after [lines] more lines were logged. *)
Definition appendLog (lines : list string) (st : State) : State :=
  set_logged (logged st ++ lines) st.

(** A field the message builder leaves out: a map whose declared type is a
    map of arrays. *)
Definition skipped (f : Field.t) : bool :=
  bool_decide (Field.Kind f = FieldKind_MAP)
  && strings.Contains (Field.NativeType f) "map[string][]".

(** The label the builder gives a field. *)
Definition labelOf (f : Field.t) : FieldDescriptorProto_Label :=
  if bool_decide (Field.Kind f = FieldKind_ARRAY)
     || strings.Contains (Field.NativeType f) "map"
  then LABEL_REPEATED else LABEL_OPTIONAL.

(** The type name [setFieldDescriptorTypeName] leaves in a descriptor of type
    [ty] for field [f], given the registry [registry] of generated messages. *)
Definition typeNameOf (registry : gmap string string) (packageName : string)
    (f : Field.t) (ty : FieldDescriptorProto_Type) : option string :=
  if decide (ty = TYPE_ENUM) then Some (Field.NativeType f)
  else if decide (ty = TYPE_MESSAGE) then
    Some (default (packageName +:+ "." +:+ Field.NativeType f)
            (registry !! Field.NativeType f))
  else None.

(** The two fields of a map entry whose value type is [valueType]. *)
Definition keyField : FieldDescriptorProto.t :=
  FieldDescriptorProto.mk (Some "key") (Some 1) (Some LABEL_OPTIONAL)
    (Some TYPE_STRING) None None.
Definition valueField (valueType : string) (enumValues : option (list string))
  : FieldDescriptorProto.t :=
  FieldDescriptorProto.mk (Some "value") (Some 2) (Some LABEL_OPTIONAL)
    (getFieldDescriptorType valueType enumValues)
    (getTypeNameForMapValueType valueType) None.

(** The declaration positions (from 0) of the fields the builder keeps. *)
Fixpoint keptPositions (i : nat) (fields : list Field.t) : list nat :=
  match fields with
  | [] => []
  | f :: fields' =>
      if skipped f then keptPositions (S i) fields'
      else i :: keptPositions (S i) fields'
  end.


(** The entry message of the map field [f] whose value type is [valueType]. *)
Definition mapEntry (f : Field.t) (valueType : string) : DescriptorProto.t :=
  DescriptorProto.mk (Some (Field.FieldName f +:+ "Entry"))
    [keyField; valueField valueType (Field.EnumValues f)] [] []
    (Some (MessageOptions.mk (Some true))).

(** [fd] is the descriptor the builder makes of field [f] at declaration
    position [i] (from 0). *)
Definition describes (registry : gmap string string) (packageName : string)
    (i : nat) (f : Field.t) (fd : FieldDescriptorProto.t) : Prop :=
  FieldDescriptorProto.Name fd = Some (Field.FieldName f) ∧
  FieldDescriptorProto.Number fd = Some (int32 (int (Z.of_nat i + 1))) ∧
  FieldDescriptorProto.Label fd = Some (labelOf f) ∧
  FieldDescriptorProto.Type_ fd =
    getFieldDescriptorType (Field.NativeType f) (Field.EnumValues f) ∧
  FieldDescriptorProto.TypeName fd =
    (if decide (Field.Kind f = FieldKind_MAP)
     then Some (Field.FieldName f +:+ "Entry")
     else ty ← getFieldDescriptorType (Field.NativeType f) (Field.EnumValues f);
          typeNameOf registry packageName f ty) ∧
  FieldDescriptorProto.Extendee fd = None.

(** [d] with [msgs] appended to its message types. *)
Definition add_MessageTypes (msgs : list DescriptorProto.t)
    (d : FileDescriptorProto.t) : FileDescriptorProto.t :=
  FileDescriptorProto.mk (FileDescriptorProto.Name d)
    (FileDescriptorProto.Package d) (FileDescriptorProto.Dependency d)
    (FileDescriptorProto.MessageType d ++ msgs)
    (FileDescriptorProto.Service d) (FileDescriptorProto.Extension d)
    (FileDescriptorProto.Syntax d).

(** [msg] is the message the builder makes of the surface-model type [t]:
    it is named after the type, holds one descriptor per kept field, in
    declaration order, and one entry message per kept map. *)
Definition builtFrom (packageName : string) (t : SType.t)
    (msg : DescriptorProto.t) : Prop :=
  DescriptorProto.Name msg = Some (SType.TypeName t) ∧
  ∃ registry,
    Forall2 (λ k fd, ∃ f, SType.Fields t !! k = Some f ∧
                          describes registry packageName k f fd)
      (keptPositions 0 (SType.Fields t)) (DescriptorProto.Field msg) ∧
    (∀ k f, SType.Fields t !! k = Some f → Field.Kind f = FieldKind_MAP →
            skipped f = false →
            ∃ v, slice_from (Field.NativeType f) 11 = Ok v ∧
                 mapEntry f v ∈ DescriptorProto.NestedType msg).

(** The target file of a finished run: the file behind the last pointer of
    the returned set. *)
Definition targetFile
    (r : outcome ((FileDescriptorSet.t * Renderer.t) * State))
  : option FileDescriptorProto.t :=
  match r with
  | Ok ((fdSet, _), st) => p ← last (FileDescriptorSet.File fdSet); heap st !! p
  | _ => None
  end.

(** The entry message of a map of int32 values, written out. *)
Definition int32Entry (fieldName : string) : DescriptorProto.t :=
  DescriptorProto.mk (Some (fieldName +:+ "Entry"))
    [ FieldDescriptorProto.mk (Some "key") (Some 1) (Some LABEL_OPTIONAL)
        (Some TYPE_STRING) None None;
      FieldDescriptorProto.mk (Some "value") (Some 2) (Some LABEL_OPTIONAL)
        (Some TYPE_INT32) None None ]
    [] [] (Some (MessageOptions.mk (Some true))).

(** The names the loop of [findValidServiceName] tries, in order: the
    canonical name, then with the suffix [Service], then with the suffix and
    the counter 1, 2, ... *)
Definition candidate (serviceName : string) (n : nat) : string :=
  match n with
  | O => serviceName
  | S O => serviceName +:+ "Service"
  | S (S _ as ctr) => (serviceName +:+ "Service") +:+ Itoa (Z.of_nat ctr)
  end.

(** The names of a list of messages. *)
Definition messageNames (messages : list DescriptorProto.t)
  : list (option string) :=
  DescriptorProto.Name <$> messages.

(** What [buildMethod] does with a type name, and the method and the method
    descriptor it returns. *)
Definition orEmpty (typeName : string) : string :=
  if decide (typeName = EmptyString) then "google.protobuf.Empty" else typeName.
Definition needsEmpty (method : Method.t) : bool :=
  bool_decide (Method.ParametersTypeName method = EmptyString)
  || bool_decide (Method.ResponsesTypeName method = EmptyString).
Definition substituted (method : Method.t) : Method.t :=
  Method.mk (Method.Path method) (Method.Method method)
    (Method.HandlerName method) (orEmpty (Method.ParametersTypeName method))
    (orEmpty (Method.ResponsesTypeName method)).
Definition methodDescriptor (types : list SType.t) (method : Method.t)
  : MethodDescriptorProto.t :=
  MethodDescriptorProto.mk (Some (Method.HandlerName method))
    (Some (orEmpty (Method.ParametersTypeName method)))
    (Some (orEmpty (Method.ResponsesTypeName method)))
    (Some (MethodOptions.mk
             (Some (getHttpRuleForMethod method
                      (getRequestBodyForRequestParameters
                         (Method.ParametersTypeName method) types))))).

(** The state once [shouldRenderEmptyImport] was set if [b]. *)
Definition markEmpty (b : bool) (st : State) : State :=
  if b then set_shouldRenderEmptyImport true st else st.

(** A URL without its fragment: what stands before the first '#'. *)
Fixpoint fragmentless (url : string) : string :=
  match url with
  | EmptyString => EmptyString
  | String c url' =>
      if decide (c = "#"%char) then EmptyString
      else String c (fragmentless url')
  end.

(** The elements of a list in the order of their first occurrence. *)
Fixpoint firstSeen (l : list string) : list string :=
  match l with
  | [] => []
  | x :: l' => x :: filter (λ y, y ≠ x) (firstSeen l')
  end.

(** The package name of the run for a symbolic reference, and the name of the
    file that run produces. *)
Definition referencePackage (ref : string) : string :=
  strings.TrimSuffix (path.Base ref) (path.Ext (path.Base ref)).
Definition referenceFile (ref : string) : string :=
  referencePackage ref +:+ ".proto".

(** The pointer [a] leads to a file named [n]. *)
Definition named (st : State) (a : ptr) (n : string) : Prop :=
  ∃ d, heap st !! a = Some d ∧ FileDescriptorProto.Name d = Some n.

(** A reference is marked once it is a key of [generatedSymbolicReferences]. *)
Definition marked (st : State) (ref : string) : Prop :=
  is_Some (generatedSymbolicReferences st !! ref).

(** The names [addDependencies] keeps of the names of the other files: all
    of them, but the empty-type file only if [flag]. *)
Definition dependencyNames (flag : bool) (names : list string) : list string :=
  filter (λ n, n ≠ "google/protobuf/empty.proto" ∨ flag = true) names.

(** The file [buildDependencies] makes of the descriptor of http.proto. *)
Definition annotationsFileDescriptor `{Env} : FileDescriptorProto.t :=
  FileDescriptorProto.mk (Some "google/api/annotations.proto")
    (Some "google.api") ["google/protobuf/descriptor.proto"]
    (embeddedMessages "google/api/http.proto") []
    [FieldDescriptorProto.mk (Some "http") (Some E_Http_Field)
       (Some LABEL_OPTIONAL) (Some TYPE_MESSAGE) (Some "google.api.HttpRule")
       (Some ".google.protobuf.MethodOptions")]
    (Some "proto3").

(** The file a run creates for its own document. *)
Definition mainFileDescriptor (packageName : string) : FileDescriptorProto.t :=
  FileDescriptorProto.mk (Some (packageName +:+ ".proto")) (Some packageName)
    [] [] [] [] (Some "proto3").

(** The names of the three foundation files, in the order
    [buildDependencies] puts them in the set. *)
Definition foundationNames : list string :=
  ["google/api/annotations.proto"; "google/protobuf/empty.proto";
   "google/protobuf/descriptor.proto"].

(** What the loop of [buildSymbolicReferences] has done when it returns
    normally from [st] to [st'], having started with the references [refs],
    the renderer [renderer] and the pointers [syms0]:
    - [resolved] are the references it resolved, in the order of [refs];
      each gave one nested set ([sets]) and one pointer ([syms]), the last
      file of that set, named after the reference;
    - the store only grew, and the new pointers are fresh;
    - [calls] are the runs of the [gnostic] subprocess in between, those of
      nested runs included: no reference twice, none that was marked in
      [st]; the marked references of [st'] are those of [st] and [calls]. *)
Definition LoopPost (refs : list string) (st : State) (renderer : Renderer.t)
    (syms0 : list ptr) (renderer' : Renderer.t) (syms' : list ptr)
    (st' : State) : Prop :=
  ∃ resolved sets syms new calls,
    syms' = syms0 ++ syms ∧
    renderer' = Renderer.mk (Renderer.Model renderer)
                  (Renderer.Package renderer)
                  (Renderer.SymbolicFdSets renderer ++ sets) ∧
    heap st' = heap st ++ new ∧
    Forall (λ a, length (heap st) ≤ a < length (heap st'))%nat syms ∧
    resolved `sublist_of` refs ∧
    Forall3 (λ r set sym,
               last (FileDescriptorSet.File set) = Some sym ∧
               named st' sym (referenceFile r))
      resolved sets syms ∧
    gnosticCalls st' = gnosticCalls st ++ calls ∧
    NoDup calls ∧
    (∀ c, c ∈ calls → ¬ marked st c) ∧
    (∀ r, marked st' r ↔ marked st r ∨ r ∈ calls) ∧
    (∀ r, r ∈ refs → marked st' r) ∧
    (∀ r, r ∈ resolved → r ∈ calls).

(** What a run has done when it returns normally from [st] to [st'] with the
    set [fdSet]: [p], the first free address of [st], holds the file of the
    current document; the set lists the files of the references the run
    resolved itself ([resolved], in the order of the model), the three
    foundation files and [p], in this order; the dependencies of [p] are the
    sorted names of the other files, the empty-type file left out unless
    [shouldRenderEmptyImport] is set. The store only grew. [calls] is as in
    [LoopPost]. *)
Definition RunPost (st : State) (renderer : Renderer.t)
    (fdSet : FileDescriptorSet.t) (renderer' : Renderer.t) (st' : State)
  : Prop :=
  ∃ resolved sets syms new calls d,
    FileDescriptorSet.File fdSet =
      syms ++ [S (length (heap st)); S (S (length (heap st)));
               S (S (S (length (heap st)))); length (heap st)] ∧
    Forall (λ a, S (S (S (length (heap st)))) < a < length (heap st'))%nat
      syms ∧
    heap st' = heap st ++ new ∧
    heap st' !! length (heap st) = Some d ∧
    FileDescriptorProto.Name d = Some (Renderer.Package renderer +:+ ".proto") ∧
    FileDescriptorProto.Package d = Some (Renderer.Package renderer) ∧
    FileDescriptorProto.Dependency d =
      sort_Strings
        (dependencyNames (shouldRenderEmptyImport st')
           ((referenceFile <$> resolved) ++ foundationNames)) ∧
    Forall2 (named st')
      [S (length (heap st)); S (S (length (heap st)));
       S (S (S (length (heap st))))] foundationNames ∧
    resolved `sublist_of`
      firstSeen (fragmentless
                   <$> Model.SymbolicReferences (Renderer.Model renderer)) ∧
    Forall3 (λ r set sym,
               last (FileDescriptorSet.File set) = Some sym ∧
               named st' sym (referenceFile r))
      resolved sets syms ∧
    Renderer.SymbolicFdSets renderer' = Renderer.SymbolicFdSets renderer ++ sets ∧
    Renderer.Package renderer' = Renderer.Package renderer ∧
    gnosticCalls st' = gnosticCalls st ++ calls ∧
    NoDup calls ∧
    (∀ c, c ∈ calls → ¬ marked st c) ∧
    (∀ r, marked st' r ↔ marked st r ∨ r ∈ calls) ∧
    (∀ r, r ∈ fragmentless
              <$> Model.SymbolicReferences (Renderer.Model renderer) →
          marked st' r) ∧
    (∀ r, r ∈ resolved → r ∈ calls).

(** The file behind the [i]-th pointer of the set a finished run returned. *)
Definition fileAt (r : outcome ((FileDescriptorSet.t * Renderer.t) * State))
    (i : nat) : option FileDescriptorProto.t :=
  match r with
  | Ok ((fdSet, _), st) => p ← FileDescriptorSet.File fdSet !! i; heap st !! p
  | _ => None
  end.

(** The references resolved so far are exactly the marked ones, and none was
    resolved twice. This holds when the program starts and every run keeps
    it. *)
Definition ResolvedOnce (st : State) : Prop :=
  NoDup (gnosticCalls st) ∧ ∀ r, marked st r ↔ r ∈ gnosticCalls st.


(** The service [buildServiceFromMethods] makes of the methods of a model. *)
Definition serviceOf `{Env} (model : Model.t) (serviceName : string)
  : ServiceDescriptorProto.t :=
  ServiceDescriptorProto.mk (Some serviceName)
    (methodDescriptor (Model.Types model) <$> Model.Methods model).

(** A field whose map entry can be built: if it is a map that the builder
    keeps, its declared type has the 11 bytes that the builder drops. *)
Definition sliceable (f : Field.t) : Prop :=
  Field.Kind f = FieldKind_MAP → skipped f = false →
  (11 ≤ String.length (Field.NativeType f))%nat.

(** ** Vocabulary of the statements about the parts of the builders *)

(** The result of a computation, without the state it leaves. *)
Definition valueOf {A} (r : outcome (A * State)) : outcome A :=
  match r with
  | Ok (a, _) => Ok a
  | Err e => Err e
  | Panic => Panic
  | OutOfFuel => OutOfFuel
  end.

(** The entry message a field gives, if it is a map that the builder keeps,
    and the enum a field gives, if it has enum values. *)
Definition entryOf (f : Field.t) : option DescriptorProto.t :=
  if decide (Field.Kind f = FieldKind_MAP) then
    if strings.Contains (Field.NativeType f) "map[string][]" then None
    else match slice_from (Field.NativeType f) 11 with
         | Ok v => Some (mapEntry f v)
         | _ => None
         end
  else None.
Definition enumOf `{Env} (f : Field.t) : option EnumDescriptorProto.t :=
  match Field.EnumValues f with
  | Some _ => Some (buildEnumDescriptorProto f)
  | None => None
  end.

(** A field descriptor has a type, and a type name exactly when that type is
    a message or an enum. *)
Definition typed (fd : FieldDescriptorProto.t) : Prop :=
  ∃ ty, FieldDescriptorProto.Type_ fd = Some ty ∧
        (is_Some (FieldDescriptorProto.TypeName fd) ↔
         ty = TYPE_MESSAGE ∨ ty = TYPE_ENUM).

(** The registry of generated messages once the types of a package were
    registered, in their order. *)
Definition registered (packageName : string) (types : list SType.t)
    (registry : gmap string string) : gmap string string :=
  foldl (λ g t, <[SType.TypeName t :=
                    packageName +:+ "." +:+ SType.TypeName t]> g)
    registry types.


(** The name of the first field of a type that is in the body of the
    request. *)
Definition bodyOf (t : SType.t) : option string :=
  Field.FieldName
    <$> head (filter (λ f, Field.Position f = Position_BODY) (SType.Fields t)).

(** ** Vocabulary of the statement about termination *)

(** How many of the references [refs] are not yet marked in [st]. *)
Definition unresolved (refs : list string) (st : State) : nat :=
  length (filter (λ r, generatedSymbolicReferences st !! r = None) refs).

(** A model whose references, without their fragments, are among [refs] and
    that has at most [bound] types. *)
Definition closedModel (refs : list string) (bound : nat) (model : Model.t)
  : Prop :=
  Forall (λ url, fragmentless url ∈ refs) (Model.SymbolicReferences model) ∧
  (length (Model.Types model) ≤ bound)%nat.

(** * Properties *)

(** ** Reasoning about computations *)

Lemma bind_Ok {A B} (m : M A) (f : A → M B) st r :
  (m ≫= f) st = Ok r ↔ ∃ a st1, m st = Ok (a, st1) ∧ f a st1 = Ok r.
Proof.
  unfold mbind, M_bind. split.
  - destruct (m st) as [[a st1]| | |]; try discriminate. eauto.
  - intros (a & st1 & -> & Hf). done.
Qed.

Lemma bind_outcome_Ok {A B} (m : outcome A) (f : A → outcome B) r :
  (m ≫= f) = Ok r ↔ ∃ a, m = Ok a ∧ f a = Ok r.
Proof.
  unfold mbind, outcome_bind. split.
  - destruct m; try discriminate. eauto.
  - intros (a & -> & Hf). done.
Qed.

Lemma lift_Ok {A} (o : outcome A) st r :
  lift o st = Ok r ↔ ∃ a, o = Ok a ∧ r = (a, st).
Proof.
  unfold lift. split.
  - destruct o; try discriminate. intros [= <-]. eauto.
  - intros (a & -> & ->). done.
Qed.

Lemma ret_Ok {A} (a : A) st r : mret (M := M) a st = Ok r ↔ r = (a, st).
Proof. unfold mret, M_ret. split; [by intros [= <-] | by intros ->]. Qed.

(** ** Strings *)

Lemma slice_from_Ok s n v :
  slice_from s n = Ok v ↔
  ∃ p, s = p +:+ v ∧ String.length p = n.
Proof.
  revert s. induction n as [|n IH]; intros s; simpl.
  - split.
    + intros [= ->]. by exists EmptyString.
    + intros (p & -> & Hp). destruct p; [done | discriminate].
  - destruct s as [|c s].
    + split; [discriminate |].
      intros (p & Hs & Hp). destruct p; discriminate.
    + rewrite IH. split.
      * intros (p & -> & <-). by exists (String c p).
      * intros (p & Hs & Hp). destruct p as [|c' p]; [discriminate |].
        injection Hs as -> ->. injection Hp as Hp. by exists p.
Qed.

Lemma slice_from_Panic s n :
  slice_from s n = Panic ↔ (String.length s < n)%nat.
Proof.
  revert s. induction n as [|n IH]; intros s; simpl.
  - split; [discriminate | lia].
  - destruct s as [|c s]; simpl.
    + split; [lia | done].
    + rewrite IH. lia.
Qed.

Lemma slice_from_total s n :
  (n ≤ String.length s)%nat → ∃ v, slice_from s n = Ok v.
Proof.
  revert s. induction n as [|n IH]; intros s Hn; simpl; [eauto |].
  destruct s as [|c s]; simpl in *; [lia |]. apply IH. lia.
Qed.

(** ** Message Builder *)

Lemma appendLog_nil st : appendLog [] st = st.
Proof. destruct st. unfold appendLog, set_logged. simpl. by rewrite app_nil_r. Qed.

Lemma appendLog_app l1 l2 st :
  appendLog l2 (appendLog l1 st) = appendLog (l1 ++ l2) st.
Proof. destruct st. unfold appendLog, set_logged. simpl. by rewrite app_assoc. Qed.

Lemma getFieldDescriptorType_Some nativeType enumValues :
  ∃ ty, getFieldDescriptorType nativeType enumValues = Some ty.
Proof.
  unfold getFieldDescriptorType.
  destruct (protoBufScalarTypes !! nativeType); [eauto |].
  destruct enumValues; eauto.
Qed.

Section MessageBuilder.
Context `{Env}.

Lemma validatePathParameter_log f st :
∃ lines, validatePathParameter f st = Ok (tt, appendLog lines st).
Proof.
unfold validatePathParameter. case_decide.
- eexists [_]. reflexivity.
- exists []. by rewrite appendLog_nil.
Qed.

Lemma validateQueryParameter_log f st :
∃ lines, validateQueryParameter f st = Ok (tt, appendLog lines st).
Proof.
unfold validateQueryParameter.
destruct (negb _).
- eexists [_]. reflexivity.
- exists []. by rewrite appendLog_nil.
Qed.

Lemma validateRequestParameter_log t f st :
∃ lines, validateRequestParameter t f st = Ok (tt, appendLog lines st).
Proof.
unfold validateRequestParameter.
destruct (isRequestParameter t).
- assert (∃ l1, (if decide (Field.Position f = Position_PATH)
                 then validatePathParameter f else mret tt) st
                = Ok (tt, appendLog l1 st)) as [l1 H1].
  { destruct (decide (Field.Position f = Position_PATH));
      [apply validatePathParameter_log |].
    exists []. by rewrite appendLog_nil. }
  assert (∃ l2, (if decide (Field.Position f = Position_QUERY)
                 then validateQueryParameter f else mret tt) (appendLog l1 st)
                = Ok (tt, appendLog l2 (appendLog l1 st))) as [l2 H2].
  { destruct (decide (Field.Position f = Position_QUERY));
      [apply validateQueryParameter_log |].
    exists []. by rewrite appendLog_nil. }
  exists (l1 ++ l2). unfold mbind, M_bind. rewrite H1, H2.
  by rewrite appendLog_app.
- exists []. by rewrite appendLog_nil.
Qed.

Lemma setFieldDescriptorTypeName_eq fd f packageName st ty :
FieldDescriptorProto.Type_ fd = Some ty →
FieldDescriptorProto.TypeName fd = None →
setFieldDescriptorTypeName fd f packageName st =
Ok (set_TypeName (typeNameOf (generatedMessages st) packageName f ty) fd, st).
Proof.
intros Hty Hn. destruct fd as [n nu l t tn e]. simpl in *. subst.
unfold setFieldDescriptorTypeName, typeNameOf, set_TypeName.
unfold mbind, M_bind, lift, deref, get, mret, M_ret. simpl.
destruct ty; simpl; try reflexivity.
Qed.

(** What one iteration of the loop over the fields does to the message. *)
Lemma buildField_cases t packageName i f message st :
∃ lines ty,
  getFieldDescriptorType (Field.NativeType f) (Field.EnumValues f) = Some ty ∧
  let st1 := appendLog lines st in
  let message1 :=
    match Field.EnumValues f with
    | Some _ => add_EnumType (buildEnumDescriptorProto f) message
    | None => message
    end in
  let fd typeName :=
    FieldDescriptorProto.mk (Some (Field.FieldName f))
      (Some (int32 (int (Z.of_nat i + 1)))) (Some (labelOf f)) (Some ty)
      typeName None in
  buildField t packageName i f message st =
  if decide (Field.Kind f = FieldKind_MAP) then
    if strings.Contains (Field.NativeType f) "map[string][]" then
      Ok (message1, st1)
    else
      match buildMapDescriptorProto f with
      | Ok entry =>
          Ok (add_Field (fd (DescriptorProto.Name entry))
                (add_NestedType entry message1), st1)
      | Err e => Err e
      | Panic => Panic
      | OutOfFuel => OutOfFuel
      end
  else
    Ok (add_Field
          (fd (typeNameOf (generatedMessages st) packageName f ty))
          message1, st1).
Proof.
destruct (validateRequestParameter_log t f st) as [lines Hv].
destruct (getFieldDescriptorType_Some (Field.NativeType f) (Field.EnumValues f))
  as [ty Hty].
exists lines, ty. split; [done |]. intros st1 message1 fd.
unfold buildField. unfold mbind at 1. unfold M_bind at 1. rewrite Hv.
unfold mbind at 1. unfold M_bind at 1.
erewrite setFieldDescriptorTypeName_eq; [| simpl; exact Hty | reflexivity].
assert (generatedMessages (appendLog lines st) = generatedMessages st) as ->
  by by destruct st.
fold st1. fold message1.
unfold setFieldDescriptorLabel, set_TypeName. simpl. fold (labelOf f).
rewrite Hty.
destruct (decide (Field.Kind f = FieldKind_MAP)); [| done].
destruct (strings.Contains (Field.NativeType f) "map[string][]"); [done |].
unfold mbind, M_bind, lift.
by destruct (buildMapDescriptorProto f).
Qed.

End MessageBuilder.

Lemma buildKeyValueFields_eq field :
  buildKeyValueFields field =
  valueType ← slice_from (Field.NativeType field) 11;
  Ok [keyField; valueField valueType (Field.EnumValues field)].
Proof. reflexivity. Qed.

Lemma buildMapDescriptorProto_eq field :
  buildMapDescriptorProto field =
  valueType ← slice_from (Field.NativeType field) 11;
  Ok (mapEntry field valueType).
Proof.
  unfold buildMapDescriptorProto. rewrite buildKeyValueFields_eq.
  by destruct (slice_from _ _).
Qed.

Lemma buildMapDescriptorProto_Panic field :
  buildMapDescriptorProto field = Panic ↔
  (String.length (Field.NativeType field) < 11)%nat.
Proof.
  rewrite buildMapDescriptorProto_eq, <- slice_from_Panic.
  by destruct (slice_from _ _).
Qed.

Lemma Forall2_impl_elem_of {A B} (P Q : A → B → Prop) l k :
  Forall2 P l k → (∀ x y, x ∈ l → P x y → Q x y) → Forall2 Q l k.
Proof.
  induction 1 as [|x y l k HP _ IH]; intros HQ; constructor.
  - apply HQ; [apply list_elem_of_here | done].
  - apply IH. intros x' y' Hin. apply HQ. by apply list_elem_of_further.
Qed.

Section MessageLoop.
Context `{Env}.

(** The effect of one iteration that returns normally. *)
Lemma buildField_Ok t packageName i f message st message' st' :
buildField t packageName i f message st = Ok (message', st') →
∃ lines,
  st' = appendLog lines st ∧
  DescriptorProto.Name message' = DescriptorProto.Name message ∧
  ((skipped f = true ∧
    DescriptorProto.Field message' = DescriptorProto.Field message ∧
    DescriptorProto.NestedType message' = DescriptorProto.NestedType message)
   ∨
   (skipped f = false ∧
    ∃ fd,
      DescriptorProto.Field message' = DescriptorProto.Field message ++ [fd] ∧
      describes (generatedMessages st) packageName i f fd ∧
      ((Field.Kind f = FieldKind_MAP ∧
        ∃ v, slice_from (Field.NativeType f) 11 = Ok v ∧
             DescriptorProto.NestedType message' =
             DescriptorProto.NestedType message ++ [mapEntry f v])
       ∨
       (Field.Kind f ≠ FieldKind_MAP ∧
        DescriptorProto.NestedType message' =
        DescriptorProto.NestedType message)))).
Proof.
destruct (buildField_cases t packageName i f message st)
  as (lines & ty & Hty & Heq).
simpl in Heq. rewrite Heq. clear Heq. intros Hok. exists lines.
assert (∀ m, DescriptorProto.Name
    match Field.EnumValues f with
    | Some _ => add_EnumType (buildEnumDescriptorProto f) m
    | None => m
    end = DescriptorProto.Name m) as Hname by (intros; by destruct (Field.EnumValues f)).
assert (∀ m, DescriptorProto.Field
    match Field.EnumValues f with
    | Some _ => add_EnumType (buildEnumDescriptorProto f) m
    | None => m
    end = DescriptorProto.Field m) as Hfield by (intros; by destruct (Field.EnumValues f)).
assert (∀ m, DescriptorProto.NestedType
    match Field.EnumValues f with
    | Some _ => add_EnumType (buildEnumDescriptorProto f) m
    | None => m
    end = DescriptorProto.NestedType m) as Hnested by (intros; by destruct (Field.EnumValues f)).
unfold skipped, describes.
destruct (decide (Field.Kind f = FieldKind_MAP)) as [Hk|Hk].
- rewrite bool_decide_eq_true_2 by done. simpl.
  destruct (strings.Contains (Field.NativeType f) "map[string][]").
  + injection Hok as <- <-. rewrite Hname, Hfield, Hnested.
    split; [done |]. split; [done |]. left. done.
  + rewrite buildMapDescriptorProto_eq in Hok.
    destruct (slice_from (Field.NativeType f) 11) as [v| | |] eqn:Hs;
      simpl in Hok; try discriminate.
    injection Hok as <- <-. simpl. rewrite Hname, Hfield, Hnested.
    split; [done |]. split; [done |]. right. split; [done |].
    eexists. split; [done |]. simpl. rewrite Hty.
    split; [repeat split; done |]. left. eauto.
- rewrite bool_decide_eq_false_2 by done. simpl.
  injection Hok as <- <-. simpl. rewrite Hname, Hfield, Hnested.
  split; [done |]. split; [done |]. right. split; [done |].
  eexists. split; [done |]. simpl. rewrite Hty. simpl.
  split; [repeat split; done |]. right. done.
Qed.

Lemma keptPositions_lookup i fields k :
k ∈ keptPositions i fields →
∃ f, fields !! (k - i)%nat = Some f ∧ skipped f = false ∧ (i ≤ k)%nat.
Proof.
revert i. induction fields as [|f fields IH]; intros i; simpl.
- by intros ?%elem_of_nil.
- destruct (skipped f) eqn:Hs.
  + intros (f' & Hf & Hs' & Hle)%IH.
    exists f'. replace (k - i)%nat with (S (k - S i)) by lia. auto with lia.
  + intros [->|(f' & Hf & Hs' & Hle)%IH]%elem_of_cons.
    * exists f. rewrite Nat.sub_diag. auto.
    * exists f'. replace (k - i)%nat with (S (k - S i)) by lia. auto with lia.
Qed.

(** The loop over the fields, when it returns normally: it appends, in
  declaration order, one descriptor per kept field and one entry message
  per kept map. *)
Lemma buildFields_Ok t packageName fields : ∀ i message st message' st',
buildFields t packageName i fields message st = Ok (message', st') →
∃ lines fds nested,
  st' = appendLog lines st ∧
  DescriptorProto.Name message' = DescriptorProto.Name message ∧
  DescriptorProto.Field message' = DescriptorProto.Field message ++ fds ∧
  DescriptorProto.NestedType message' =
    DescriptorProto.NestedType message ++ nested ∧
  Forall2 (λ k fd, ∃ f, fields !! (k - i)%nat = Some f ∧
                        describes (generatedMessages st) packageName k f fd)
    (keptPositions i fields) fds ∧
  (∀ k f, fields !! k = Some f → Field.Kind f = FieldKind_MAP →
          skipped f = false →
          ∃ v, slice_from (Field.NativeType f) 11 = Ok v ∧
               mapEntry f v ∈ nested).
Proof.
induction fields as [|f fields IH]; intros i message st message' st' Hok.
- injection Hok as <- <-. exists [], [], [].
  rewrite appendLog_nil, !app_nil_r. split_and!; auto.
  intros k f Hk. by rewrite lookup_nil in Hk.
- simpl in Hok. apply bind_Ok in Hok as (m1 & st1 & Hf & Hrest).
  apply buildField_Ok in Hf as (l1 & -> & Hn1 & Hcase).
  apply IH in Hrest
    as (l2 & fds & nested & -> & Hn2 & Hf2 & Hnest2 & Hall & Hmaps).
  assert (generatedMessages (appendLog l1 st) = generatedMessages st) as Hreg
    by by destruct st.
  rewrite Hreg in Hall.
  assert (Forall2
    (λ k fd, ∃ f0, (f :: fields) !! (k - i)%nat = Some f0 ∧
                   describes (generatedMessages st) packageName k f0 fd)
    (keptPositions (S i) fields) fds) as Hall'.
  { eapply Forall2_impl_elem_of; [exact Hall |].
    intros k fd Hin (f0 & Hlk & Hd).
    apply keptPositions_lookup in Hin as (_ & _ & _ & Hle).
    exists f0. replace (k - i)%nat with (S (k - S i)) by lia. done. }
  destruct Hcase as [(Hs & Hf1 & Hnest1)|(Hs & fd & Hf1 & Hd & Hcase)].
  + exists (l1 ++ l2), fds, nested. simpl. rewrite Hs.
    rewrite appendLog_app, Hn2, Hn1, Hf2, Hf1, Hnest2, Hnest1.
    split_and!; auto.
    intros [|k] f0 Hk Hmap Hns; simpl in Hk.
    * injection Hk as <-. congruence.
    * eauto.
  + simpl. rewrite Hs.
    destruct Hcase as [(Hmap & v & Hv & Hnest1)|(Hnm & Hnest1)].
    * exists (l1 ++ l2), (fd :: fds), (mapEntry f v :: nested).
      rewrite appendLog_app, Hn2, Hn1, Hf2, Hf1, Hnest2, Hnest1.
      rewrite <- !app_assoc. simpl. split_and!; auto.
      -- constructor; [| done]. exists f. by rewrite Nat.sub_diag.
      -- intros [|k] f0 Hk Hmap0 Hns; simpl in Hk.
         ++ injection Hk as <-. exists v. split; [done | apply list_elem_of_here].
         ++ destruct (Hmaps k f0) as (v0 & ? & ?); auto.
            exists v0. split; [done | by apply list_elem_of_further].
    * exists (l1 ++ l2), (fd :: fds), nested.
      rewrite appendLog_app, Hn2, Hn1, Hf2, Hf1, Hnest2, Hnest1.
      rewrite <- !app_assoc. simpl. split_and!; auto.
      -- constructor; [| done]. exists f. by rewrite Nat.sub_diag.
      -- intros [|k] f0 Hk Hmap0 Hns; simpl in Hk.
         ++ injection Hk as <-. congruence.
         ++ eauto.
Qed.

End MessageLoop.

(** ** The store *)

Lemma load_Ok p st r :
  load p st = Ok r ↔ ∃ d, heap st !! p = Some d ∧ r = (d, st).
Proof.
  unfold load. destruct (heap st !! p); split.
  - intros [= <-]. eauto.
  - by intros (d & [= <-] & ->).
  - discriminate.
  - by intros (d & ? & _).
Qed.

Lemma store_Ok p d st r :
  store p d st = Ok r ↔
  is_Some (heap st !! p) ∧ r = (tt, set_heap (<[p := d]> (heap st)) st).
Proof.
  unfold store. destruct (heap st !! p); split.
  - intros [= <-]. eauto.
  - by intros (_ & ->).
  - discriminate.
  - by intros ([? ?] & _).
Qed.

Lemma modify_Ok f st r : modify f st = Ok r ↔ r = (tt, f st).
Proof. unfold modify. split; [by intros [= <-] | by intros ->]. Qed.

Lemma get_Ok st r : get st = Ok r ↔ r = (st, st).
Proof. unfold get. split; [by intros [= <-] | by intros ->]. Qed.

Lemma alloc_Ok fd st r :
  alloc fd st = Ok r ↔ r = (length (heap st), set_heap (heap st ++ [fd]) st).
Proof. unfold alloc. split; [by intros [= <-] | by intros ->]. Qed.

Lemma add_MessageTypes_nil d : add_MessageTypes [] d = d.
Proof. destruct d. unfold add_MessageTypes. simpl. by rewrite app_nil_r. Qed.

Lemma add_MessageTypes_cons m msgs d :
  add_MessageTypes msgs (add_MessageType m d) = add_MessageTypes (m :: msgs) d.
Proof.
  destruct d. unfold add_MessageTypes, add_MessageType. simpl.
  by rewrite <- app_assoc.
Qed.

(** ** Numbers *)

Lemma int_small z : - 2 ^ 63 ≤ z < 2 ^ 63 → int z = z.
Proof. intros Hz. unfold int. rewrite Z.mod_small; lia. Qed.

Lemma int32_small z : - 2 ^ 31 ≤ z < 2 ^ 31 → int32 z = z.
Proof. intros Hz. unfold int32. rewrite Z.mod_small; lia. Qed.


Lemma keptPositions_elem i fields k f :
  fields !! k = Some f → skipped f = false →
  (i + k)%nat ∈ keptPositions i fields.
Proof.
  revert i k. induction fields as [|f0 fields IH]; intros i [|k] Hk Hs;
    simpl in *; try discriminate.
  - injection Hk as ->. rewrite Hs, Nat.add_0_r. apply list_elem_of_here.
  - replace (i + S k)%nat with (S i + k)%nat by lia.
    destruct (skipped f0); [| apply list_elem_of_further]; by apply IH.
Qed.


Section Messages.
Context `{Env}.

(** The message of one type, when the builder returns normally. *)
Lemma buildMessage_Ok t packageName st message st' :
buildMessage t packageName st = Ok (message, st') →
builtFrom packageName t message ∧ ∃ lines, st' = appendLog lines st.
Proof.
unfold buildMessage. intros Hok.
apply buildFields_Ok in Hok
  as (lines & fds & nested & -> & Hn & Hf & Hnest & Hall & Hmaps).
simpl in *. subst. split; [| eauto].
split; [done |]. exists (generatedMessages st). split; [| done].
eapply Forall2_impl; [exact Hall |].
intros k fd (f & Hk & Hd). exists f. by rewrite Nat.sub_0_r in Hk.
Qed.

(** The loop over the types, when it returns normally: the built messages
  are appended to the file behind [descr], and nothing else changes in the
  store. *)
Lemma buildMessages_Ok descr packageName types : ∀ st st',
buildMessages descr packageName types st = Ok (tt, st') →
∃ msgs,
  Forall2 (builtFrom packageName) types msgs ∧
  (∀ d, heap st !! descr = Some d →
        heap st' = <[descr := add_MessageTypes msgs d]> (heap st)) ∧
  (heap st !! descr = None → heap st' = heap st) ∧
  generatedSymbolicReferences st' = generatedSymbolicReferences st ∧
  shouldRenderEmptyImport st' = shouldRenderEmptyImport st ∧
  gnosticCalls st' = gnosticCalls st.
Proof.
induction types as [|t types IH]; intros st st' Hok.
- injection Hok as <-. exists []. split_and!; auto.
  intros d Hd. by rewrite add_MessageTypes_nil, list_insert_id.
- simpl in Hok.
  apply bind_Ok in Hok as (message & st1 & Hmsg & Hok).
  apply buildMessage_Ok in Hmsg as [Hbuilt [lines ->]].
  apply bind_Ok in Hok as (d & st2 & Hload & Hok).
  apply load_Ok in Hload as (d' & Hd & [= -> ->]).
  apply bind_Ok in Hok as ([] & st3 & Hstore & Hok).
  apply store_Ok in Hstore as (_ & [= ->]).
  apply bind_Ok in Hok as (name & st4 & Hname & Hok).
  apply lift_Ok in Hname as (name' & Hname & [= -> ->]).
  apply bind_Ok in Hok as ([] & st5 & Hmod & Hok).
  apply modify_Ok in Hmod as [= ->].
  apply IH in Hok as (msgs & Hall & Hheap & _ & Hg & Hf & Hc).
  destruct st as [h g gm fl calls lg]. simpl in *.
  exists (message :: msgs). split_and!; auto.
  + intros d0 Hd0. rewrite Hd0 in Hd. injection Hd as <-.
    rewrite (Hheap (add_MessageType message d0)).
    * by rewrite list_insert_insert_eq, add_MessageTypes_cons.
    * apply list_lookup_insert_eq. by eapply lookup_lt_Some.
  + intros Hnone. congruence.
Qed.

End Messages.


Section FieldNumbers.
Context `{Env}.




End FieldNumbers.



(** ** Labels and map entries *)




(** C7, the code at the failing input. [plan] is a REFERENCE to the message
    type [Roadmap]: neither an array nor a map. The descriptor built for it
    in the message of [Project] is labeled REPEATED, because the name of the
    referenced type contains "map". *)
Theorem C7_reference_to_Roadmap_is_labeled_repeated :
  Field.Kind Example.planField = FieldKind_REFERENCE ∧
  Field.NativeType Example.planField = "Roadmap" ∧
  FieldDescriptorProto.Label
    (setFieldDescriptorLabel FieldDescriptorProto.zero Example.planField)
    = Some LABEL_REPEATED ∧
  (λ d, (λ m, (DescriptorProto.Name m,
               (λ fd, (FieldDescriptorProto.Name fd,
                       FieldDescriptorProto.Label fd))
                 <$> DescriptorProto.Field m))
          <$> FileDescriptorProto.MessageType d) <$>
    targetFile
      (runFileDescriptorSetGenerator (H := Example.env) 2
         (Example.renderer "plans"
            (Model.mk [Example.Roadmap; Example.Project] [] []))
         initialState)
  = Some [ (Some "Roadmap", [(Some "title", Some LABEL_OPTIONAL)]);
           (Some "Project", [(Some "id", Some LABEL_OPTIONAL);
                             (Some "plan", Some LABEL_REPEATED)]) ].
Proof. split_and!; vm_compute; reflexivity. Qed.

Section MapEntries.
Context `{Env}.

(** C8. A MAP field of declared type [map[string]int32] of a type of the
  model gives, in the message built for that type, the nested message
  [<FieldName>Entry] with the fields [key] (string, number 1) and [value]
  (int32, number 2, no type name), marked as a map entry; the descriptor of
  the field itself is labeled REPEATED and its type name is the name of
  that entry message. *)
Theorem C8_map_of_int32_entry descr renderer st st' d j t k f :
buildMessagesFromTypes descr renderer st = Ok (tt, st') →
heap st !! descr = Some d →
Model.Types (Renderer.Model renderer) !! j = Some t →
SType.Fields t !! k = Some f →
Field.Kind f = FieldKind_MAP →
Field.NativeType f = "map[string]int32" →
∃ d' msg fd,
  heap st' !! descr = Some d' ∧
  FileDescriptorProto.MessageType d'
    !! (length (FileDescriptorProto.MessageType d) + j)%nat = Some msg ∧
  DescriptorProto.Name msg = Some (SType.TypeName t) ∧
  int32Entry (Field.FieldName f) ∈ DescriptorProto.NestedType msg ∧
  fd ∈ DescriptorProto.Field msg ∧
  FieldDescriptorProto.Name fd = Some (Field.FieldName f) ∧
  FieldDescriptorProto.Label fd = Some LABEL_REPEATED ∧
  FieldDescriptorProto.TypeName fd = Some (Field.FieldName f +:+ "Entry") ∧
  DescriptorProto.Name (int32Entry (Field.FieldName f))
    = Some (Field.FieldName f +:+ "Entry").
Proof.
unfold buildMessagesFromTypes. intros Hok Hd Ht Hf Hkind Hnative.
apply buildMessages_Ok in Hok as (msgs & Hall & Hheap & _).
destruct (Forall2_lookup_l _ _ _ _ _ Hall Ht) as (msg & Hmsg & Hbuilt).
destruct Hbuilt as (Hname & registry & Hfields & Hmaps).
assert (skipped f = false) as Hskip.
{ unfold skipped. rewrite Hnative. by rewrite andb_false_r. }
destruct (Hmaps k f Hf Hkind Hskip) as (v & Hv & Hentry).
rewrite Hnative in Hv. injection Hv as <-.
pose proof (keptPositions_elem 0 _ _ _ Hf Hskip) as Hin. simpl in Hin.
apply list_elem_of_lookup in Hin as [idx Hidx].
destruct (Forall2_lookup_l _ _ _ _ _ Hfields Hidx)
  as (fd & Hfd & f' & Hf' & Hdesc).
rewrite Hf in Hf'. injection Hf' as <-.
destruct Hdesc as (Hn & _ & Hl & _ & Htn & _).
exists (add_MessageTypes msgs d), msg, fd. split_and!; auto.
- rewrite (Hheap _ Hd). apply list_lookup_insert_eq. by eapply lookup_lt_Some.
- simpl. rewrite lookup_app_r by lia.
  by replace (length (FileDescriptorProto.MessageType d) + j
              - length (FileDescriptorProto.MessageType d))%nat with j by lia.
- by eapply list_elem_of_lookup_2.
- rewrite Hl. unfold labelOf. rewrite Hnative. by rewrite orb_true_r.
- rewrite Htn. by rewrite decide_True.
Qed.

(** C10. The value type of a map is what follows the first 11 bytes of the
  declared type: for a declared type ["map[string]" ++ v] it is [v]; the
  slice, and with it the construction of the key and value fields and the
  iteration of the message builder that asked for them, panics exactly when
  the declared type has fewer than 11 bytes. *)
Theorem C10_map_value_type_is_the_slice_from_11 (f : Field.t) :
(∀ p v, Field.NativeType f = p +:+ v → String.length p = 11%nat →
        buildKeyValueFields f =
        Ok [keyField; valueField v (Field.EnumValues f)]) ∧
(∀ v, Field.NativeType f = "map[string]" +:+ v →
      buildKeyValueFields f =
      Ok [keyField; valueField v (Field.EnumValues f)]) ∧
(buildKeyValueFields f = Panic ↔
 (String.length (Field.NativeType f) < 11)%nat) ∧
((11 ≤ String.length (Field.NativeType f))%nat →
 ∃ v, buildKeyValueFields f =
      Ok [keyField; valueField v (Field.EnumValues f)]) ∧
(∀ t packageName i message st,
   Field.Kind f = FieldKind_MAP → skipped f = false →
   (String.length (Field.NativeType f) < 11)%nat →
   buildField t packageName i f message st = Panic).
Proof.
assert (∀ p v, Field.NativeType f = p +:+ v → String.length p = 11%nat →
        buildKeyValueFields f =
        Ok [keyField; valueField v (Field.EnumValues f)]) as Hslice.
{ intros p v Hn Hp. rewrite buildKeyValueFields_eq.
  assert (slice_from (Field.NativeType f) 11 = Ok v) as ->; [| done].
  apply slice_from_Ok. eauto. }
split_and!.
- exact Hslice.
- intros v Hn. by apply (Hslice "map[string]" v).
- rewrite buildKeyValueFields_eq, <- slice_from_Panic.
  by destruct (slice_from _ _).
- intros Hlen. destruct (slice_from_total _ _ Hlen) as [v Hv].
  exists v. rewrite buildKeyValueFields_eq. by rewrite Hv.
- intros t packageName i message st Hkind Hskip Hlen.
  destruct (buildField_cases t packageName i f message st)
    as (lines & ty & _ & Heq).
  simpl in Heq. rewrite Heq. rewrite decide_True by done.
  unfold skipped in Hskip. rewrite bool_decide_eq_true_2 in Hskip by done.
  simpl in Hskip. rewrite Hskip.
  apply buildMapDescriptorProto_Panic in Hlen. by rewrite Hlen.
Qed.

End MapEntries.

(** An instance: the field [counts] of [Pet]. *)
Lemma C8_witness :
  ∃ st' d' msg fd,
    buildMessagesFromTypes (H := Example.env) 0%nat
      (Example.renderer "pets" (Model.mk [Example.Pet] [] []))
      (Example.started "pets") = Ok (tt, st') ∧
    heap st' !! 0%nat = Some d' ∧
    FileDescriptorProto.MessageType d' !! 0%nat = Some msg ∧
    int32Entry "counts" ∈ DescriptorProto.NestedType msg ∧
    fd ∈ DescriptorProto.Field msg ∧
    FieldDescriptorProto.Name fd = Some "counts" ∧
    FieldDescriptorProto.Label fd = Some LABEL_REPEATED ∧
    FieldDescriptorProto.TypeName fd = Some "countsEntry".
Proof.
  eexists.
  destruct (C8_map_of_int32_entry (H := Example.env) 0%nat
    (Example.renderer "pets" (Model.mk [Example.Pet] [] []))
    (Example.started "pets") _ _ 0%nat Example.Pet 1%nat
    (Field.mk "counts" FieldKind_MAP Position_BODY "map[string]int32"
       "counts" None)
    ltac:(vm_compute; reflexivity) ltac:(reflexivity) ltac:(reflexivity)
    ltac:(reflexivity) ltac:(reflexivity) ltac:(reflexivity))
    as (d' & msg & fd & H1 & H2 & H3 & H4 & H5 & H6 & H7 & H8 & H9).
  exists d', msg, fd. split_and!; first [reflexivity | assumption].
Defined.

(** ** Decoding the output of the reference resolution *)

Section Decode.
Context `{Env}.

(** C9 (as amended). [createOpenAPIDocFromGnosticOutput] returns normally
  exactly when the decoder reports no error or one whose message is
  "unexpected EOF"; what it returns then is the document as the decoder
  left it. On any other error it returns that error. *)
Theorem C9_decode_tolerates_unexpected_EOF (b : list Byte.byte) :
(((proto_Unmarshal b Document_zero).2 = None ∨
  (proto_Unmarshal b Document_zero).2 = Some "unexpected EOF") →
 createOpenAPIDocFromGnosticOutput b = Ok (proto_Unmarshal b Document_zero).1) ∧
(∀ e, (proto_Unmarshal b Document_zero).2 = Some e → e ≠ "unexpected EOF" →
      createOpenAPIDocFromGnosticOutput b = Err e) ∧
((∃ d, createOpenAPIDocFromGnosticOutput b = Ok d) ↔
 ((proto_Unmarshal b Document_zero).2 = None ∨
  (proto_Unmarshal b Document_zero).2 = Some "unexpected EOF")).
Proof.
unfold createOpenAPIDocFromGnosticOutput.
destruct (proto_Unmarshal b Document_zero) as [d [e|]]; simpl.
- destruct (decide (e ≠ "unexpected EOF")) as [Hne|Heq].
  + split_and!.
    * intros [?|[= ->]]; done.
    * by intros e' [= <-] _.
    * split; [by intros [? ?] |]. intros [?|[= ->]]; done.
  + apply dec_stable in Heq as ->. split_and!.
    * done.
    * by intros e' [= <-] ?.
    * split; eauto.
- split_and!; [done | by intros e [=] | split; eauto].
Qed.

End Decode.

(** C9 as stated fails: a decoding that succeeds, and one that ends in the
    unexpected end of input after a complete field, both give the document
    read so far, which is not the empty one. *)
Lemma C9_counterexample :
  (proto_Unmarshal (Env := Example.env) Example.openapi300 Document_zero).2
    = None ∧
  createOpenAPIDocFromGnosticOutput (H := Example.env) Example.openapi300
    = Ok ("3.0.0" : Document (Env := Example.env)) ∧
  (proto_Unmarshal (Env := Example.env) (Example.openapi300 ++ [Byte.x12])
     Document_zero).2 = Some "unexpected EOF" ∧
  createOpenAPIDocFromGnosticOutput (H := Example.env)
    (Example.openapi300 ++ [Byte.x12])
    = Ok ("3.0.0" : Document (Env := Example.env)) ∧
  ("3.0.0" : Document (Env := Example.env)) ≠ Document_zero.
Proof. split_and!; try reflexivity. discriminate. Qed.

(** ** Service names *)

Lemma string_app_nil_r (s : string) : s +:+ EmptyString = s.
Proof.
  induction s as [|c s IH]; [done |].
  unfold String.append; fold String.append. by rewrite IH.
Qed.

Lemma string_app_assoc (s1 s2 s3 : string) :
  (s1 +:+ s2) +:+ s3 = s1 +:+ (s2 +:+ s3).
Proof.
  induction s1 as [|c s1 IH]; [done |].
  unfold String.append; fold String.append. by rewrite IH.
Qed.

Lemma string_app_length (s1 s2 : string) :
  String.length (s1 +:+ s2) = (String.length s1 + String.length s2)%nat.
Proof.
  induction s1 as [|c s1 IH]; [done |].
  unfold String.append; fold String.append. simpl. by rewrite IH.
Qed.

Lemma pretty_N_go_length x s :
  (String.length s ≤ String.length (pretty_N_go x s))%nat.
Proof.
  revert s. induction (N.lt_wf_0 x) as [x _ IH]; intros s.
  assert (x = 0 ∨ 0 < x)%N as [->|Hx] by lia.
  - by rewrite pretty_N_go_0.
  - rewrite pretty_N_go_step by done.
    etrans; [| apply IH; by apply N.div_lt]. simpl. lia.
Qed.

Lemma Itoa_nonempty z : Itoa z ≠ EmptyString.
Proof.
  assert (∀ p, pretty (N.pos p) ≠ EmptyString) as Hpos.
  { intros p. unfold pretty, pretty_N. rewrite decide_False by done.
    rewrite pretty_N_go_step by lia. intros Hs.
    pose proof (pretty_N_go_length (N.pos p `div` 10)
      (String (pretty_N_char (N.pos p `mod` 10)) EmptyString)) as Hlen.
    rewrite Hs in Hlen. simpl in Hlen. lia. }
  unfold Itoa, pretty. destruct z as [|p|p]; simpl; [done | apply Hpos |].
  discriminate.
Qed.

#[global] Instance candidate_inj serviceName : Inj (=) (=) (candidate serviceName).
Proof.
  assert (∀ x, serviceName ≠ (serviceName +:+ "Service") +:+ x) as H0.
  { intros x Heq. rewrite string_app_assoc in Heq.
    rewrite <- (string_app_nil_r serviceName) in Heq at 1.
    apply (inj (String.app serviceName)) in Heq. discriminate. }
  assert (∀ z, serviceName +:+ "Service"
               ≠ (serviceName +:+ "Service") +:+ Itoa z) as H1.
  { intros z Heq.
    rewrite <- (string_app_nil_r (serviceName +:+ "Service")) in Heq at 1.
    apply (inj (String.app _)) in Heq. by apply (Itoa_nonempty z). }
  intros [|[|m]] [|[|n]] Heq; simpl in Heq; try done.
  - by destruct (H0 EmptyString); rewrite string_app_nil_r.
  - by destruct (H0 (Itoa (Z.of_nat (S n)))).
  - by destruct (H0 EmptyString); rewrite string_app_nil_r.
  - by destruct (H1 (Z.of_nat (S n))).
  - by destruct (H0 (Itoa (Z.of_nat (S m)))).
  - by destruct (H1 (Z.of_nat (S m))).
  - apply (inj (String.app _)) in Heq. apply (inj pretty) in Heq. lia.
Qed.

Section ServiceName.
Context `{Env}.

Lemma collectMessageNames_Ok messages : ∀ acc,
Forall (λ m, is_Some (DescriptorProto.Name m)) messages →
∃ names,
  collectMessageNames messages acc = Ok names ∧
  ∀ x, default false (names !! x) = true ↔
       Some x ∈ messageNames messages ∨ default false (acc !! x) = true.
Proof.
induction messages as [|m messages IH]; intros acc Hall.
- exists acc. split; [done |]. intros x. unfold messageNames. simpl.
  rewrite elem_of_nil. tauto.
- apply Forall_cons in Hall as [[n Hn] Hall].
  destruct (IH (<[n := true]> acc) Hall) as (names & Hc & Hnames).
  exists names. split; [simpl; by rewrite Hn |]. intros x. rewrite Hnames.
  unfold messageNames. simpl. rewrite elem_of_cons, Hn.
  destruct (decide (n = x)) as [->|Hne].
  + rewrite lookup_insert_eq. simpl. split; auto.
  + rewrite lookup_insert_ne by done.
    split; [tauto |]. intros [[[= ?]|?]|?]; [done | auto..].
Qed.

(** The loop returns the first candidate, from the one it starts with, that
  no message bears, provided its budget reaches that far. *)
Lemma findValidServiceName_loop_first names serviceName : ∀ fuel n k,
(n ≤ k < n + fuel)%nat → Z.of_nat k < 2 ^ 63 →
default false (names !! candidate serviceName k) = false →
∃ k', (n ≤ k' ≤ k)%nat ∧
  default false (names !! candidate serviceName k') = false ∧
  (∀ j, (n ≤ j < k')%nat →
        default false (names !! candidate serviceName j) = true) ∧
  findValidServiceName_loop fuel names serviceName
    (candidate serviceName n) (Z.of_nat n) = Ok (candidate serviceName k').
Proof.
induction fuel as [|fuel IH]; intros n k Hk Hbound Hfree; [lia |].
simpl.
destruct (default false (names !! candidate serviceName n)) eqn:Hn; simpl.
- assert (n ≠ k) as Hne by congruence.
  destruct (IH (S n) k) as (k' & Hk' & Hfree' & Hbefore & Hloop);
    [lia | done | done |].
  exists k'. split; [lia |]. split; [done |]. split.
  + intros j Hj. destruct (decide (j = n)) as [->|?]; [done |].
    apply Hbefore. lia.
  + rewrite int_small by lia.
    replace (Z.of_nat n + 1) with (Z.of_nat (S n)) by lia.
    rewrite <- Hloop. f_equal.
    destruct n as [|n]; [done |].
    rewrite decide_True by lia. done.
- exists n. split; [lia |]. split; [done |]. split; [| done].
  intros j Hj. lia.
Qed.

(** Some candidate among the first [length messages + 1] is free. *)
Lemma candidate_free messages serviceName :
∃ k, (k ≤ length messages)%nat ∧
     Some (candidate serviceName k) ∉ messageNames messages.
Proof.
destruct (decide (Forall
  (λ k, Some (candidate serviceName k) ∈ messageNames messages)
  (seq 0 (S (length messages))))) as [Hall|Hex].
- exfalso. rewrite Forall_forall in Hall.
  assert ((Some ∘ candidate serviceName) <$> seq 0 (S (length messages))
          ⊆+ messageNames messages) as Hsub.
  { apply NoDup_submseteq.
    - apply NoDup_fmap_2; [| apply NoDup_seq].
      intros x y [= Heq]. by apply (inj (candidate serviceName)).
    - intros x (k & -> & Hk)%list_elem_of_fmap. by apply Hall. }
  apply submseteq_length in Hsub.
  unfold messageNames in Hsub. rewrite !length_fmap, length_seq in Hsub. lia.
- apply not_Forall_Exists in Hex; [| apply _].
  apply Exists_exists in Hex as (k & Hk & Hfree).
  apply elem_of_seq in Hk. exists k. split; [lia | done].
Qed.

(** [findValidServiceName] returns the first candidate that no message
  bears; it is among the first [length messages + 1]. *)
Lemma findValidServiceName_Ok fuel messages serviceName :
Forall (λ m, is_Some (DescriptorProto.Name m)) messages →
Z.of_nat (length messages) < 2 ^ 63 →
(length messages < fuel)%nat →
∃ k, (k ≤ length messages)%nat ∧
  findValidServiceName fuel messages serviceName
    = Ok (candidate serviceName k) ∧
  (Some (candidate serviceName k) ∉ messageNames messages) ∧
  (∀ j, (j < k)%nat → Some (candidate serviceName j) ∈ messageNames messages).
Proof.
intros Hnamed Hlen Hfuel. unfold findValidServiceName.
destruct (collectMessageNames_Ok messages ∅ Hnamed) as (names & -> & Hnames).
assert (∀ x, default false (names !! x) = true ↔
             Some x ∈ messageNames messages) as Htaken.
{ intros x. rewrite Hnames, lookup_empty. simpl. split; [| tauto].
  by intros [?|?]. }
destruct (candidate_free messages serviceName) as (k & Hk & Hfree).
destruct (findValidServiceName_loop_first names serviceName fuel 0 k)
  as (k' & Hk' & Hfree' & Hbefore & Hloop); [lia | lia | |].
{ apply not_true_is_false. by rewrite Htaken. }
exists k'. simpl. split; [lia |]. split; [exact Hloop |]. split.
- rewrite <- Htaken. by rewrite Hfree'.
- intros j Hj. apply Htaken, Hbefore. lia.
Qed.

End ServiceName.

(** ** Service Builder *)

Lemma markEmpty_compose b1 b2 st :
  markEmpty b2 (markEmpty b1 st) = markEmpty (b1 || b2) st.
Proof. by destruct b1, b2, st. Qed.

Lemma markEmpty_heap b st : heap (markEmpty b st) = heap st.
Proof. by destruct b. Qed.

Lemma markEmpty_flag b st :
  shouldRenderEmptyImport (markEmpty b st) = shouldRenderEmptyImport st || b.
Proof. destruct b; simpl; [by rewrite orb_true_r | by rewrite orb_false_r]. Qed.

Section Service.
Context `{Env}.

(** One iteration of the loop over the methods. *)
Lemma buildMethod_eq types method st :
buildMethod types method st =
Ok ((substituted method, methodDescriptor types method),
    markEmpty (needsEmpty method) st).
Proof.
destruct method as [p v h [|c1 pt] [|c2 rt]], st; reflexivity.
Qed.

(** The loop over the methods never fails; it substitutes the empty type
  where a type name is empty and sets [shouldRenderEmptyImport] if it did
  so for some method. *)
Lemma buildMethods_eq types methods : ∀ st,
buildMethods types methods st =
Ok ((substituted <$> methods, methodDescriptor types <$> methods),
    markEmpty (existsb needsEmpty methods) st).
Proof.
induction methods as [|m methods IH]; intros st; [done |].
simpl. unfold mbind at 1. unfold M_bind at 1. rewrite buildMethod_eq.
unfold mbind, M_bind. rewrite IH. by rewrite markEmpty_compose.
Qed.

(** [buildServiceFromMethods] on a file whose messages are all named: with a
  budget above the number of messages it returns normally; the file gets
  one service, named by the first candidate that no message bears, with one
  method descriptor per method; nothing else of the file changes. *)
Lemma buildServiceFromMethods_Ok fuel descr renderer st d :
heap st !! descr = Some d →
Forall (λ m, is_Some (DescriptorProto.Name m))
  (FileDescriptorProto.MessageType d) →
Z.of_nat (length (FileDescriptorProto.MessageType d)) < 2 ^ 63 →
(length (FileDescriptorProto.MessageType d) < fuel)%nat →
∃ k renderer',
  let serviceName :=
    candidate (strings_Title (Renderer.Package renderer)) k in
  let model := Renderer.Model renderer in
  (k ≤ length (FileDescriptorProto.MessageType d))%nat ∧
  (Some serviceName ∉ messageNames (FileDescriptorProto.MessageType d)) ∧
  (∀ j, (j < k)%nat →
        Some (candidate (strings_Title (Renderer.Package renderer)) j)
          ∈ messageNames (FileDescriptorProto.MessageType d)) ∧
  Renderer.Package renderer' = Renderer.Package renderer ∧
  Renderer.SymbolicFdSets renderer' = Renderer.SymbolicFdSets renderer ∧
  buildServiceFromMethods fuel descr renderer st =
  Ok (renderer',
      set_heap
        (<[descr :=
             set_Service
               [ServiceDescriptorProto.mk (Some serviceName)
                  (methodDescriptor (Model.Types model)
                     <$> Model.Methods model)] d]> (heap st))
        (markEmpty (existsb needsEmpty (Model.Methods model)) st)).
Proof.
intros Hd Hnamed Hlen Hfuel.
destruct (findValidServiceName_Ok fuel (FileDescriptorProto.MessageType d)
            (strings_Title (Renderer.Package renderer)) Hnamed Hlen Hfuel)
  as (k & Hk & Hfind & Hfree & Hbefore).
exists k. eexists. simpl. split_and!; [done | done | done | | |].
3: { unfold buildServiceFromMethods.
     unfold mbind at 1. unfold M_bind at 1. unfold load. rewrite Hd.
     unfold mbind at 1. unfold M_bind at 1. rewrite Hfind. simpl.
     unfold mbind at 1. unfold M_bind at 1. rewrite buildMethods_eq.
     unfold mbind, M_bind, store. rewrite markEmpty_heap, Hd.
     reflexivity. }
all: reflexivity.
Qed.

End Service.

Section ServiceNaming.
Context `{Env}.

(** C6. On a file whose messages are all named, [buildServiceFromMethods]
  (with a budget above the number of messages) returns normally and leaves
  the messages of the file as they were. The one service it creates is
  named by the title-cased package name if no message bears that name;
  otherwise by that name followed by [Service] if no message bears that;
  otherwise by that followed by the least counter 1, 2, ... that gives a
  name no message bears. The name of the service is never the name of a
  message of the file. *)
Theorem C6_service_name_avoids_message_names fuel descr renderer st d :
heap st !! descr = Some d →
Forall (λ m, is_Some (DescriptorProto.Name m))
  (FileDescriptorProto.MessageType d) →
Z.of_nat (length (FileDescriptorProto.MessageType d)) < 2 ^ 63 →
(length (FileDescriptorProto.MessageType d) < fuel)%nat →
∃ serviceName renderer' st' d',
  buildServiceFromMethods fuel descr renderer st = Ok (renderer', st') ∧
  heap st' !! descr = Some d' ∧
  FileDescriptorProto.MessageType d' = FileDescriptorProto.MessageType d ∧
  ServiceDescriptorProto.Name <$> FileDescriptorProto.Service d'
    = [Some serviceName] ∧
  (Some serviceName ∉ messageNames (FileDescriptorProto.MessageType d)) ∧
  (Some (strings_Title (Renderer.Package renderer))
     ∉ messageNames (FileDescriptorProto.MessageType d) →
   serviceName = strings_Title (Renderer.Package renderer)) ∧
  (Some (strings_Title (Renderer.Package renderer))
     ∈ messageNames (FileDescriptorProto.MessageType d) →
   Some (strings_Title (Renderer.Package renderer) +:+ "Service")
     ∉ messageNames (FileDescriptorProto.MessageType d) →
   serviceName = strings_Title (Renderer.Package renderer) +:+ "Service") ∧
  (Some (strings_Title (Renderer.Package renderer))
     ∈ messageNames (FileDescriptorProto.MessageType d) →
   Some (strings_Title (Renderer.Package renderer) +:+ "Service")
     ∈ messageNames (FileDescriptorProto.MessageType d) →
   ∃ ctr, 1 ≤ ctr ∧
     serviceName =
       (strings_Title (Renderer.Package renderer) +:+ "Service")
         +:+ Itoa ctr ∧
     ∀ c, 1 ≤ c < ctr →
       Some ((strings_Title (Renderer.Package renderer) +:+ "Service")
               +:+ Itoa c)
         ∈ messageNames (FileDescriptorProto.MessageType d)).
Proof.
intros Hd Hnamed Hlen Hfuel.
destruct (buildServiceFromMethods_Ok fuel descr renderer st d
            Hd Hnamed Hlen Hfuel)
  as (k & renderer' & Hk & Hfree & Hbefore & _ & _ & Hrun).
simpl in Hrun.
eexists (candidate (strings_Title (Renderer.Package renderer)) k),
  renderer', _, _.
split; [exact Hrun |]. split.
{ simpl. apply list_lookup_insert_eq.
  by eapply lookup_lt_Some. }
split; [done |]. split; [done |]. split; [done |].
destruct k as [|[|m]]; simpl.
- split; [done |]. split; intros Ht; by destruct Hfree.
- pose proof (Hbefore 0%nat ltac:(lia)) as H0. simpl in H0.
  split; [intros Ht; by destruct Ht |]. split; [done |].
  intros _ Hs. by destruct Hfree.
- pose proof (Hbefore 0%nat ltac:(lia)) as H0.
  pose proof (Hbefore 1%nat ltac:(lia)) as H1. simpl in H0, H1.
  split; [intros Ht; by destruct Ht |].
  split; [intros _ Hs; by destruct Hs |].
  intros _ _. exists (Z.of_nat (S m)). split; [lia |]. split; [done |].
  intros c Hc.
  pose proof (Hbefore (S (S (Z.to_nat c - 1))) ltac:(lia)) as Hc'.
  unfold candidate in Hc'.
  by replace (Z.of_nat (S (Z.to_nat c - 1))) with c in Hc' by lia.
Qed.

End ServiceNaming.

(** An instance: a file that already has the messages [Pet], [PetService]
    and [PetService1]. *)
Lemma C6_witness :
  ∃ renderer' st' d',
    buildServiceFromMethods (H := Example.env) 4 0%nat
      (Example.renderer "pet" (Model.mk [] [Example.getPet] []))
      (set_heap
         [FileDescriptorProto.mk (Some "pet.proto") (Some "pet") []
            [Example.named "Pet"; Example.named "PetService";
             Example.named "PetService1"] [] [] (Some "proto3")]
         initialState)
    = Ok (renderer', st') ∧
    heap st' !! 0%nat = Some d' ∧
    DescriptorProto.Name <$> FileDescriptorProto.MessageType d'
      = [Some "Pet"; Some "PetService"; Some "PetService1"] ∧
    ServiceDescriptorProto.Name <$> FileDescriptorProto.Service d'
      = [Some "PetService2"].
Proof.
  destruct (C6_service_name_avoids_message_names (H := Example.env) 4 0%nat
    (Example.renderer "pet" (Model.mk [] [Example.getPet] []))
    (set_heap
       [FileDescriptorProto.mk (Some "pet.proto") (Some "pet") []
          [Example.named "Pet"; Example.named "PetService";
           Example.named "PetService1"] [] [] (Some "proto3")]
       initialState) _
    ltac:(reflexivity) ltac:(repeat constructor; by eexists)
    ltac:(simpl; lia) ltac:(simpl; lia))
    as (serviceName & renderer' & st' & d' & Hrun & Hd' & Hmsgs & Hsvc & _).
  exists renderer', st', d'. split; [exact Hrun |]. split; [exact Hd' |].
  rewrite Hmsgs. split; [reflexivity |].
  vm_compute in Hrun. injection Hrun as _ <-.
  vm_compute in Hd'. injection Hd' as <-. reflexivity.
Defined.

(** ** Normalising the symbolic references *)

Lemma Split_fragmentless url :
  ∃ parts, strings.Split url "#" = fragmentless url :: parts.
Proof.
  induction url as [|c url [parts IH]]; simpl; [by exists [] |].
  destruct (decide (c = "#"%char)); [eauto |]. rewrite IH. eauto.
Qed.

Lemma firstSeen_elem_of l x : x ∈ firstSeen l ↔ x ∈ l.
Proof.
  induction l as [|y l IH]; simpl; [done |].
  rewrite !elem_of_cons, list_elem_of_filter, IH.
  destruct (decide (x = y)); tauto.
Qed.

Lemma firstSeen_NoDup l : NoDup (firstSeen l).
Proof.
  induction l as [|y l IH]; simpl; [constructor |].
  apply NoDup_cons. split; [| by apply NoDup_filter].
  rewrite list_elem_of_filter. tauto.
Qed.

Lemma firstSeen_sublist l : firstSeen l `sublist_of` l.
Proof.
  induction l as [|y l IH]; simpl; [constructor |].
  constructor. etrans; [apply sublist_filter | done].
Qed.

Section Trim.
Context `{Env}.

Lemma isDuplicate_elem_of ss s : isDuplicate ss s = true ↔ s ∈ ss.
Proof.
induction ss as [|s2 ss IH]; simpl.
- rewrite elem_of_nil. split; [discriminate | done].
- rewrite elem_of_cons. destruct (decide (s = s2)); [tauto |].
  rewrite IH. tauto.
Qed.

Lemma trimAndRemoveDuplicates_loop_eq urls : ∀ result,
trimAndRemoveDuplicates_loop urls result =
Ok (result ++ filter (λ x, x ∉ result) (firstSeen (fragmentless <$> urls))).
Proof.
induction urls as [|url urls IH]; intros result; simpl.
- by rewrite app_nil_r.
- destruct (Split_fragmentless url) as [parts ->]. simpl.
  destruct (isDuplicate result (fragmentless url)) eqn:Hdup; simpl.
  + apply isDuplicate_elem_of in Hdup. rewrite IH.
    rewrite filter_cons_False by tauto.
    rewrite list_filter_filter. do 2 f_equal.
    apply list_filter_iff. intros x. split; [| tauto].
    intros Hx. split; [done | congruence].
  + assert (fragmentless url ∉ result) as Hnew.
    { rewrite <- isDuplicate_elem_of. by rewrite Hdup. }
    rewrite IH, filter_cons_True by done.
    rewrite <- app_assoc. simpl. do 3 f_equal.
    rewrite list_filter_filter. apply list_filter_iff. intros x.
    rewrite elem_of_app, list_elem_of_singleton. tauto.
Qed.

(** [trimAndRemoveDuplicates] never fails: it yields the URLs without their
  fragments, each once, in the order they are first seen. *)
Lemma trimAndRemoveDuplicates_eq urls :
trimAndRemoveDuplicates urls = Ok (firstSeen (fragmentless <$> urls)).
Proof.
unfold trimAndRemoveDuplicates. rewrite trimAndRemoveDuplicates_loop_eq.
simpl. f_equal.
induction (firstSeen _) as [|x l IH]; [done |].
rewrite filter_cons_True by apply not_elem_of_nil. by rewrite IH.
Qed.

End Trim.

(** ** Descriptor Set Assembler *)

Lemma getLast_Ok protos p : getLast protos = Ok p ↔ last protos = Some p.
Proof.
  unfold getLast, index. rewrite last_lookup.
  replace (length protos - 1)%nat with (pred (length protos)) by lia.
  destruct (protos !! pred (length protos)); split; congruence.
Qed.

Lemma named_app st st' a n new :
  heap st' = heap st ++ new → named st a n → named st' a n.
Proof.
  intros Hheap (d & Hd & Hn). exists d. split; [| done].
  rewrite Hheap. rewrite lookup_app_l; [done |]. by eapply lookup_lt_Some.
Qed.

Section Assembler.
Context `{Env}.

(** [buildDependencies] never fails: it allocates the three foundation files
  and puts them before the files of the set. *)
Lemma buildDependencies_eq fdSet st :
buildDependencies fdSet st =
Ok (FileDescriptorSet.mk
      ([length (heap st); S (length (heap st)); S (S (length (heap st)))]
         ++ FileDescriptorSet.File fdSet),
    set_heap
      (heap st ++ [annotationsFileDescriptor; emptyFileDescriptor;
                   descriptorFileDescriptor]) st).
Proof.
unfold buildDependencies, mbind, M_bind, alloc, mret, M_ret. simpl.
rewrite !length_app. simpl.
replace (length (heap st) + 1)%nat with (S (length (heap st))) by lia.
replace (S (length (heap st)) + 1)%nat with (S (S (length (heap st)))) by lia.
destruct st. unfold set_heap. simpl. rewrite <- !app_assoc. reflexivity.
Qed.

(** The loop of [addDependencies], when it returns normally: every file but
  [lastFdProto] has a name, and the names the loop keeps are appended. *)
Lemma collectDependencies_Ok lastFdProto files : ∀ dependency st deps st',
collectDependencies lastFdProto files dependency st = Ok (deps, st') →
st' = st ∧
∃ names,
  Forall2 (named st) (filter (λ a, a ≠ lastFdProto) files) names ∧
  deps = dependency ++ dependencyNames (shouldRenderEmptyImport st) names.
Proof.
induction files as [|fd files IH]; intros dependency st deps st' Hok.
- injection Hok as <- <-. split; [done |]. exists [].
  split; [constructor | by rewrite app_nil_r].
- simpl in Hok. destruct (decide (fd ≠ lastFdProto)) as [Hne|Heq].
  + apply bind_Ok in Hok as (d & st1 & Hload & Hok).
    apply load_Ok in Hload as (d' & Hd & [= -> ->]).
    apply bind_Ok in Hok as (name & st2 & Hname & Hok).
    apply lift_Ok in Hname as (name' & Hname & [= -> ->]).
    apply bind_Ok in Hok as (st3 & st4 & Hget & Hok).
    apply get_Ok in Hget as [= -> ->].
    assert (FileDescriptorProto.Name d' = Some name') as Hn.
    { unfold deref in Hname.
      destruct (FileDescriptorProto.Name d'); congruence. }
    rewrite filter_cons_True by done.
    destruct (decide (name' = "google/protobuf/empty.proto")) as [->|Hnot];
      apply IH in Hok as (-> & names & Hall & ->); (split; [done |]).
    * exists ("google/protobuf/empty.proto" :: names).
      split; [constructor; [by exists d' | done] |].
      unfold dependencyNames. rewrite filter_cons.
      destruct (shouldRenderEmptyImport st).
      -- rewrite decide_True by auto. by rewrite <- app_assoc.
      -- rewrite decide_False; [done |]. intros [?|?]; done.
    * exists (name' :: names).
      split; [constructor; [by exists d' | done] |].
      unfold dependencyNames. rewrite filter_cons_True by auto.
      by rewrite <- app_assoc.
  + rewrite filter_cons_False by done. by apply IH in Hok.
Qed.

(** [addDependencies], when it returns normally. *)
Lemma addDependencies_Ok fdSet st st' :
addDependencies fdSet st = Ok (tt, st') →
∃ lastFdProto l names,
  last (FileDescriptorSet.File fdSet) = Some lastFdProto ∧
  heap st !! lastFdProto = Some l ∧
  Forall2 (named st)
    (filter (λ a, a ≠ lastFdProto) (FileDescriptorSet.File fdSet)) names ∧
  st' = set_heap
          (<[lastFdProto :=
               set_Dependency
                 (sort_Strings
                    (FileDescriptorProto.Dependency l
                       ++ dependencyNames (shouldRenderEmptyImport st) names))
                 l]> (heap st)) st.
Proof.
unfold addDependencies. intros Hok.
apply bind_Ok in Hok as (lastFdProto & st1 & Hlast & Hok).
apply lift_Ok in Hlast as (p & Hlast & [= -> ->]).
apply getLast_Ok in Hlast.
apply bind_Ok in Hok as (l & st2 & Hload & Hok).
apply load_Ok in Hload as (l' & Hl & [= -> ->]).
apply bind_Ok in Hok as (deps & st3 & Hdeps & Hok).
apply collectDependencies_Ok in Hdeps as (-> & names & Hall & ->).
apply store_Ok in Hok as (_ & [= ->]).
exists p, l', names. done.
Qed.

(** [buildServiceFromMethods], when it returns normally. *)
Lemma buildServiceFromMethods_inv fuel descr renderer st renderer' st' :
buildServiceFromMethods fuel descr renderer st = Ok (renderer', st') →
∃ d service,
  heap st !! descr = Some d ∧
  Renderer.Package renderer' = Renderer.Package renderer ∧
  Renderer.SymbolicFdSets renderer' = Renderer.SymbolicFdSets renderer ∧
  st' = set_heap (<[descr := set_Service [service] d]> (heap st))
          (markEmpty
             (existsb needsEmpty (Model.Methods (Renderer.Model renderer)))
             st).
Proof.
unfold buildServiceFromMethods. intros Hok.
apply bind_Ok in Hok as (d & st1 & Hload & Hok).
apply load_Ok in Hload as (d' & Hd & [= -> ->]).
apply bind_Ok in Hok as (serviceName & st2 & Hname & Hok).
apply lift_Ok in Hname as (name' & Hname & [= -> ->]).
apply bind_Ok in Hok as ([methods mDescrs] & st3 & Hmethods & Hok).
rewrite buildMethods_eq in Hmethods. injection Hmethods as <- <- <-.
apply bind_Ok in Hok as ([] & st4 & Hstore & Hok).
apply store_Ok in Hstore as (_ & [= ->]).
apply ret_Ok in Hok as [= -> ->].
eexists d', _. rewrite markEmpty_heap. done.
Qed.

End Assembler.

Lemma named_inj st a n n' : named st a n → named st a n' → n = n'.
Proof. intros (d & Hd & Hn) (d' & Hd' & Hn'). congruence. Qed.

Lemma Forall2_named_inj st ptrs names names' :
  Forall2 (named st) ptrs names → Forall2 (named st) ptrs names' →
  names = names'.
Proof.
  intros Hall. revert names'.
  induction Hall as [|a n ptrs names Hn _ IH]; intros names' Hall'.
  - by apply Forall2_nil_inv_l in Hall'.
  - apply Forall2_cons_inv_l in Hall' as (n' & names2 & Hn' & Hall' & ->).
    f_equal; [by eapply named_inj | by apply IH].
Qed.

(** Names are read off the store: they survive a write to another pointer and
    a write that keeps the name. *)
Lemma named_insert_ne st st' p x a n :
  heap st' = <[p := x]> (heap st) → a ≠ p → named st a n ↔ named st' a n.
Proof.
  intros Hheap Hne. unfold named. rewrite Hheap.
  by rewrite list_lookup_insert_ne by done.
Qed.

Lemma filter_ne_last (others : list ptr) (p : ptr) :
  p ∉ others → filter (λ a, a ≠ p) (others ++ [p]) = others.
Proof.
  intros Hp. rewrite filter_app, filter_cons_False, filter_nil, app_nil_r
    by (intros ?; done).
  induction others as [|a others IH]; [done |].
  apply not_elem_of_cons in Hp as [Hne Hp].
  rewrite filter_cons_True by done. by rewrite IH.
Qed.

Section Finish.
Context `{Env}.

(** The last three stages of a run, on a set whose last file [p] is not among
  the others: the file behind [p] keeps its name and package, its
  dependencies become the sorted names of the other files (the empty-type
  file left out unless [shouldRenderEmptyImport] is set), and no other
  pointer is written. *)
Lemma finish_Ok fuel p others fdSet renderer st d :
∀ fdSet' renderer' st',
(buildMessagesFromTypes p renderer;;
 renderer ← buildServiceFromMethods fuel p renderer;
 addDependencies fdSet;;
 mret (fdSet, renderer)) st = Ok ((fdSet', renderer'), st') →
FileDescriptorSet.File fdSet = others ++ [p] →
heap st !! p = Some d →
p ∉ others →
∃ d' names,
  heap st' = <[p := d']> (heap st) ∧
  FileDescriptorProto.Name d' = FileDescriptorProto.Name d ∧
  FileDescriptorProto.Package d' = FileDescriptorProto.Package d ∧
  Forall2 (named st) others names ∧
  FileDescriptorProto.Dependency d' =
    sort_Strings (FileDescriptorProto.Dependency d
                    ++ dependencyNames (shouldRenderEmptyImport st') names) ∧
  generatedSymbolicReferences st' = generatedSymbolicReferences st ∧
  gnosticCalls st' = gnosticCalls st ∧
  Renderer.Package renderer' = Renderer.Package renderer ∧
  Renderer.SymbolicFdSets renderer' = Renderer.SymbolicFdSets renderer ∧
  fdSet' = fdSet.
Proof.
intros fdSet' renderer' st' Hok Hfiles Hd Hp.
apply bind_Ok in Hok as ([] & st1 & Hmsgs & Hok).
unfold buildMessagesFromTypes in Hmsgs.
apply buildMessages_Ok in Hmsgs as (msgs & _ & Hheap1 & _ & Hg1 & Hf1 & Hc1).
specialize (Hheap1 _ Hd).
apply bind_Ok in Hok as (renderer1 & st2 & Hsvc & Hok).
apply buildServiceFromMethods_inv in Hsvc
  as (d1 & service & Hd1 & Hpkg & Hsets & ->).
rewrite Hheap1 in Hd1.
rewrite list_lookup_insert_eq in Hd1 by (by eapply lookup_lt_Some).
injection Hd1 as <-.
apply bind_Ok in Hok as ([] & st3 & Hadd & Hok).
apply ret_Ok in Hok as [= -> -> ->].
apply addDependencies_Ok in Hadd as (q & l & names & Hq & Hl & Hall & ->).
rewrite Hfiles in Hq, Hall.
rewrite last_snoc in Hq. injection Hq as <-.
simpl in Hl, Hall. rewrite list_lookup_insert_eq in Hl.
2: { rewrite Hheap1, length_insert. by eapply lookup_lt_Some. }
injection Hl as <-.
rewrite filter_ne_last in Hall by done.
eexists _, names. simpl. split_and!.
- rewrite Hheap1, !list_insert_insert_eq. reflexivity.
- done.
- done.
- eapply Forall2_impl_elem_of; [exact Hall |].
  intros a n Hin Hn. assert (a ≠ p) as Hne by (by intros ->).
  destruct Hn as (da & Hda & Hna). exists da. split; [| done].
  simpl in Hda. rewrite Hheap1 in Hda.
  by rewrite !list_lookup_insert_ne in Hda by done.
- simpl. unfold markEmpty.
  destruct (existsb _ _); simpl; by rewrite ?Hf1.
- unfold markEmpty. destruct (existsb _ _); simpl; done.
- unfold markEmpty. destruct (existsb _ _); simpl; done.
- done.
- done.
- done.
Qed.

End Finish.

(** ** Symbolic Reference Resolver *)

Lemma lift_result_Ok `{Env} {A} (r : result A) st x :
  lift_result r st = Ok x ↔ ∃ a, r = Success a ∧ x = (a, st).
Proof.
  unfold lift_result. destruct r; split.
  - intros [= <-]. eauto.
  - by intros (? & [= <-] & ->).
  - discriminate.
  - by intros (? & ? & _).
Qed.

Lemma exec_gnostic_Ok `{Env} ref st x :
  exec_gnostic ref st = Ok x ↔
  ∃ b, gnostic_Output ref = Success b ∧
       x = (b, set_gnosticCalls (gnosticCalls st ++ [ref]) st).
Proof.
  unfold exec_gnostic. destruct (gnostic_Output ref); split.
  - intros [= <-]. eauto.
  - by intros (? & [= <-] & ->).
  - discriminate.
  - by intros (? & ? & _).
Qed.

Lemma last_files (syms : list ptr) (a b c p : ptr) :
  last (syms ++ [a; b; c; p]) = Some p.
Proof. by rewrite last_app. Qed.

Section Resolver.
Context `{Env}.

Variable run : Renderer.t → M (FileDescriptorSet.t * Renderer.t).
Hypothesis run_post : ∀ renderer st fdSet renderer' st',
run renderer st = Ok ((fdSet, renderer'), st') →
RunPost st renderer fdSet renderer' st'.

(** The loop over the references, for a [run] that behaves as [RunPost]
  says. *)
Lemma resolveReferences_Ok refs : ∀ renderer syms0 st renderer' syms' st',
resolveReferences run refs renderer syms0 st = Ok ((renderer', syms'), st') →
LoopPost refs st renderer syms0 renderer' syms' st'.
Proof.
induction refs as [|ref refs IH]; intros renderer syms0 st renderer' syms' st' Hok.
- apply ret_Ok in Hok as [= -> -> ->].
  exists [], [], [], [], []. rewrite !app_nil_r.
  split_and!; try done; try (by constructor).
  + by destruct renderer.
  + intros c Hc. by apply elem_of_nil in Hc.
  + intros r. rewrite elem_of_nil. tauto.
  + intros r Hr. by apply elem_of_nil in Hr.
- simpl in Hok.
  apply bind_Ok in Hok as (st0 & st1 & Hget & Hok).
  apply get_Ok in Hget as [= -> ->].
  destruct (decide (is_Some (generatedSymbolicReferences st !! ref)))
    as [Hmarked|Hfresh].
  + apply IH in Hok
      as (resolved & sets & syms & new & calls & -> & -> & Hheap & Hrange
          & Hsub & Hall & Hcalls & Hnd & Hunmarked & Hmarks & Hrefs & Hres).
    exists resolved, sets, syms, new, calls.
    split_and!; try done.
    * by constructor.
    * intros r [->|Hr]%elem_of_cons; [| by apply Hrefs].
      apply Hmarks. by left.
  + apply bind_Ok in Hok as ([] & st1 & Hmod & Hok).
    apply modify_Ok in Hmod as [= ->].
    apply bind_Ok in Hok as (b & st2 & Hexec & Hok).
    apply exec_gnostic_Ok in Hexec as (b' & _ & [= -> ->]).
    apply bind_Ok in Hok as (document & st3 & Hdoc & Hok).
    apply lift_Ok in Hdoc as (document' & _ & [= -> ->]).
    apply bind_Ok in Hok as (surfaceModel & st4 & Hmodel & Hok).
    apply lift_result_Ok in Hmodel as (model' & _ & [= -> ->]).
    apply bind_Ok in Hok as ([newFdSet rr'] & st5 & Hrun & Hok).
    apply run_post in Hrun
      as (resolved1 & sets1 & syms1 & new1 & calls1 & d1 & Hfiles1 & Hrange1
          & Hheap1 & Hd1 & Hname1 & _ & _ & _ & _ & _ & _ & _
          & Hcalls1 & Hnd1 & Hunmarked1 & Hmarks1 & _ & _).
    apply bind_Ok in Hok as (symbolicProto & st6 & Hlast & Hok).
    apply lift_Ok in Hlast as (sym & Hlast & [= -> ->]).
    apply getLast_Ok in Hlast.
    rewrite Hfiles1, last_files in Hlast. injection Hlast as <-.
    simpl in Hheap1, Hd1, Hname1, Hcalls1, Hunmarked1, Hmarks1.
    apply IH in Hok
      as (resolved & sets & syms & new & calls & -> & -> & Hheap & Hrange
          & Hsub & Hall & Hcalls & Hnd & Hunmarked & Hmarks & Hrefs & Hres).
    assert (∀ r, marked st5 r ↔ (marked st r ∨ r = ref) ∨ r ∈ calls1)
      as Hmarks1'.
    { intros r. rewrite Hmarks1. unfold marked. simpl.
      rewrite lookup_insert_is_Some.
      destruct (decide (ref = r)); intuition congruence. }
    assert (length (heap st) < length (heap st5))%nat as Hlt.
    { by eapply lookup_lt_Some. }
    exists (ref :: resolved), (newFdSet :: sets),
      (length (heap st) :: syms), (new1 ++ new), (ref :: calls1 ++ calls).
    split_and!.
    * by rewrite <- app_assoc.
    * simpl. by rewrite <- app_assoc.
    * by rewrite Hheap, Hheap1, <- app_assoc.
    * constructor.
      -- rewrite Hheap, length_app. lia.
      -- eapply Forall_impl; [exact Hrange |]. simpl. intros a. lia.
    * by constructor.
    * constructor; [| done]. split.
      -- by rewrite Hfiles1, last_files.
      -- eapply named_app; [exact Hheap |]. exists d1. done.
    * rewrite Hcalls, Hcalls1. simpl. rewrite <- !app_assoc. done.
    * apply NoDup_cons. split.
      -- rewrite elem_of_app. intros [Hin|Hin].
         ++ apply (Hunmarked1 _ Hin). unfold marked. simpl.
            rewrite lookup_insert_eq. by eexists.
         ++ apply (Hunmarked _ Hin). apply Hmarks1'. tauto.
      -- apply NoDup_app. split_and!; [done | | done].
         intros c Hc1 Hc. apply (Hunmarked _ Hc). apply Hmarks1'. tauto.
    * intros c [->|[Hc|Hc]%elem_of_app]%elem_of_cons.
      -- done.
      -- intros Hm. apply (Hunmarked1 _ Hc). unfold marked. simpl.
         rewrite lookup_insert_is_Some.
         destruct (decide (ref = c)); [by left | right; split; [done | exact Hm]].
      -- intros Hm. apply (Hunmarked _ Hc). apply Hmarks1'. tauto.
    * intros r. rewrite Hmarks, Hmarks1', elem_of_cons, elem_of_app. tauto.
    * intros r [->|Hr]%elem_of_cons; [| by apply Hrefs].
      apply Hmarks, or_introl, Hmarks1'. left. by right.
    * intros r [->|Hr]%elem_of_cons; [apply list_elem_of_here |].
      apply list_elem_of_further, elem_of_app. auto.
Qed.

End Resolver.

(** ** The whole run *)

Lemma Forall3_named_fmap st resolved sets syms :
  Forall3 (λ r (set : FileDescriptorSet.t) sym,
             last (FileDescriptorSet.File set) = Some sym ∧
             named st sym (referenceFile r)) resolved sets syms →
  Forall2 (named st) syms (referenceFile <$> resolved).
Proof. induction 1 as [|r set sym ? ? ? [_ Hn] _ IH]; constructor; done. Qed.

Lemma Forall3_named_insert st st' p x resolved sets syms :
  heap st' = <[p := x]> (heap st) →
  Forall (λ a, a ≠ p) syms →
  Forall3 (λ r (set : FileDescriptorSet.t) sym,
             last (FileDescriptorSet.File set) = Some sym ∧
             named st sym (referenceFile r)) resolved sets syms →
  Forall3 (λ r (set : FileDescriptorSet.t) sym,
             last (FileDescriptorSet.File set) = Some sym ∧
             named st' sym (referenceFile r)) resolved sets syms.
Proof.
  intros Hheap Hne Hall. induction Hall as [|r set sym ? ? ? [Hl Hn] _ IH].
  - constructor.
  - apply Forall_cons in Hne as [Hsym Hne]. constructor; [| by apply IH].
    split; [done |].
    by apply (proj1 (named_insert_ne st st' p x sym _ Hheap Hsym)).
Qed.

Lemma insert_at_length {A} (l : list A) (x y : A) (k : list A) :
  <[length l := y]> (l ++ x :: k) = l ++ y :: k.
Proof.
  rewrite <- (Nat.add_0_r (length l)). by rewrite insert_app_r.
Qed.

Section Run.
Context `{Env}.

Lemma runFileDescriptorSetGenerator_S fuel renderer :
runFileDescriptorSetGenerator (S fuel) renderer =
(mainProto ← alloc (mainFileDescriptor (Renderer.Package renderer));
 fdSet ← buildDependencies (FileDescriptorSet.mk [mainProto]);
 '(fdSet, renderer) ←
   buildSymbolicReferences (runFileDescriptorSetGenerator fuel) fdSet
     renderer;
 buildMessagesFromTypes mainProto renderer;;
 renderer ← buildServiceFromMethods fuel mainProto renderer;
 addDependencies fdSet;;
 mret (fdSet, renderer)).
Proof. reflexivity. Qed.

(** A run that returns normally has done what [RunPost] says. *)
Lemma runFileDescriptorSetGenerator_post fuel :
∀ renderer st fdSet renderer' st',
runFileDescriptorSetGenerator fuel renderer st
  = Ok ((fdSet, renderer'), st') →
RunPost st renderer fdSet renderer' st'.
Proof.
induction fuel as [|fuel IH]; intros renderer st fdSet renderer' st' Hok;
  [discriminate |].
rewrite runFileDescriptorSetGenerator_S in Hok.
apply bind_Ok in Hok as (p & st1 & Halloc & Hok).
apply alloc_Ok in Halloc as [= -> ->].
apply bind_Ok in Hok as (fdSet1 & st2 & Hdeps & Hok).
rewrite buildDependencies_eq in Hdeps. injection Hdeps as <- <-.
apply bind_Ok in Hok as ([fdSet2 renderer2'] & st3' & Hsym & Hok).
unfold buildSymbolicReferences in Hsym.
apply bind_Ok in Hsym as (refs & st2' & Htrim & Hsym).
rewrite trimAndRemoveDuplicates_eq in Htrim.
apply lift_Ok in Htrim as (refs' & [= <-] & [= -> ->]).
apply bind_Ok in Hsym as ([renderer2 syms'] & st3 & Hloop & Hsym).
apply ret_Ok in Hsym as [= -> -> ->].
apply (resolveReferences_Ok _ IH) in Hloop
  as (resolved & sets & syms & new & calls & -> & -> & Hheap3 & Hrange
      & Hsub & Hall & Hcalls & Hnd & Hunmarked & Hmarks & Hrefs & Hres).
simpl in Hheap3, Hrange, Hcalls, Hunmarked, Hmarks.
rewrite !length_app in Hrange. simpl in Hrange.
set (p := length (heap st)) in *.
simpl in Hok. rewrite !length_app in Hok. simpl in Hok. fold p in Hok.
replace (p + 1)%nat with (S p) in Hok by lia.
assert (heap st3 = heap st ++ mainFileDescriptor (Renderer.Package renderer)
          :: annotationsFileDescriptor :: emptyFileDescriptor
          :: descriptorFileDescriptor :: new) as Hheap3'.
{ rewrite Hheap3. by rewrite <- !app_assoc. }
assert (heap st3 !! p = Some (mainFileDescriptor (Renderer.Package renderer)))
  as Hp.
{ rewrite Hheap3'. by apply list_lookup_middle. }
assert (Forall2 (named st3) [S p; S (S p); S (S (S p))] foundationNames)
  as Hfound.
{ assert (∀ k d, (annotationsFileDescriptor :: emptyFileDescriptor
                    :: descriptorFileDescriptor :: new) !! k = Some d →
                 heap st3 !! (S p + k)%nat = Some d) as Hk.
  { intros k d Hd. rewrite Hheap3'.
    rewrite lookup_app_r by (unfold p; lia).
    by replace (S p + k - length (heap st))%nat with (S k)
      by (unfold p; lia). }
  apply Forall2_cons. split.
  { exists annotationsFileDescriptor. split; [| done].
    by rewrite <- (Nat.add_0_r (S p)); apply Hk. }
  apply Forall2_cons. split.
  { exists emptyFileDescriptor. split; [| done].
    by replace (S (S p)) with (S p + 1)%nat by lia; apply Hk. }
  apply Forall2_cons. split; [| constructor].
  exists descriptorFileDescriptor. split; [| done].
  by replace (S (S (S p))) with (S p + 2)%nat by lia; apply Hk. }
assert (Forall (λ a, a ≠ p) (syms ++ [S p; S (S p); S (S (S p))])) as Hne.
{ apply Forall_app. split.
  - eapply Forall_impl; [exact Hrange |]. simpl. intros a. lia.
  - repeat constructor; lia. }
eapply (finish_Ok _ _ (syms ++ [S p; S (S p); S (S (S p))])) in Hok;
  [| by rewrite <- app_assoc | exact Hp |].
2: { intros Hin. rewrite Forall_forall in Hne. by apply (Hne p). }
destruct Hok as (d' & names & Hheap' & Hname & Hpkg & Hnames & Hdep & Hgen
                 & Hcalls' & Hpkg' & Hsets' & ->).
assert (names = (referenceFile <$> resolved) ++ foundationNames) as ->.
{ eapply Forall2_named_inj; [exact Hnames |].
  apply Forall2_app; [by eapply Forall3_named_fmap | done]. }
assert (length (heap st') = length (heap st3)) as Hlen.
{ by rewrite Hheap', length_insert. }
exists resolved, sets, syms,
  (d' :: annotationsFileDescriptor :: emptyFileDescriptor
      :: descriptorFileDescriptor :: new), calls, d'.
split_and!.
- done.
- eapply Forall_impl; [exact Hrange |]. simpl. intros a.
  rewrite Hlen, Hheap3, !length_app. simpl. lia.
- rewrite Hheap', Hheap3'. apply insert_at_length.
- rewrite Hheap'. apply list_lookup_insert_eq. by eapply lookup_lt_Some.
- by rewrite Hname.
- by rewrite Hpkg.
- by rewrite Hdep.
- eapply Forall2_impl_elem_of; [exact Hfound |].
  intros a n Hin Hn.
  refine (proj1 (named_insert_ne st3 st' p d' a n Hheap' _) Hn).
  rewrite Forall_forall in Hne. apply Hne. apply elem_of_app. by right.
- done.
- eapply Forall3_named_insert; [exact Hheap' | | exact Hall].
  by apply Forall_app in Hne as [? _].
- by rewrite Hsets'.
- by rewrite Hpkg'.
- by rewrite Hcalls', Hcalls.
- done.
- done.
- intros r. unfold marked. rewrite Hgen. apply Hmarks.
- intros r Hr. unfold marked. rewrite Hgen. apply Hrefs.
  by apply firstSeen_elem_of.
- done.
Qed.

End Run.

(** ** Order of the set and dependencies of the target *)

Lemma dependencyNames_elem_of flag names n :
  n ∈ dependencyNames flag names ↔
  n ∈ names ∧ (n ≠ "google/protobuf/empty.proto" ∨ flag = true).
Proof. unfold dependencyNames. rewrite list_elem_of_filter. tauto. Qed.

Lemma sort_Strings_Sorted l : Sorted String.le (sort_Strings l).
Proof. apply Sorted_merge_sort. apply _. Qed.

Lemma sort_Strings_elem_of l x : x ∈ sort_Strings l ↔ x ∈ l.
Proof. unfold sort_Strings. by rewrite merge_sort_Permutation. Qed.



Section RunProperties.
Context `{Env}.

(** Every run keeps [ResolvedOnce]. *)
Lemma runFileDescriptorSetGenerator_ResolvedOnce
  fuel renderer st fdSet renderer' st' :
runFileDescriptorSetGenerator fuel renderer st
  = Ok ((fdSet, renderer'), st') →
ResolvedOnce st → ResolvedOnce st'.
Proof.
intros Hrun [Hnd Hinv].
apply runFileDescriptorSetGenerator_post in Hrun
  as (resolved & sets & syms & new & calls & d & _ & _ & _ & _ & _ & _ & _
      & _ & _ & _ & _ & _ & Hcalls & Hnd' & Hunmarked & Hmarks & _ & _).
split.
- rewrite Hcalls. apply NoDup_app. split_and!; [done | | done].
  intros c Hc Hc'. apply (Hunmarked _ Hc'). by apply Hinv.
- intros r. rewrite Hmarks, Hcalls, elem_of_app, Hinv. done.
Qed.

(** [buildSymbolicReferences] puts pointers before the files of the set,
  whatever [run] does. *)
Lemma buildSymbolicReferences_prepends run fdSet renderer st fdSet' renderer' st' :
buildSymbolicReferences run fdSet renderer st
  = Ok ((fdSet', renderer'), st') →
∃ syms, FileDescriptorSet.File fdSet'
        = syms ++ FileDescriptorSet.File fdSet.
Proof.
unfold buildSymbolicReferences. intros Hok.
apply bind_Ok in Hok as (refs & st1 & _ & Hok).
apply bind_Ok in Hok as ([renderer1 syms] & st2 & _ & Hok).
apply ret_Ok in Hok as [= -> -> ->]. by exists syms.
Qed.

(** C4. The set a run returns ends with the pointer to the file the run
  created for its own document (fresh in the state the run started from,
  named after the package of the renderer); before it come the files of the
  references the run resolved and then the three foundation files, all of
  them other objects than the target. The two stages that change the set,
  [buildDependencies] and [buildSymbolicReferences], only put files in
  front of it; the later stages take the set as it is. *)
Theorem C4_target_file_is_last fuel renderer st fdSet renderer' st' :
runFileDescriptorSetGenerator fuel renderer st
  = Ok ((fdSet, renderer'), st') →
(∃ syms d,
   FileDescriptorSet.File fdSet =
     (syms ++ [S (length (heap st)); S (S (length (heap st)));
               S (S (S (length (heap st))))]) ++ [length (heap st)] ∧
   last (FileDescriptorSet.File fdSet) = Some (length (heap st)) ∧
   heap st !! length (heap st) = None ∧
   heap st' !! length (heap st) = Some d ∧
   FileDescriptorProto.Name d
     = Some (Renderer.Package renderer +:+ ".proto") ∧
   FileDescriptorProto.Package d = Some (Renderer.Package renderer) ∧
   Forall2 (named st')
     [S (length (heap st)); S (S (length (heap st)));
      S (S (S (length (heap st))))] foundationNames ∧
   Forall (λ a, S (S (S (length (heap st)))) < a < length (heap st'))%nat
     syms ∧
   (length (heap st)
      ∉ syms ++ [S (length (heap st)); S (S (length (heap st)));
                 S (S (S (length (heap st))))])) ∧
(∀ fdSet0 st0,
   ∃ deps st1,
     buildDependencies fdSet0 st0
       = Ok (FileDescriptorSet.mk (deps ++ FileDescriptorSet.File fdSet0),
             st1)) ∧
(∀ run fdSet0 renderer0 st0 fdSet1 renderer1 st1,
   buildSymbolicReferences run fdSet0 renderer0 st0
     = Ok ((fdSet1, renderer1), st1) →
   ∃ syms, FileDescriptorSet.File fdSet1
           = syms ++ FileDescriptorSet.File fdSet0).
Proof.
intros Hrun. split_and!.
- apply runFileDescriptorSetGenerator_post in Hrun
    as (resolved & sets & syms & new & calls & d & Hfiles & Hrange & _ & Hd
        & Hname & Hpkg & _ & Hfound & _).
  exists syms, d. split_and!; try done.
  + by rewrite Hfiles, <- app_assoc.
  + by rewrite Hfiles, last_files.
  + by apply lookup_ge_None.
  + rewrite elem_of_app, !elem_of_cons, elem_of_nil.
    rewrite Forall_forall in Hrange.
    intros [Hin|Hin]; [apply Hrange in Hin |]; lia.
- intros fdSet0 st0. rewrite buildDependencies_eq. eauto.
- intros run fdSet0 renderer0 st0 fdSet1 renderer1 st1.
  apply buildSymbolicReferences_prepends.
Qed.

(** C3 (as amended). The dependencies of the target file of a run are
  sorted in the byte-wise order of strings. They are the names of the other
  files of the set, the empty-type file left out unless
  [shouldRenderEmptyImport] is set; so the name of the target file is among
  them only if another file of the set bears it. *)
Theorem C3_dependencies_sorted_names_of_other_files
  fuel renderer st fdSet renderer' st' :
runFileDescriptorSetGenerator fuel renderer st
  = Ok ((fdSet, renderer'), st') →
∃ target others names d,
  last (FileDescriptorSet.File fdSet) = Some target ∧
  FileDescriptorSet.File fdSet = others ++ [target] ∧
  (target ∉ others) ∧
  Forall2 (named st') others names ∧
  heap st' !! target = Some d ∧
  FileDescriptorProto.Dependency d
    = sort_Strings (dependencyNames (shouldRenderEmptyImport st') names) ∧
  Sorted String.le (FileDescriptorProto.Dependency d) ∧
  (∀ n, n ∈ FileDescriptorProto.Dependency d ↔
        n ∈ names ∧
        (n ≠ "google/protobuf/empty.proto" ∨
         shouldRenderEmptyImport st' = true)) ∧
  (∀ n, FileDescriptorProto.Name d = Some n → n ∉ names →
        n ∉ FileDescriptorProto.Dependency d).
Proof.
intros Hrun.
apply runFileDescriptorSetGenerator_post in Hrun
  as (resolved & sets & syms & new & calls & d & Hfiles & Hrange & _ & Hd
      & _ & _ & Hdep & Hfound & _ & Hall & _).
exists (length (heap st)),
  (syms ++ [S (length (heap st)); S (S (length (heap st)));
            S (S (S (length (heap st))))]),
  ((referenceFile <$> resolved) ++ foundationNames), d.
assert (∀ n, n ∈ FileDescriptorProto.Dependency d ↔
          n ∈ (referenceFile <$> resolved) ++ foundationNames ∧
          (n ≠ "google/protobuf/empty.proto" ∨
           shouldRenderEmptyImport st' = true)) as Hmem.
{ intros n. by rewrite Hdep, sort_Strings_elem_of, dependencyNames_elem_of. }
split_and!; try done.
- by rewrite Hfiles, last_files.
- by rewrite Hfiles, <- app_assoc.
- rewrite elem_of_app, !elem_of_cons, elem_of_nil.
  rewrite Forall_forall in Hrange.
  intros [Hin|Hin]; [apply Hrange in Hin |]; lia.
- apply Forall2_app; [by eapply Forall3_named_fmap | done].
- rewrite Hdep. apply sort_Strings_Sorted.
- intros n _ Hn Hin. apply Hmem in Hin as [Hin _]. done.
Qed.


End RunProperties.


(** An instance: the run for [Example.modelMain], whose set ends with the
    file of the main document. *)
Lemma C4_witness :
  ∃ fdSet renderer' st' d,
    runFileDescriptorSetGenerator (H := Example.env) 5
      (Example.renderer "pet" Example.modelMain) initialState
    = Ok ((fdSet, renderer'), st') ∧
    FileDescriptorSet.File fdSet = [4; 8; 12; 1; 2; 3; 0]%nat ∧
    last (FileDescriptorSet.File fdSet) = Some 0%nat ∧
    heap st' !! 0%nat = Some d ∧
    FileDescriptorProto.Name d = Some "pet.proto".
Proof.
  eexists _, _, _.
  destruct (C4_target_file_is_last (H := Example.env) 5
    (Example.renderer "pet" Example.modelMain) initialState _ _ _
    ltac:(vm_compute; reflexivity))
    as [(syms & d & _ & Hlast & _ & Hd & Hname & _) _].
  exists d. split; [vm_compute; reflexivity |]. split; [reflexivity |].
  split; [exact Hlast |]. split; [exact Hd | exact Hname].
Defined.

(** An instance: the dependencies of the target file of the run for
    [Example.modelMain]. *)
Lemma C3_witness :
  ∃ fdSet renderer' st' d,
    runFileDescriptorSetGenerator (H := Example.env) 5
      (Example.renderer "pet" Example.modelMain) initialState
    = Ok ((fdSet, renderer'), st') ∧
    heap st' !! 0%nat = Some d ∧
    FileDescriptorProto.Dependency d
      = ["a.proto"; "b.proto"; "c.proto"; "google/api/annotations.proto";
         "google/protobuf/descriptor.proto"; "google/protobuf/empty.proto"] ∧
    Sorted String.le (FileDescriptorProto.Dependency d).
Proof.
  eexists _, _, _.
  destruct (C3_dependencies_sorted_names_of_other_files (H := Example.env) 5
    (Example.renderer "pet" Example.modelMain) initialState _ _ _
    ltac:(vm_compute; reflexivity))
    as (target & others & names & d & Hlast & _ & _ & _ & Hd & _ & Hsorted
        & _).
  injection Hlast as <-.
  exists d. split; [vm_compute; reflexivity |]. split; [exact Hd |].
  split; [| exact Hsorted].
  vm_compute in Hd. injection Hd as <-. reflexivity.
Defined.

(** C3 as stated fails when a referenced document has the base name of the
    package: the run for package [pets] whose model refers to [pets.yaml]
    lists [pets.proto], the name of its own target file, among the
    dependencies of that file. *)
Lemma C3_counterexample :
  ∃ d,
    targetFile
      (runFileDescriptorSetGenerator (H := Example.env) 3
         (Example.renderer "pets" Example.modelPets) initialState) = Some d ∧
    FileDescriptorProto.Name d = Some "pets.proto" ∧
    FileDescriptorProto.Dependency d
      = ["google/api/annotations.proto"; "google/protobuf/descriptor.proto";
         "pets.proto"] ∧
    "pets.proto" ∈ FileDescriptorProto.Dependency d.
Proof.
  eexists. split; [vm_compute; reflexivity |].
  split; [reflexivity |]. split; [reflexivity |].
  simpl. do 2 apply list_elem_of_further. apply list_elem_of_here.
Qed.


(** C2. [shouldRenderEmptyImport] is a variable of the package: once a run
    has set it, it stays set for the runs that follow. The model of the main
    document and the model of [b.yaml] declare one method each, with a
    parameter type and a response type, so neither run substitutes the empty
    type; [a.yaml], resolved first, declares a method without them. Both the
    file of [b.yaml] and the target file of the main run then depend on the
    empty-type file. *)
Theorem C2_empty_import_outlives_the_run_that_needs_it :
  existsb needsEmpty (Model.Methods Example.modelSiblings) = false ∧
  existsb needsEmpty (Model.Methods Example.modelB) = false ∧
  existsb needsEmpty (Model.Methods Example.modelA) = true ∧
  FileDescriptorProto.Name
    <$> fileAt (runFileDescriptorSetGenerator (H := Example.env) 3
                  (Example.renderer "pet" Example.modelSiblings) initialState)
          1
    = Some (Some "b.proto") ∧
  FileDescriptorProto.Dependency
    <$> fileAt (runFileDescriptorSetGenerator (H := Example.env) 3
                  (Example.renderer "pet" Example.modelSiblings) initialState)
          1
    = Some ["google/api/annotations.proto";
            "google/protobuf/descriptor.proto";
            "google/protobuf/empty.proto"] ∧
  FileDescriptorProto.Name
    <$> targetFile (runFileDescriptorSetGenerator (H := Example.env) 3
                      (Example.renderer "pet" Example.modelSiblings)
                      initialState)
    = Some (Some "pet.proto") ∧
  FileDescriptorProto.Dependency
    <$> targetFile (runFileDescriptorSetGenerator (H := Example.env) 3
                      (Example.renderer "pet" Example.modelSiblings)
                      initialState)
    = Some ["a.proto"; "b.proto"; "google/api/annotations.proto";
            "google/protobuf/descriptor.proto";
            "google/protobuf/empty.proto"].
Proof. split_and!; vm_compute; reflexivity. Qed.

(** ** Contents of the target file *)

Section Target.
Context `{Env}.

(** The name the loop returns is free, whatever the budget was. *)
Lemma findValidServiceName_loop_free names serviceName :
∀ fuel validServiceName ctr name,
findValidServiceName_loop fuel names serviceName validServiceName ctr
  = Ok name →
default false (names !! name) = false.
Proof.
induction fuel as [|fuel IH]; intros v ctr name Hok; [discriminate |].
simpl in Hok. destruct (default false (names !! v)) eqn:Hv; simpl in Hok.
- by eapply IH.
- by injection Hok as <-.
Qed.

Lemma findValidServiceName_free fuel messages serviceName name :
Forall (λ m, is_Some (DescriptorProto.Name m)) messages →
findValidServiceName fuel messages serviceName = Ok name →
Some name ∉ messageNames messages.
Proof.
intros Hnamed Hok. unfold findValidServiceName in Hok.
destruct (collectMessageNames_Ok messages ∅ Hnamed) as (names & Hc & Hnames).
rewrite Hc in Hok. simpl in Hok.
apply findValidServiceName_loop_free in Hok.
intros Hin. assert (default false (names !! name) = true) as Ht.
{ apply Hnames. by left. }
congruence.
Qed.

(** [buildServiceFromMethods], when it returns normally, with the service
  it wrote. *)
Lemma buildServiceFromMethods_service fuel descr renderer st renderer' st' :
buildServiceFromMethods fuel descr renderer st = Ok (renderer', st') →
∃ d serviceName,
  heap st !! descr = Some d ∧
  findValidServiceName fuel (FileDescriptorProto.MessageType d)
    (strings_Title (Renderer.Package renderer)) = Ok serviceName ∧
  st' = set_heap
          (<[descr := set_Service
                        [serviceOf (Renderer.Model renderer) serviceName]
                        d]> (heap st))
          (markEmpty
             (existsb needsEmpty (Model.Methods (Renderer.Model renderer)))
             st).
Proof.
unfold buildServiceFromMethods. intros Hok.
apply bind_Ok in Hok as (d & st1 & Hload & Hok).
apply load_Ok in Hload as (d' & Hd & [= -> ->]).
apply bind_Ok in Hok as (serviceName & st2 & Hname & Hok).
apply lift_Ok in Hname as (name' & Hname & [= -> ->]).
apply bind_Ok in Hok as ([methods mDescrs] & st3 & Hmethods & Hok).
rewrite buildMethods_eq in Hmethods. injection Hmethods as <- <- <-.
apply bind_Ok in Hok as ([] & st4 & Hstore & Hok).
apply store_Ok in Hstore as (_ & [= ->]).
apply ret_Ok in Hok as [= -> ->].
exists d', name'. rewrite markEmpty_heap. done.
Qed.

(** The last three stages of a run write the messages, the service and the
  dependencies of the file behind [p]. *)
Lemma finish_target fuel p others fdSet renderer st d :
∀ fdSet' renderer' st',
(buildMessagesFromTypes p renderer;;
 renderer ← buildServiceFromMethods fuel p renderer;
 addDependencies fdSet;;
 mret (fdSet, renderer)) st = Ok ((fdSet', renderer'), st') →
FileDescriptorSet.File fdSet = others ++ [p] →
heap st !! p = Some d →
∃ msgs serviceName deps,
  Forall2 (builtFrom (Renderer.Package renderer))
    (Model.Types (Renderer.Model renderer)) msgs ∧
  findValidServiceName fuel (FileDescriptorProto.MessageType d ++ msgs)
    (strings_Title (Renderer.Package renderer)) = Ok serviceName ∧
  heap st' !! p =
    Some (FileDescriptorProto.mk (FileDescriptorProto.Name d)
            (FileDescriptorProto.Package d) deps
            (FileDescriptorProto.MessageType d ++ msgs)
            [serviceOf (Renderer.Model renderer) serviceName]
            (FileDescriptorProto.Extension d)
            (FileDescriptorProto.Syntax d)) ∧
  shouldRenderEmptyImport st' =
    shouldRenderEmptyImport st
    || existsb needsEmpty (Model.Methods (Renderer.Model renderer)).
Proof.
intros fdSet' renderer' st' Hok Hfiles Hd.
apply bind_Ok in Hok as ([] & st1 & Hmsgs & Hok).
unfold buildMessagesFromTypes in Hmsgs.
apply buildMessages_Ok in Hmsgs as (msgs & Hall & Hheap1 & _ & _ & Hf1 & _).
specialize (Hheap1 _ Hd).
apply bind_Ok in Hok as (renderer1 & st2 & Hsvc & Hok).
apply buildServiceFromMethods_service in Hsvc
  as (d1 & serviceName & Hd1 & Hname & ->).
rewrite Hheap1 in Hd1.
rewrite list_lookup_insert_eq in Hd1 by (by eapply lookup_lt_Some).
injection Hd1 as <-.
apply bind_Ok in Hok as ([] & st3 & Hadd & Hok).
apply ret_Ok in Hok as [= -> -> ->].
apply addDependencies_Ok in Hadd as (q & l & names & Hq & Hl & _ & ->).
rewrite Hfiles, last_snoc in Hq. injection Hq as <-.
simpl in Hl. rewrite list_lookup_insert_eq in Hl.
2: { rewrite Hheap1, length_insert. by eapply lookup_lt_Some. }
injection Hl as <-.
eexists msgs, serviceName, _. split_and!.
- done.
- exact Hname.
- simpl. rewrite list_lookup_insert_eq; [reflexivity |].
  rewrite length_insert, Hheap1, length_insert. by eapply lookup_lt_Some.
- simpl. rewrite markEmpty_flag. by rewrite Hf1.
Qed.

(** X1. The target file of a run that returns normally, field by field: it
  is named after the package and has the syntax [proto3]; its messages are
  the ones built from the types of the model, in their order; it has one
  service, whose name no message bears, with one method descriptor per
  method of the model, in their order, the input and output types being the
  declared type names, or [google.protobuf.Empty] where they are empty; if
  some method needed that substitution, [shouldRenderEmptyImport] is set
  and the empty-type file is among the dependencies; and the empty-type
  file is among the dependencies exactly when [shouldRenderEmptyImport] is
  set once the run is over. *)
Theorem X1_contents_of_the_target_file fuel renderer st fdSet renderer' st' :
runFileDescriptorSetGenerator fuel renderer st
  = Ok ((fdSet, renderer'), st') →
∃ msgs serviceName deps,
  heap st' !! length (heap st) =
    Some (FileDescriptorProto.mk
            (Some (Renderer.Package renderer +:+ ".proto"))
            (Some (Renderer.Package renderer)) deps msgs
            [serviceOf (Renderer.Model renderer) serviceName] []
            (Some "proto3")) ∧
  Forall2 (builtFrom (Renderer.Package renderer))
    (Model.Types (Renderer.Model renderer)) msgs ∧
  (Some serviceName ∉ messageNames msgs) ∧
  Forall2
    (λ method md,
       MethodDescriptorProto.Name md = Some (Method.HandlerName method) ∧
       MethodDescriptorProto.InputType md
         = Some (orEmpty (Method.ParametersTypeName method)) ∧
       MethodDescriptorProto.OutputType md
         = Some (orEmpty (Method.ResponsesTypeName method)))
    (Model.Methods (Renderer.Model renderer))
    (ServiceDescriptorProto.Method
       (serviceOf (Renderer.Model renderer) serviceName)) ∧
  (existsb needsEmpty (Model.Methods (Renderer.Model renderer)) = true →
   shouldRenderEmptyImport st' = true) ∧
  ("google/protobuf/empty.proto" ∈ deps ↔
   shouldRenderEmptyImport st' = true).
Proof.
intros Hrun.
pose proof (C := runFileDescriptorSetGenerator_post _ _ _ _ _ _ Hrun).
destruct C as (resolved & sets0 & syms0 & new0 & calls0 & d0 & _ & _ & _
               & Hd0 & _ & _ & Hdep0 & _).
destruct fuel as [|fuel]; [discriminate |].
rewrite runFileDescriptorSetGenerator_S in Hrun.
apply bind_Ok in Hrun as (p & st1 & Halloc & Hok).
apply alloc_Ok in Halloc as [= -> ->].
apply bind_Ok in Hok as (fdSet1 & st2 & Hdeps & Hok).
rewrite buildDependencies_eq in Hdeps. injection Hdeps as <- <-.
apply bind_Ok in Hok as ([fdSet2 renderer2'] & st3' & Hsym & Hok).
unfold buildSymbolicReferences in Hsym.
apply bind_Ok in Hsym as (refs & st2' & Htrim & Hsym).
rewrite trimAndRemoveDuplicates_eq in Htrim.
apply lift_Ok in Htrim as (refs' & [= <-] & [= -> ->]).
apply bind_Ok in Hsym as ([renderer2 syms'] & st3 & Hloop & Hsym).
apply ret_Ok in Hsym as [= -> -> ->].
apply (resolveReferences_Ok _ (runFileDescriptorSetGenerator_post fuel))
  in Hloop
  as (resolved' & sets & syms & new & calls & -> & -> & Hheap3 & _).
simpl in Hheap3.
set (p := length (heap st)) in *.
simpl in Hok. rewrite !length_app in Hok. simpl in Hok. fold p in Hok.
replace (p + 1)%nat with (S p) in Hok by lia.
assert (heap st3 !! p = Some (mainFileDescriptor (Renderer.Package renderer)))
  as Hp.
{ rewrite Hheap3, <- !app_assoc. by apply list_lookup_middle. }
eapply (finish_target _ _ (syms ++ [S p; S (S p); S (S (S p))])) in Hok;
  [| by rewrite <- app_assoc | exact Hp].
destruct Hok as (msgs & serviceName & deps & Hall & Hname & Hd' & Hflag).
simpl in Hall, Hname, Hd', Hflag.
exists msgs, serviceName, deps. split_and!.
- exact Hd'.
- exact Hall.
- eapply findValidServiceName_free; [| exact Hname].
  eapply Forall_forall. intros m Hm.
  apply list_elem_of_lookup in Hm as [i Hi].
  destruct (Forall2_lookup_r _ _ _ _ _ Hall Hi) as (t & _ & Hb & _).
  by rewrite Hb.
- unfold serviceOf. simpl. apply Forall2_fmap_r, Forall_Forall2_diag.
  by apply Forall_forall.
- intros Hneeds. rewrite Hflag, Hneeds. apply orb_true_r.
- pose proof (eq_trans (eq_sym Hd0) Hd') as Heq. injection Heq as ->.
  simpl in Hdep0. rewrite Hdep0, sort_Strings_elem_of,
    dependencyNames_elem_of, elem_of_app.
  split; [intros [_ [?|?]]; done |]. intros Hf. split; [| by right].
  right. unfold foundationNames.
  apply list_elem_of_further, list_elem_of_here.
Qed.

End Target.

(** An instance: the target file of the run for [Example.modelMain]. *)
Lemma X1_witness :
  ∃ fdSet renderer' st' msgs deps,
    runFileDescriptorSetGenerator (H := Example.env) 5
      (Example.renderer "pet" Example.modelMain) initialState
    = Ok ((fdSet, renderer'), st') ∧
    heap st' !! 0%nat =
      Some (FileDescriptorProto.mk (Some "pet.proto") (Some "pet") deps msgs
              [serviceOf (H := Example.env) Example.modelMain "PetService"]
              [] (Some "proto3")) ∧
    DescriptorProto.Name <$> msgs = [Some "Pet"].
Proof.
  eexists _, _, _.
  destruct (X1_contents_of_the_target_file (H := Example.env) 5
    (Example.renderer "pet" Example.modelMain) initialState _ _ _
    ltac:(vm_compute; reflexivity))
    as (msgs & serviceName & deps & Hd & _).
  vm_compute in Hd. injection Hd as <- <- <-.
  eexists _, _. split; [vm_compute; reflexivity |].
  split; vm_compute; reflexivity.
Defined.

(** ** Runs that return *)

Section Totality.
Context `{Env}.

Lemma buildField_total t packageName i f message st :
sliceable f →
∃ message' st', buildField t packageName i f message st = Ok (message', st').
Proof.
intros Hs.
destruct (buildField_cases t packageName i f message st)
  as (lines & ty & _ & Heq).
simpl in Heq. rewrite Heq. clear Heq.
destruct (decide (Field.Kind f = FieldKind_MAP)) as [Hk|Hk]; [| eauto].
destruct (strings.Contains (Field.NativeType f) "map[string][]") eqn:Hc;
  [eauto |].
rewrite buildMapDescriptorProto_eq.
destruct (slice_from_total (Field.NativeType f) 11) as [v ->]; [| simpl; eauto].
apply Hs; [done |]. unfold skipped. rewrite Hc. apply andb_false_r.
Qed.

Lemma buildFields_total t packageName fields : ∀ i message st,
Forall sliceable fields →
∃ message' st',
  buildFields t packageName i fields message st = Ok (message', st').
Proof.
induction fields as [|f fields IH]; intros i message st Hall; [by eexists _, _ |].
apply Forall_cons in Hall as [Hf Hall].
destruct (buildField_total t packageName i f message st Hf)
  as (m1 & st1 & H1).
destruct (IH (S i) m1 st1 Hall) as (m2 & st2 & H2).
exists m2, st2. simpl. apply bind_Ok. eauto.
Qed.

Lemma buildMessages_total descr packageName types : ∀ st d,
heap st !! descr = Some d →
Forall (λ t, Forall sliceable (SType.Fields t)) types →
∃ st', buildMessages descr packageName types st = Ok (tt, st').
Proof.
induction types as [|t types IH]; intros st d Hd Hall; [by eexists |].
apply Forall_cons in Hall as [Ht Hall].
destruct (buildFields_total t packageName (SType.Fields t) 0%nat
            (DescriptorProto.mk (Some (SType.TypeName t)) [] [] [] None)
            st Ht) as (message & st1 & Hmsg).
fold (buildMessage t packageName) in Hmsg.
destruct (buildMessage_Ok _ _ _ _ _ Hmsg) as [[Hname _] [lines ->]].
assert (heap (appendLog lines st) !! descr = Some d) as Hd1 by done.
set (st2 := set_heap (<[descr := add_MessageType message d]>
                        (heap (appendLog lines st))) (appendLog lines st)).
set (st3 := set_generatedMessages
              (<[SType.TypeName t :=
                   packageName +:+ "." +:+ SType.TypeName t]>
                 (generatedMessages st2)) st2).
destruct (IH st3 (add_MessageType message d)) as [st' Hrest]; [| done |].
{ simpl. apply list_lookup_insert_eq. by eapply lookup_lt_Some. }
exists st'. simpl.
apply bind_Ok. eexists _, _. split; [exact Hmsg |].
apply bind_Ok. eexists _, _. split; [apply load_Ok; eauto |].
apply bind_Ok. eexists _, _. split; [apply store_Ok; eauto |].
apply bind_Ok. eexists _, _. split.
{ apply lift_Ok. rewrite Hname. simpl. eauto. }
apply bind_Ok. eexists _, _. split; [by apply modify_Ok |].
exact Hrest.
Qed.

Lemma collectDependencies_total lastFdProto st files : ∀ dependency,
Forall (λ a, a ≠ lastFdProto → ∃ n, named st a n) files →
∃ deps, collectDependencies lastFdProto files dependency st = Ok (deps, st).
Proof.
induction files as [|fd files IH]; intros dependency Hall; [by eexists |].
apply Forall_cons in Hall as [Hfd Hall]. simpl.
destruct (decide (fd ≠ lastFdProto)) as [Hne|Heq]; [| by apply IH].
destruct (Hfd Hne) as (n & d & Hd & Hn).
destruct (decide (n = "google/protobuf/empty.proto")) as [He|He].
- destruct (IH (if shouldRenderEmptyImport st then dependency ++ [n]
                else dependency) Hall) as [deps Hdeps].
  exists deps.
  apply bind_Ok. eexists _, _. split; [apply load_Ok; eauto |].
  apply bind_Ok. eexists _, _. split.
  { apply lift_Ok. rewrite Hn. simpl. eauto. }
  apply bind_Ok. eexists _, _. split; [by apply get_Ok |].
  by rewrite decide_True by done.
- destruct (IH (dependency ++ [n]) Hall) as [deps Hdeps].
  exists deps.
  apply bind_Ok. eexists _, _. split; [apply load_Ok; eauto |].
  apply bind_Ok. eexists _, _. split.
  { apply lift_Ok. rewrite Hn. simpl. eauto. }
  apply bind_Ok. eexists _, _. split; [by apply get_Ok |].
  by rewrite decide_False by done.
Qed.

Lemma addDependencies_total fdSet st others p l :
FileDescriptorSet.File fdSet = others ++ [p] →
heap st !! p = Some l →
Forall (λ a, ∃ n, named st a n) others →
∃ st', addDependencies fdSet st = Ok (tt, st').
Proof.
intros Hfiles Hl Hall.
destruct (collectDependencies_total p st (FileDescriptorSet.File fdSet)
            (FileDescriptorProto.Dependency l)) as [deps Hdeps].
{ rewrite Hfiles. apply Forall_app. split.
  - eapply Forall_impl; [exact Hall |]. auto.
  - apply Forall_singleton. done. }
eexists. unfold addDependencies.
apply bind_Ok. eexists _, _. split.
{ apply lift_Ok. eexists. split; [| reflexivity].
  apply getLast_Ok. by rewrite Hfiles, last_snoc. }
apply bind_Ok. eexists _, _. split; [apply load_Ok; eauto |].
apply bind_Ok. eexists _, _. split; [exact Hdeps |].
apply store_Ok. eauto.
Qed.

(** X2. A run on a model without symbolic references returns normally,
  from any state, once the budget exceeds the number of types by two,
  provided every map field that is kept declares a type of at least 11
  bytes (and the number of types fits an [int]). *)
Theorem X2_run_without_references_returns fuel renderer st :
Model.SymbolicReferences (Renderer.Model renderer) = [] →
Forall (λ t, Forall sliceable (SType.Fields t))
  (Model.Types (Renderer.Model renderer)) →
Z.of_nat (length (Model.Types (Renderer.Model renderer))) < 2 ^ 63 →
(length (Model.Types (Renderer.Model renderer)) + 2 ≤ fuel)%nat →
∃ renderer' st',
  runFileDescriptorSetGenerator fuel renderer st
  = Ok ((FileDescriptorSet.mk
           [S (length (heap st)); S (S (length (heap st)));
            S (S (S (length (heap st)))); length (heap st)],
         renderer'), st').
Proof.
intros Hrefs Hwf Hint Hfuel.
destruct fuel as [|fuel]; [lia |].
set (p := length (heap st)).
set (st3 := set_heap
              (heap (set_heap
                       (heap st
                          ++ [mainFileDescriptor (Renderer.Package renderer)])
                       st)
                 ++ [annotationsFileDescriptor; emptyFileDescriptor;
                     descriptorFileDescriptor])
              (set_heap
                 (heap st ++ [mainFileDescriptor (Renderer.Package renderer)])
                 st)).
assert (heap st3 = heap st
          ++ [mainFileDescriptor (Renderer.Package renderer);
              annotationsFileDescriptor; emptyFileDescriptor;
              descriptorFileDescriptor]) as Hheap3.
{ simpl. by rewrite <- app_assoc. }
assert (heap st3 !! p = Some (mainFileDescriptor (Renderer.Package renderer)))
  as Hp.
{ rewrite Hheap3. by apply list_lookup_middle. }
destruct (buildMessages_total p (Renderer.Package renderer) _ st3 _ Hp Hwf)
  as [st4 Hmsgs].
destruct (buildMessages_Ok _ _ _ _ _ Hmsgs)
  as (msgs & Hall & Hheap4 & _).
specialize (Hheap4 _ Hp).
assert (length msgs = length (Model.Types (Renderer.Model renderer)))
  as Hlen by (symmetry; by eapply Forall2_length).
assert (heap st4 !! p
        = Some (add_MessageTypes msgs
                  (mainFileDescriptor (Renderer.Package renderer)))) as Hp4.
{ rewrite Hheap4. apply list_lookup_insert_eq. by eapply lookup_lt_Some. }
destruct (buildServiceFromMethods_Ok fuel p renderer st4 _ Hp4)
  as (k & renderer' & _ & _ & _ & _ & _ & Hsvc).
{ simpl. eapply Forall_forall. intros m Hm.
  apply list_elem_of_lookup in Hm as [i Hi].
  destruct (Forall2_lookup_r _ _ _ _ _ Hall Hi) as (t & _ & Hb & _).
  by rewrite Hb. }
{ simpl. lia. }
{ simpl. lia. }
simpl in Hsvc.
match type of Hsvc with _ = Ok (_, ?s) => set (st5 := s) in * end.
assert (∀ k d, [annotationsFileDescriptor; emptyFileDescriptor;
                descriptorFileDescriptor] !! k = Some d →
               heap st5 !! (S p + k)%nat = Some d) as Hk.
{ intros j d Hd. unfold st5. simpl.
  rewrite list_lookup_insert_ne by lia. rewrite Hheap4.
  rewrite list_lookup_insert_ne by lia. rewrite Hheap3.
  rewrite lookup_app_r by (unfold p; lia).
  replace (S (p + j) - length (heap st))%nat with (S j) by (unfold p; lia).
  exact Hd. }
destruct (addDependencies_total
            (FileDescriptorSet.mk [S p; S (S p); S (S (S p)); p]) st5
            [S p; S (S p); S (S (S p))] p
            (set_Service
               [ServiceDescriptorProto.mk
                  (Some (candidate
                           (strings_Title (Renderer.Package renderer)) k))
                  (methodDescriptor (Model.Types (Renderer.Model renderer))
                     <$> Model.Methods (Renderer.Model renderer))]
               (add_MessageTypes msgs
                  (mainFileDescriptor (Renderer.Package renderer)))))
  as [st6 Hadd].
{ done. }
{ unfold st5. simpl. apply list_lookup_insert_eq.
  by eapply lookup_lt_Some. }
{ apply Forall_cons. split.
  { exists "google/api/annotations.proto", annotationsFileDescriptor.
    split; [| done]. by rewrite <- (Nat.add_0_r (S p)); apply Hk. }
  apply Forall_cons. split.
  { exists "google/protobuf/empty.proto", emptyFileDescriptor.
    split; [| done]. by replace (S (S p)) with (S p + 1)%nat by lia; apply Hk. }
  apply Forall_cons. split; [| constructor].
  exists "google/protobuf/descriptor.proto", descriptorFileDescriptor.
  split; [| done].
  by replace (S (S (S p))) with (S p + 2)%nat by lia; apply Hk. }
exists renderer', st6.
rewrite runFileDescriptorSetGenerator_S.
apply bind_Ok. eexists _, _. split; [by apply alloc_Ok |].
apply bind_Ok. eexists _, _. split; [apply buildDependencies_eq |].
apply bind_Ok.
exists (FileDescriptorSet.mk [S p; S (S p); S (S (S p)); p], renderer), st3.
split.
{ unfold buildSymbolicReferences. rewrite Hrefs. simpl.
  rewrite !length_app. simpl. fold p.
  by replace (p + 1)%nat with (S p) by lia. }
apply bind_Ok. eexists _, _. split; [exact Hmsgs |].
apply bind_Ok. eexists _, _. split; [exact Hsvc |].
apply bind_Ok. eexists _, _. split; [exact Hadd |].
done.
Qed.

End Totality.

(** An instance: a model with two types and one method. *)
Lemma X2_witness :
  ∃ renderer' st',
    runFileDescriptorSetGenerator (H := Example.env) 4
      (Example.renderer "pets" (Model.mk [Example.Pet; Example.Project]
                                  [Example.getPet] []))
      initialState
    = Ok ((FileDescriptorSet.mk [1; 2; 3; 0]%nat, renderer'), st').
Proof.
  apply (X2_run_without_references_returns (H := Example.env) 4
    (Example.renderer "pets" (Model.mk [Example.Pet; Example.Project]
                                [Example.getPet] []))
    initialState).
  - reflexivity.
  - cbv - [sliceable].
    repeat (cbn [SType.Fields];
            first [apply Forall_nil | apply Forall_cons; split]);
      try exact I; intros Hk Hs;
      first [discriminate Hk | by vm_compute in Hs | simpl; lia].
  - simpl. lia.
  - simpl. lia.
Defined.

(** ** Normalised references and labels *)

(** X3. [trimAndRemoveDuplicates] never fails: it returns the URLs without
    their fragments, each once, in the order in which they are first seen. *)
Theorem X3_references_without_fragments_first_seen (urls : list string) :
  trimAndRemoveDuplicates urls = Ok (firstSeen (fragmentless <$> urls)) ∧
  NoDup (firstSeen (fragmentless <$> urls)) ∧
  (∀ r, r ∈ firstSeen (fragmentless <$> urls) ↔ r ∈ fragmentless <$> urls) ∧
  firstSeen (fragmentless <$> urls) `sublist_of` fragmentless <$> urls.
Proof.
  split_and!.
  - apply trimAndRemoveDuplicates_eq.
  - apply firstSeen_NoDup.
  - intros r. apply firstSeen_elem_of.
  - apply firstSeen_sublist.
Qed.


(** X5. No reference is resolved twice: the references handed to [gnostic]
    are the marked ones, without repetition, when the program starts, and a
    run that returns normally keeps it so. *)
Theorem X5_no_reference_is_resolved_twice `{Env} :
  ResolvedOnce initialState ∧
  ∀ fuel renderer st fdSet renderer' st',
    runFileDescriptorSetGenerator fuel renderer st
      = Ok ((fdSet, renderer'), st') →
    ResolvedOnce st → ResolvedOnce st'.
Proof.
  split.
  - split; [constructor |]. intros r. unfold marked. simpl.
    rewrite lookup_empty. split; [by intros [? ?] | by intros ?%elem_of_nil].
  - intros fuel renderer st fdSet renderer' st'.
    apply runFileDescriptorSetGenerator_ResolvedOnce.
Qed.

(** ** The table of scalar types *)

(** The table, as the list of its entries. *)
Lemma protoBufScalarTypes_lookup n ty :
  protoBufScalarTypes !! n = Some ty →
  (n, ty) ∈ [("double", TYPE_DOUBLE); ("float", TYPE_FLOAT);
             ("int64", TYPE_INT64); ("uint64", TYPE_UINT64);
             ("int32", TYPE_INT32); ("fixed64", TYPE_FIXED64);
             ("fixed32", TYPE_FIXED32); ("bool", TYPE_BOOL);
             ("string", TYPE_STRING); ("bytes", TYPE_BYTES);
             ("uint32", TYPE_UINT32); ("sfixed32", TYPE_SFIXED32);
             ("sfixed64", TYPE_SFIXED64); ("sint32", TYPE_SINT32);
             ("sint64", TYPE_SINT64)].
Proof.
  unfold protoBufScalarTypes, getProtobufTypes. intros Hl.
  repeat (apply lookup_insert_Some in Hl as [[<- <-]|[_ Hl]];
          [set_solver |]).
  by rewrite lookup_empty in Hl.
Qed.

Lemma protoBufScalarTypes_short n ty :
  protoBufScalarTypes !! n = Some ty →
  (String.length n ≤ 8)%nat ∧
  ty ≠ TYPE_MESSAGE ∧ ty ≠ TYPE_ENUM ∧ ty ≠ TYPE_GROUP.
Proof.
  intros Hl%protoBufScalarTypes_lookup.
  repeat (apply elem_of_cons in Hl as [[= -> ->]|Hl];
          [split; [simpl; lia | done] |]).
  by apply elem_of_nil in Hl.
Qed.

Lemma protoBufScalarTypes_inj n1 n2 ty :
  protoBufScalarTypes !! n1 = Some ty →
  protoBufScalarTypes !! n2 = Some ty → n1 = n2.
Proof.
  intros H1%protoBufScalarTypes_lookup H2%protoBufScalarTypes_lookup.
  repeat (apply elem_of_cons in H1 as [H1|H1]);
    [.. | by apply elem_of_nil in H1];
    injection H1 as -> ->;
    (repeat (apply elem_of_cons in H2 as [H2|H2]);
     [.. | by apply elem_of_nil in H2]); by simplify_eq.
Qed.

(** X6. The type of a field is never nil and never a group. A declared type
    of the table of scalar types gets its scalar type, enum values or not,
    and no type name as a map value; any other declared type is an enum if
    the field has enum values and a message otherwise, and is its own type
    name as a map value. The table maps different names to different types,
    none of them longer than 8 bytes, so that no map type is a scalar. *)
Theorem X6_scalar_names_win_over_enum_values
    (nativeType : string) (enumValues : option (list string)) :
  (∃ ty, getFieldDescriptorType nativeType enumValues = Some ty ∧
         ty ≠ TYPE_GROUP) ∧
  (∀ ty, protoBufScalarTypes !! nativeType = Some ty →
         getFieldDescriptorType nativeType enumValues = Some ty ∧
         getTypeNameForMapValueType nativeType = None ∧
         ty ≠ TYPE_MESSAGE ∧ ty ≠ TYPE_ENUM ∧
         (String.length nativeType ≤ 8)%nat) ∧
  (protoBufScalarTypes !! nativeType = None →
   getFieldDescriptorType nativeType enumValues
     = Some (match enumValues with
             | Some _ => TYPE_ENUM
             | None => TYPE_MESSAGE
             end) ∧
   getTypeNameForMapValueType nativeType = Some nativeType) ∧
  (∀ other ty, protoBufScalarTypes !! nativeType = Some ty →
               protoBufScalarTypes !! other = Some ty →
               other = nativeType).
Proof.
  unfold getFieldDescriptorType, getTypeNameForMapValueType.
  destruct (protoBufScalarTypes !! nativeType) as [ty|] eqn:Hl.
  - destruct (protoBufScalarTypes_short _ _ Hl) as (Hlen & Hm & He & Hg).
    split_and!.
    + eauto.
    + by intros ty' [= <-].
    + discriminate.
    + intros other ty' [= <-] Ho. by eapply protoBufScalarTypes_inj.
  - split_and!.
    + destruct enumValues; eauto.
    + discriminate.
    + by destruct enumValues.
    + discriminate.
Qed.

(** ** Nested types, enums and type names of the messages *)

Lemma typed_keyField : typed keyField.
Proof.
  exists TYPE_STRING. split; [done |]. simpl.
  split; [by intros [? ?] | by intros [?|?]].
Qed.

Lemma typed_valueField v enumValues : typed (valueField v enumValues).
Proof.
  unfold typed, valueField, getFieldDescriptorType, getTypeNameForMapValueType.
  simpl. destruct (protoBufScalarTypes !! v) as [ty|] eqn:Hl.
  - destruct (protoBufScalarTypes_short _ _ Hl) as (_ & Hm & He & _).
    exists ty. split; [done |]. split; [by intros [? ?] | by intros [?|?]].
  - destruct enumValues; eexists; (split; [done |]); split; eauto.
Qed.

Section Structure.
Context `{Env}.

(** What the loop over the fields adds to the nested types and the enums of
  the message, and the type names of what it adds to the fields. *)
Lemma buildFields_structure t packageName fields :
∀ i message st message' st',
buildFields t packageName i fields message st = Ok (message', st') →
DescriptorProto.NestedType message'
  = DescriptorProto.NestedType message ++ omap entryOf fields ∧
DescriptorProto.EnumType message'
  = DescriptorProto.EnumType message ++ omap enumOf fields ∧
DescriptorProto.Options message' = DescriptorProto.Options message ∧
(Forall typed (DescriptorProto.Field message) →
 Forall typed (DescriptorProto.Field message')).
Proof.
induction fields as [|f fields IH]; intros i message st message' st' Hok.
- injection Hok as <- <-. by rewrite !app_nil_r.
- simpl in Hok. apply bind_Ok in Hok as (m1 & st1 & Hf & Hrest).
  apply IH in Hrest as (Hn & He & Ho & Ht).
  rewrite Hn, He, Ho. clear IH Hn He Ho.
  destruct (buildField_cases t packageName i f message st)
    as (lines & ty & Hty & Heq).
  simpl in Heq. rewrite Heq in Hf. clear Heq.
  assert (∀ m, DescriptorProto.NestedType
      match Field.EnumValues f with
      | Some _ => add_EnumType (buildEnumDescriptorProto f) m
      | None => m
      end = DescriptorProto.NestedType m) as Hnested
    by (intros; by destruct (Field.EnumValues f)).
  assert (∀ m, DescriptorProto.Field
      match Field.EnumValues f with
      | Some _ => add_EnumType (buildEnumDescriptorProto f) m
      | None => m
      end = DescriptorProto.Field m) as Hfield
    by (intros; by destruct (Field.EnumValues f)).
  assert (∀ m, DescriptorProto.Options
      match Field.EnumValues f with
      | Some _ => add_EnumType (buildEnumDescriptorProto f) m
      | None => m
      end = DescriptorProto.Options m) as Hoptions
    by (intros; by destruct (Field.EnumValues f)).
  assert (∀ m, DescriptorProto.EnumType
      match Field.EnumValues f with
      | Some _ => add_EnumType (buildEnumDescriptorProto f) m
      | None => m
      end = DescriptorProto.EnumType m
            ++ match enumOf f with Some e => [e] | None => [] end) as Henum.
  { intros m. unfold enumOf. destruct (Field.EnumValues f); simpl; [done |].
    by rewrite app_nil_r. }
  assert (omap enumOf (f :: fields)
          = match enumOf f with Some e => [e] | None => [] end
            ++ omap enumOf fields) as ->
    by (simpl; by destruct (enumOf f)).
  assert (omap entryOf (f :: fields)
          = match entryOf f with Some e => [e] | None => [] end
            ++ omap entryOf fields) as ->
    by (simpl; by destruct (entryOf f)).
  rewrite !app_assoc. unfold entryOf.
  destruct (decide (Field.Kind f = FieldKind_MAP)) as [Hk|Hk].
  + destruct (strings.Contains (Field.NativeType f) "map[string][]").
    * injection Hf as <- <-. rewrite Hfield in Ht.
      rewrite Hnested, Henum, Hoptions, app_nil_r. done.
    * rewrite buildMapDescriptorProto_eq in Hf.
      destruct (slice_from (Field.NativeType f) 11) as [v| | |] eqn:Hs;
        simpl in Hf; try discriminate.
      injection Hf as <- <-. simpl in Ht |- *. rewrite Hfield in Ht.
      rewrite Hnested, Henum, Hoptions.
      split_and!; try done.
      intros Hall. apply Ht, Forall_app. split; [done |].
      apply Forall_singleton.
      exists ty. split; [done |]. simpl. split; [| eauto]. intros _.
      apply slice_from_Ok in Hs as (p & Hp & Hlen).
      unfold getFieldDescriptorType in Hty.
      destruct (protoBufScalarTypes !! Field.NativeType f) as [ty'|] eqn:Hl.
      -- apply protoBufScalarTypes_short in Hl as [Hshort _].
         rewrite Hp, string_app_length in Hshort. lia.
      -- destruct (Field.EnumValues f); injection Hty as <-; auto.
  + injection Hf as <- <-. simpl in Ht |- *. rewrite Hfield in Ht.
    rewrite Hnested, Henum, Hoptions, app_nil_r.
    split_and!; try done.
    intros Hall. apply Ht, Forall_app. split; [done |].
    apply Forall_singleton.
    exists ty. split; [done |]. simpl. unfold typeNameOf.
    destruct (decide (ty = TYPE_ENUM)) as [->|He]; [split; eauto |].
    destruct (decide (ty = TYPE_MESSAGE)) as [->|Hm]; [split; eauto |].
    split; [by intros [? ?] | by intros [?|?]].
Qed.

Lemma Forall_typed_entries fields :
Forall (λ e, Forall typed (DescriptorProto.Field e)) (omap entryOf fields).
Proof.
apply Forall_forall. intros e (f & _ & He)%list_elem_of_omap.
unfold entryOf in He. repeat case_match; try discriminate.
injection He as <-. simpl.
repeat constructor; [apply typed_keyField | apply typed_valueField].
Qed.

(** The loop over the types, when it returns normally, for any property [P]
  that every built message has. *)
Lemma buildMessages_inv (P : SType.t → DescriptorProto.t → Prop)
  descr packageName :
(∀ t st m st', buildMessage t packageName st = Ok (m, st') → P t m) →
∀ types st st',
buildMessages descr packageName types st = Ok (tt, st') →
∃ msgs,
  Forall2 P types msgs ∧
  (∀ d, heap st !! descr = Some d →
        heap st' = <[descr := add_MessageTypes msgs d]> (heap st)) ∧
  generatedMessages st'
    = registered packageName types (generatedMessages st).
Proof.
intros HP. induction types as [|t types IH]; intros st st' Hok.
- injection Hok as <-. exists []. split_and!; auto.
  intros d Hd. by rewrite add_MessageTypes_nil, list_insert_id.
- simpl in Hok.
  apply bind_Ok in Hok as (message & st1 & Hmsg & Hok).
  pose proof (HP _ _ _ _ Hmsg) as HPm.
  apply buildMessage_Ok in Hmsg as [[Hnm _] [lines ->]].
  apply bind_Ok in Hok as (d & st2 & Hload & Hok).
  apply load_Ok in Hload as (d' & Hd & [= -> ->]).
  apply bind_Ok in Hok as ([] & st3 & Hstore & Hok).
  apply store_Ok in Hstore as (_ & [= ->]).
  apply bind_Ok in Hok as (name & st4 & Hname & Hok).
  apply lift_Ok in Hname as (name' & Hname & [= -> ->]).
  rewrite Hnm in Hname. injection Hname as <-.
  apply bind_Ok in Hok as ([] & st5 & Hmod & Hok).
  apply modify_Ok in Hmod as [= ->].
  apply IH in Hok as (msgs & Hall & Hheap & Hreg).
  destruct st as [h g gm fl calls lg]. simpl in *.
  exists (message :: msgs). split_and!; auto.
  intros d0 Hd0. rewrite Hd0 in Hd. injection Hd as <-.
  rewrite (Hheap (add_MessageType message d0)).
  + by rewrite list_insert_insert_eq, add_MessageTypes_cons.
  + apply list_lookup_insert_eq. by eapply lookup_lt_Some.
Qed.

(** X7. The messages [buildMessagesFromTypes] appends to a file, one per
  type and in the order of the types: each has as nested types the entry
  messages of the maps it keeps, in declaration order, and nothing else; as
  enums one per field that has enum values, in declaration order, whether
  the field itself is kept or not; no options; and as many fields as the
  type has fields that are kept. *)
Theorem X7_nested_types_and_enums_of_the_messages descr renderer st st' d :
buildMessagesFromTypes descr renderer st = Ok (tt, st') →
heap st !! descr = Some d →
∃ msgs,
  heap st' !! descr = Some (add_MessageTypes msgs d) ∧
  Forall2
    (λ t msg,
       DescriptorProto.Name msg = Some (SType.TypeName t) ∧
       DescriptorProto.NestedType msg = omap entryOf (SType.Fields t) ∧
       DescriptorProto.EnumType msg = omap enumOf (SType.Fields t) ∧
       DescriptorProto.Options msg = None ∧
       length (DescriptorProto.Field msg)
         = length (filter (λ f, skipped f = false) (SType.Fields t)))
    (Model.Types (Renderer.Model renderer)) msgs.
Proof.
unfold buildMessagesFromTypes. intros Hok Hd.
eapply buildMessages_inv in Hok as (msgs & Hall & Hheap & _).
- exists msgs. split; [| exact Hall].
  rewrite (Hheap _ Hd). apply list_lookup_insert_eq.
  by eapply lookup_lt_Some.
- intros t st0 m st0' Hm. simpl.
  pose proof Hm as Hs. unfold buildMessage in Hs.
  apply buildFields_structure in Hs as (Hn & He & Ho & _).
  apply buildMessage_Ok in Hm as [(Hname & registry & Hfields & _) _].
  split_and!; try done.
  apply Forall2_length in Hfields. rewrite <- Hfields.
  clear. generalize 0%nat.
  induction (SType.Fields t) as [|f fields IH]; intros i; [done |].
  simpl. rewrite filter_cons.
  destruct (skipped f); case_decide; try done; simpl;
    rewrite ?(IH (S i)); done.
Qed.

(** X8. In every message [buildMessagesFromTypes] appends, and in every
  entry message nested in one, each field descriptor has a type, and it has a
  type name exactly when that type is a message or an enum. *)
Theorem X8_type_names_go_with_message_and_enum_types
  descr renderer st st' d :
buildMessagesFromTypes descr renderer st = Ok (tt, st') →
heap st !! descr = Some d →
∃ msgs,
  heap st' !! descr = Some (add_MessageTypes msgs d) ∧
  Forall
    (λ msg,
       Forall typed (DescriptorProto.Field msg) ∧
       Forall (λ entry, Forall typed (DescriptorProto.Field entry))
         (DescriptorProto.NestedType msg))
    msgs.
Proof.
unfold buildMessagesFromTypes. intros Hok Hd.
eapply (buildMessages_inv
          (λ _ msg,
             Forall typed (DescriptorProto.Field msg) ∧
             Forall (λ entry, Forall typed (DescriptorProto.Field entry))
               (DescriptorProto.NestedType msg)))
  in Hok as (msgs & Hall & Hheap & _).
- exists msgs. split.
  + rewrite (Hheap _ Hd). apply list_lookup_insert_eq.
    by eapply lookup_lt_Some.
  + clear -Hall. induction Hall; constructor; auto.
- intros t st0 m st0' Hm. unfold buildMessage in Hm.
  apply buildFields_structure in Hm as (Hn & _ & _ & Ht).
  split; [by apply Ht; constructor |].
  rewrite Hn. apply Forall_typed_entries.
Qed.

(** X9. [buildMessagesFromTypes] registers every type of the model in
  [generatedMessages] under the name of the package, and touches no other
  key; a field of message type that names a registered type gets the
  registered name as its type name, whatever the package of the run that
  builds the field, and the name of its own package only when the type is
  not registered. *)
Theorem X9_generated_messages_are_registered descr renderer st st' :
buildMessagesFromTypes descr renderer st = Ok (tt, st') →
generatedMessages st'
  = registered (Renderer.Package renderer)
      (Model.Types (Renderer.Model renderer)) (generatedMessages st) ∧
(∀ t, t ∈ Model.Types (Renderer.Model renderer) →
      generatedMessages st' !! SType.TypeName t
        = Some (Renderer.Package renderer +:+ "." +:+ SType.TypeName t)) ∧
(∀ n, n ∉ SType.TypeName <$> Model.Types (Renderer.Model renderer) →
      generatedMessages st' !! n = generatedMessages st !! n) ∧
(∀ t fd f packageName,
   t ∈ Model.Types (Renderer.Model renderer) →
   FieldDescriptorProto.Type_ fd = Some TYPE_MESSAGE →
   Field.NativeType f = SType.TypeName t →
   setFieldDescriptorTypeName fd f packageName st'
     = Ok (set_TypeName
             (Some (Renderer.Package renderer +:+ "." +:+ SType.TypeName t))
             fd, st')) ∧
(∀ fd f packageName,
   FieldDescriptorProto.Type_ fd = Some TYPE_MESSAGE →
   generatedMessages st' !! Field.NativeType f = None →
   setFieldDescriptorTypeName fd f packageName st'
     = Ok (set_TypeName
             (Some (packageName +:+ "." +:+ Field.NativeType f)) fd, st')).
Proof.
unfold buildMessagesFromTypes. intros Hok.
eapply (buildMessages_inv (λ _ _, True)) in Hok as (msgs & _ & _ & Hreg);
  [| done].
assert (∀ types g,
  (∀ t, t ∈ types →
        registered (Renderer.Package renderer) types g !! SType.TypeName t
          = Some (Renderer.Package renderer +:+ "." +:+ SType.TypeName t)) ∧
  (∀ n, n ∉ SType.TypeName <$> types →
        registered (Renderer.Package renderer) types g !! n = g !! n))
  as Hfold.
{ intros types. induction types as [|t types IH] using rev_ind; intros g.
  - split; [by intros t ?%elem_of_nil | done].
  - unfold registered in *. rewrite foldl_app. simpl.
    destruct (IH g) as [IH1 IH2]. split.
    + intros t' Hin.
      destruct (decide (SType.TypeName t' = SType.TypeName t)) as [->|Hne].
      * by rewrite lookup_insert_eq.
      * rewrite lookup_insert_ne by done. apply IH1.
        apply elem_of_app in Hin as [?|Hin]; [done |].
        apply list_elem_of_singleton in Hin. by subst.
    + intros n Hn. rewrite fmap_app, not_elem_of_app in Hn.
      destruct Hn as [Hn1 Hn2]. simpl in Hn2.
      rewrite lookup_insert_ne; [by apply IH2 |].
      intros Heq. apply Hn2. subst n. apply list_elem_of_here. }
destruct (Hfold (Model.Types (Renderer.Model renderer)) (generatedMessages st))
  as [H1 H2].
split_and!.
- exact Hreg.
- intros t Ht. rewrite Hreg. by apply H1.
- intros n Hn. rewrite Hreg. by apply H2.
- intros t fd f packageName Ht Hty Hn.
  unfold setFieldDescriptorTypeName, mbind, M_bind, lift, get, mret, M_ret.
  rewrite Hty. simpl. by rewrite Hn, Hreg, H1.
- intros fd f packageName Hty Hl.
  unfold setFieldDescriptorTypeName, mbind, M_bind, lift, get, mret, M_ret.
  rewrite Hty. simpl. by rewrite Hl.
Qed.

End Structure.

(** ** Enums *)

Section Enums.
Context `{Env}.

Lemma enumValueDescriptors_eq values : ∀ enumCtr,
Z.of_nat (enumCtr + length values) ≤ 2 ^ 31 →
enumValueDescriptors enumCtr values
= imap (λ i value,
          EnumValueDescriptorProto.mk (Some (strings_ToUpper value))
            (Some (Z.of_nat (enumCtr + i)))) values.
Proof.
induction values as [|value values IH]; intros enumCtr Hlen; [done |].
simpl in *. rewrite Nat.add_0_r, int32_small by lia. f_equal.
rewrite IH by lia. apply imap_ext. intros i v _. simpl.
do 2 f_equal. lia.
Qed.

(** X10. The enum of a field is named by the declared type of the field and
  has one value per enum value of the field, in their order, named by the
  upper-cased enum value and numbered from 0 (for up to 2^31 values); a
  field with no enum values gives an enum without values. *)
Theorem X10_enum_values_are_numbered_from_zero (f : Field.t) :
Z.of_nat (length (default [] (Field.EnumValues f))) ≤ 2 ^ 31 →
buildEnumDescriptorProto f
= EnumDescriptorProto.mk (Some (Field.NativeType f))
    (imap (λ i value,
             EnumValueDescriptorProto.mk (Some (strings_ToUpper value))
               (Some (Z.of_nat i)))
       (default [] (Field.EnumValues f))).
Proof.
intros Hlen. unfold buildEnumDescriptorProto. f_equal.
by rewrite enumValueDescriptors_eq.
Qed.

End Enums.

(** An instance: the three values of a colour. *)
Lemma X10_witness :
  buildEnumDescriptorProto (H := Example.env)
    (Field.mk "colour" FieldKind_SCALAR Position_BODY "Colour" "colour"
       (Some ["red"; "green"; "blue"]))
  = EnumDescriptorProto.mk (Some "Colour")
      [EnumValueDescriptorProto.mk (Some "RED") (Some 0);
       EnumValueDescriptorProto.mk (Some "GREEN") (Some 1);
       EnumValueDescriptorProto.mk (Some "BLUE") (Some 2)].
Proof.
  rewrite (X10_enum_values_are_numbered_from_zero (H := Example.env));
    [reflexivity | simpl; lia].
Defined.

(** ** Validation *)

Section Validation.
Context `{Env}.

Lemma validateRequestParameter_lines t f st :
∃ lines,
  validateRequestParameter t f st = Ok (tt, appendLog lines st) ∧
  (length lines ≤ 1)%nat ∧
  (isRequestParameter t = false → lines = []).
Proof.
assert (∃ lines, Ok (tt, st) = Ok (tt, appendLog lines st) ∧
                 (length lines ≤ 1)%nat ∧
                 (isRequestParameter t = false → lines = [])) as Hquiet.
{ exists []. rewrite appendLog_nil. split_and!; [done | simpl; lia | done]. }
unfold validateRequestParameter.
destruct (isRequestParameter t); [| exact Hquiet].
destruct (decide (Field.Position f = Position_PATH)) as [Hp|Hp].
- destruct (decide (Field.Position f = Position_QUERY)) as [Hq|_];
    [congruence |].
  unfold validatePathParameter.
  destruct (decide (Field.Kind f ≠ FieldKind_SCALAR)); [| exact Hquiet].
  eexists [_]. split; [reflexivity |]. split; [simpl; lia | done].
- destruct (decide (Field.Position f = Position_QUERY)) as [Hq|Hq];
    [| exact Hquiet].
  unfold validateQueryParameter. destruct (negb _); [| exact Hquiet].
  eexists [_]. split; [reflexivity |]. split; [simpl; lia | done].
Qed.

(** The state one iteration leaves is the state the validation leaves. *)
Lemma buildField_state t packageName i f message st message' st' :
buildField t packageName i f message st = Ok (message', st') →
validateRequestParameter t f st = Ok (tt, st').
Proof.
unfold buildField. intros Hok.
apply bind_Ok in Hok as ([] & st1 & Hv & Hok). rewrite Hv. f_equal. f_equal.
apply bind_Ok in Hok as (fd & st2 & Htn & Hok).
destruct (getFieldDescriptorType_Some (Field.NativeType f)
            (Field.EnumValues f)) as [ty Hty].
erewrite setFieldDescriptorTypeName_eq in Htn;
  [| simpl; exact Hty | reflexivity].
injection Htn as <- <-.
destruct (decide (Field.Kind f = FieldKind_MAP)).
- destruct (strings.Contains _ _).
  + by apply ret_Ok in Hok as [= _ ->].
  + apply bind_Ok in Hok as (entry & st3 & He & Hok).
    apply lift_Ok in He as (entry' & _ & [= -> ->]).
    by apply ret_Ok in Hok as [= _ ->].
- by apply ret_Ok in Hok as [= _ ->].
Qed.

Lemma buildFields_state t packageName fields : ∀ i message st message' st',
buildFields t packageName i fields message st = Ok (message', st') →
∃ lines,
  st' = appendLog lines st ∧
  (length lines ≤ length fields)%nat ∧
  (isRequestParameter t = false → lines = []).
Proof.
induction fields as [|f fields IH]; intros i message st message' st' Hok.
- apply ret_Ok in Hok as [= _ ->]. exists []. by rewrite appendLog_nil.
- simpl in Hok. apply bind_Ok in Hok as (m1 & st1 & Hf & Hrest).
  apply buildField_state in Hf.
  destruct (validateRequestParameter_lines t f st) as (l1 & Hv & Hl1 & Hq1).
  rewrite Hv in Hf. injection Hf as <-.
  apply IH in Hrest as (l2 & -> & Hl2 & Hq2).
  exists (l1 ++ l2). rewrite appendLog_app, length_app. simpl.
  split_and!; [done | lia |].
  intros Hq. by rewrite Hq1, Hq2.
Qed.

(** The result of one iteration does not depend on the name and the
  description of the type, nor on the state apart from the registry. *)
Lemma buildField_value t t' packageName i f message st st2 :
generatedMessages st = generatedMessages st2 →
valueOf (buildField t packageName i f message st)
= valueOf (buildField t' packageName i f message st2).
Proof.
intros Hreg.
destruct (buildField_cases t packageName i f message st)
  as (lines & ty & Hty & Heq).
destruct (buildField_cases t' packageName i f message st2)
  as (lines2 & ty2 & Hty2 & Heq2).
simpl in Heq, Heq2. rewrite Heq, Heq2. clear Heq Heq2.
rewrite Hty in Hty2. injection Hty2 as <-. rewrite Hreg.
destruct (decide (Field.Kind f = FieldKind_MAP)); [| done].
destruct (strings.Contains _ _); [done |].
by destruct (buildMapDescriptorProto f).
Qed.

Lemma buildFields_value t t' packageName fields : ∀ i message st st2,
generatedMessages st = generatedMessages st2 →
valueOf (buildFields t packageName i fields message st)
= valueOf (buildFields t' packageName i fields message st2).
Proof.
induction fields as [|f fields IH]; intros i message st st2 Hreg; [done |].
simpl. unfold mbind, M_bind.
pose proof (buildField_value t t' packageName i f message st st2 Hreg)
  as Hv.
destruct (buildField t packageName i f message st)
  as [[m1 st1]| | |] eqn:H1;
  destruct (buildField t' packageName i f message st2)
    as [[m2 st1']| | |] eqn:H2;
  simpl in Hv; try discriminate; try done.
injection Hv as <-.
apply buildField_Ok in H1 as (l1 & -> & _).
apply buildField_Ok in H2 as (l2 & -> & _).
apply IH. by destruct st, st2.
Qed.

(** X11. The validation of request parameters only writes to the log. The
  message built for a type, or the failure of the builder, depends on the
  fields and the type name of the type, the package name and the registry
  of generated messages, and on nothing else: not on the name and the
  description of the type, which decide whether its fields are validated.
  A builder that returns leaves the state as it was but for the log, which
  gets at most one line per field, and none if the type does not hold
  request parameters. *)
Theorem X11_validation_only_logs
  (name name' description description' typeName packageName : string)
  (fields : list Field.t) (st : State) :
valueOf (buildMessage (SType.mk name description fields typeName)
           packageName st)
= valueOf (buildMessage (SType.mk name' description' fields typeName)
             packageName st) ∧
(∀ st2, generatedMessages st2 = generatedMessages st →
        valueOf (buildMessage (SType.mk name description fields typeName)
                   packageName st2)
        = valueOf (buildMessage (SType.mk name description fields typeName)
                     packageName st)) ∧
(∀ message st',
   buildMessage (SType.mk name description fields typeName) packageName st
     = Ok (message, st') →
   ∃ lines,
     st' = appendLog lines st ∧
     (length lines ≤ length fields)%nat ∧
     (isRequestParameter (SType.mk name description fields typeName) = false →
      lines = [])).
Proof.
unfold buildMessage. simpl. split_and!.
- by apply buildFields_value.
- intros st2 Hreg. by apply buildFields_value.
- intros message st' Hok. by apply buildFields_state in Hok.
Qed.

End Validation.

(** ** The HTTP rule of a method *)

Lemma foldl_last_named name (types : list SType.t) : ∀ acc,
  (∀ t, t ∈ types → SType.Name t ≠ name) →
  foldl (λ acc t, if decide (SType.Name t = name) then t else acc) acc types
  = acc.
Proof.
  induction types as [|t types IH]; intros acc Hall; [done |].
  simpl. rewrite decide_False by (apply Hall, list_elem_of_here).
  apply IH. intros t' Ht'. apply Hall. by apply list_elem_of_further.
Qed.

(** X12. The request body of a method is looked up by the name of its
    parameter type among the types of the model: it is the name of the first
    body field of the last type of that name, and nil if no type has that
    name or that type has no field in the body. *)
Theorem X12_request_body_is_first_body_field_of_last_type_of_the_name
    (name : string) (types : list SType.t) :
  ((∀ t, t ∈ types → SType.Name t ≠ name) →
   getRequestBodyForRequestParameters name types = None) ∧
  (∀ before t after,
     types = before ++ t :: after →
     SType.Name t = name →
     (∀ t', t' ∈ after → SType.Name t' ≠ name) →
     getRequestBodyForRequestParameters name types = bodyOf t) ∧
  (∀ fieldName,
     getRequestBodyForRequestParameters name types = Some fieldName →
     ∃ t f, t ∈ types ∧ SType.Name t = name ∧ f ∈ SType.Fields t ∧
            Field.Position f = Position_BODY ∧
            Field.FieldName f = fieldName).
Proof.
  unfold getRequestBodyForRequestParameters. split_and!.
  - intros Hall. by rewrite foldl_last_named.
  - intros before t after -> Hname Hafter.
    rewrite foldl_app. simpl. rewrite decide_True by done.
    by rewrite foldl_last_named.
  - intros fieldName Hsome.
    destruct (decide (Exists (λ t, SType.Name t = name) types)) as [Hex|Hno].
    + assert (∃ before t after, types = before ++ t :: after ∧
                SType.Name t = name ∧
                ∀ t', t' ∈ after → SType.Name t' ≠ name)
        as (before & t & after & -> & Hname & Hafter).
      { clear Hsome. induction types as [|t types IH] using rev_ind.
        - by apply Exists_nil in Hex.
        - destruct (decide (SType.Name t = name)) as [Ht|Ht].
          + exists types, t, []. split_and!; [done | done |].
            by intros t' ?%elem_of_nil.
          + apply Exists_app in Hex as [Hex|Hex].
            * destruct (IH Hex) as (before & t0 & after & -> & Hn & Ha).
              exists before, t0, (after ++ [t]). rewrite <- app_assoc.
              split_and!; [done | done |].
              intros t' [?|Hin]%elem_of_app; [by apply Ha |].
              apply list_elem_of_singleton in Hin. by subst.
            * apply Exists_cons in Hex as [?|Hex]; [done |].
              by apply Exists_nil in Hex. }
      rewrite foldl_app in Hsome. simpl in Hsome.
      rewrite decide_True in Hsome by done.
      rewrite foldl_last_named in Hsome by done.
      apply fmap_Some in Hsome as (f & Hhead & ->).
      apply head_Some_elem_of, list_elem_of_filter in Hhead as [Hpos Hin].
      exists t, f. split_and!; try done.
      rewrite elem_of_app, elem_of_cons. auto.
    + rewrite foldl_last_named in Hsome; [done |].
      intros t Ht Hn. apply Hno, Exists_exists. eauto.
Qed.


(** ** What a run leaves alone *)

Section Frame.
Context `{Env}.


End Frame.


(** ** The dependencies, on any set *)

Section Dependencies.
Context `{Env}.

(** X15. [addDependencies] panics on an empty set. When it returns, it has
  written the last file of the set and nothing else: the dependencies of
  that file are those it had before together with the names of the files
  behind the other pointers of the set (the empty-type file only if
  [shouldRenderEmptyImport] is set), sorted; no dependency it had is lost,
  and a pointer equal to the last one does not count as another file,
  wherever it stands in the set. *)
Theorem X15_dependencies_are_added_to_those_present
  (fdSet : FileDescriptorSet.t) (st : State) :
(FileDescriptorSet.File fdSet = [] → addDependencies fdSet st = Panic) ∧
(∀ st',
   addDependencies fdSet st = Ok (tt, st') →
   ∃ lastFdProto l names deps,
     last (FileDescriptorSet.File fdSet) = Some lastFdProto ∧
     heap st !! lastFdProto = Some l ∧
     Forall2 (named st)
       (filter (λ a, a ≠ lastFdProto) (FileDescriptorSet.File fdSet))
       names ∧
     st' = set_heap (<[lastFdProto := set_Dependency deps l]> (heap st)) st ∧
     deps ≡ₚ FileDescriptorProto.Dependency l
             ++ dependencyNames (shouldRenderEmptyImport st) names ∧
     Sorted String.le deps ∧
     (∀ n, n ∈ FileDescriptorProto.Dependency l → n ∈ deps) ∧
     (∀ a, a ≠ lastFdProto → heap st' !! a = heap st !! a)).
Proof.
split.
- intros Hnil. unfold addDependencies. by rewrite Hnil.
- intros st' Hok.
  apply addDependencies_Ok in Hok as (p & l & names & Hlast & Hl & Hall & ->).
  eexists p, l, names, _. split_and!; try done.
  + unfold sort_Strings. apply merge_sort_Permutation.
  + apply sort_Strings_Sorted.
  + intros n Hn. apply sort_Strings_elem_of, elem_of_app. by left.
  + intros a Ha. simpl. by rewrite list_lookup_insert_ne.
Qed.

End Dependencies.

(** ** Errors of the reference resolution *)

Section Errors.
Context `{Env}.

Lemma resolveReferences_skip run skippedRefs refs renderer syms st :
Forall (marked st) skippedRefs →
resolveReferences run (skippedRefs ++ refs) renderer syms st
= resolveReferences run refs renderer syms st.
Proof.
induction 1 as [|ref skippedRefs Hm _ IH]; [done |].
simpl. unfold mbind at 1. unfold M_bind at 1. unfold get.
by rewrite decide_True by done.
Qed.

Lemma buildSymbolicReferences_Err run fdSet renderer st skippedRefs ref rest e :
firstSeen (fragmentless
             <$> Model.SymbolicReferences (Renderer.Model renderer))
  = skippedRefs ++ ref :: rest →
Forall (marked st) skippedRefs →
¬ marked st ref →
(gnostic_Output ref = Failure e ∨
 (∃ b, gnostic_Output ref = Success b ∧
       createOpenAPIDocFromGnosticOutput b = Err e) ∨
 (∃ b document,
    gnostic_Output ref = Success b ∧
    createOpenAPIDocFromGnosticOutput b = Ok document ∧
    NewModelFromOpenAPI3 document ref = Failure e)) →
buildSymbolicReferences run fdSet renderer st = Err e.
Proof.
intros Hrefs Hskipped Hfresh Herr.
unfold buildSymbolicReferences.
unfold mbind at 1. unfold M_bind at 1.
rewrite trimAndRemoveDuplicates_eq, Hrefs. simpl.
unfold mbind at 1. unfold M_bind at 1.
rewrite resolveReferences_skip by done.
simpl. unfold mbind at 1. unfold M_bind at 1. unfold get.
rewrite decide_False by done.
unfold mbind at 1. unfold M_bind at 1. unfold modify.
unfold mbind at 1. unfold M_bind at 1. unfold exec_gnostic.
destruct Herr as [Hg|[(b & Hg & Hd)|(b & document & Hg & Hd & Hm)]];
  rewrite Hg; [done | |].
- unfold mbind at 1. unfold M_bind at 1. unfold lift. by rewrite Hd.
- unfold mbind at 1. unfold M_bind at 1. unfold lift at 1. rewrite Hd.
  unfold mbind at 1. unfold M_bind at 1. unfold lift_result.
  by rewrite Hm.
Qed.

(** X16. The first reference of the model that was not resolved before
  decides whether the run fails: if the [gnostic] subprocess fails on it,
  or its output cannot be decoded, or no surface model can be made of the
  decoded document, the run returns that error, whatever the rest of the
  model is. *)
Theorem X16_errors_of_the_resolution_abort_the_run
  fuel renderer st skippedRefs ref rest e :
firstSeen (fragmentless
             <$> Model.SymbolicReferences (Renderer.Model renderer))
  = skippedRefs ++ ref :: rest →
Forall (marked st) skippedRefs →
¬ marked st ref →
(gnostic_Output ref = Failure e ∨
 (∃ b, gnostic_Output ref = Success b ∧
       createOpenAPIDocFromGnosticOutput b = Err e) ∨
 (∃ b document,
    gnostic_Output ref = Success b ∧
    createOpenAPIDocFromGnosticOutput b = Ok document ∧
    NewModelFromOpenAPI3 document ref = Failure e)) →
runFileDescriptorSetGenerator (S fuel) renderer st = Err e.
Proof.
intros Hrefs Hskipped Hfresh Herr.
rewrite runFileDescriptorSetGenerator_S.
unfold mbind at 1. unfold M_bind at 1, alloc.
unfold mbind at 1. unfold M_bind at 1. rewrite buildDependencies_eq.
unfold mbind at 1. unfold M_bind at 1.
by erewrite buildSymbolicReferences_Err.
Qed.

End Errors.

(** An instance: the subprocess fails on a reference that is no YAML file,
    after a reference that resolves. *)
Lemma X16_witness :
  runFileDescriptorSetGenerator (H := Example.env) 3
    (Example.renderer "pet"
       (Model.mk [] []
          ["http://example.com/a.yaml"; "http://example.com/a.json#x"]))
    (set_generatedSymbolicReferences {["http://example.com/a.yaml" := true]}
       initialState)
  = Err "exit status 1".
Proof.
  apply (X16_errors_of_the_resolution_abort_the_run (H := Example.env) 2 _ _
           ["http://example.com/a.yaml"] "http://example.com/a.json" []).
  - reflexivity.
  - repeat constructor. unfold marked. simpl.
    by rewrite lookup_singleton_eq.
  - unfold marked. simpl. by rewrite lookup_singleton_ne.
  - left. reflexivity.
Defined.

(** ** The model after the service was built *)

Section Mutation.
Context `{Env}.

(** X17. [buildServiceFromMethods] writes the substitution of the empty type
  into the methods of the model: in the renderer it leaves, every method
  has a parameter type and a response type, the types and the references of
  the model are as before. Building the service of that renderer again
  gives methods with the same input and output types and does not set
  [shouldRenderEmptyImport]. *)
Theorem X17_the_empty_type_is_written_to_the_model
  fuel descr renderer st renderer' st' :
buildServiceFromMethods fuel descr renderer st = Ok (renderer', st') →
Renderer.Model renderer'
  = Model.mk (Model.Types (Renderer.Model renderer))
      (substituted <$> Model.Methods (Renderer.Model renderer))
      (Model.SymbolicReferences (Renderer.Model renderer)) ∧
Forall (λ method,
          Method.ParametersTypeName method ≠ "" ∧
          Method.ResponsesTypeName method ≠ "")
  (Model.Methods (Renderer.Model renderer')) ∧
existsb needsEmpty (Model.Methods (Renderer.Model renderer')) = false ∧
(∀ fuel2 descr2 st2 renderer2 st2',
   buildServiceFromMethods fuel2 descr2 renderer' st2
     = Ok (renderer2, st2') →
   shouldRenderEmptyImport st2' = shouldRenderEmptyImport st2 ∧
   Renderer.Model renderer2 = Renderer.Model renderer' ∧
   ∃ d2 serviceName,
     heap st2' !! descr2 = Some d2 ∧
     FileDescriptorProto.Service d2
       = [serviceOf (Renderer.Model renderer') serviceName] ∧
     (λ md, (MethodDescriptorProto.Name md,
             MethodDescriptorProto.InputType md,
             MethodDescriptorProto.OutputType md))
       <$> ServiceDescriptorProto.Method
             (serviceOf (Renderer.Model renderer') serviceName)
     = (λ md, (MethodDescriptorProto.Name md,
               MethodDescriptorProto.InputType md,
               MethodDescriptorProto.OutputType md))
         <$> ServiceDescriptorProto.Method
               (serviceOf (Renderer.Model renderer) serviceName)).
Proof.
assert (∀ fuel descr renderer st renderer' st',
  buildServiceFromMethods fuel descr renderer st = Ok (renderer', st') →
  Renderer.Model renderer'
    = Model.mk (Model.Types (Renderer.Model renderer))
        (substituted <$> Model.Methods (Renderer.Model renderer))
        (Model.SymbolicReferences (Renderer.Model renderer))) as Hmodel.
{ clear. intros fuel descr renderer st renderer' st'.
  unfold buildServiceFromMethods. intros Hok.
  apply bind_Ok in Hok as (d & st1 & _ & Hok).
  apply bind_Ok in Hok as (serviceName & st2 & _ & Hok).
  apply bind_Ok in Hok as ([methods mDescrs] & st3 & Hmethods & Hok).
  rewrite buildMethods_eq in Hmethods. injection Hmethods as <- <- <-.
  apply bind_Ok in Hok as ([] & st4 & _ & Hok).
  by apply ret_Ok in Hok as [= -> _]. }
assert (∀ methods : list Method.t,
          Forall (λ method,
                    Method.ParametersTypeName method ≠ "" ∧
                    Method.ResponsesTypeName method ≠ "")
            (substituted <$> methods)) as Hfull.
{ intros methods. apply Forall_fmap, Forall_forall. intros m _. simpl.
  unfold orEmpty. split; case_decide; done. }
assert (∀ methods : list Method.t,
          existsb needsEmpty (substituted <$> methods) = false) as Hnone.
{ intros methods. induction methods as [|m methods IH]; [done |].
  rewrite fmap_cons. cbn [existsb]. rewrite IH, orb_false_r.
  unfold needsEmpty. simpl. unfold orEmpty.
  rewrite !bool_decide_eq_false_2; [done | |]; case_decide; done. }
assert (∀ m, orEmpty (orEmpty m) = orEmpty m) as Hidem.
{ intros m. unfold orEmpty. repeat case_decide; done. }
intros Hok. pose proof (Hmodel _ _ _ _ _ _ Hok) as Hm.
rewrite Hm. simpl. split_and!; [done | apply Hfull | apply Hnone |].
intros fuel2 descr2 st2 renderer2 st2' Hok2.
pose proof (Hmodel _ _ _ _ _ _ Hok2) as Hm2.
apply buildServiceFromMethods_service in Hok2
  as (d2 & serviceName & Hd2 & _ & ->).
rewrite Hm in Hm2 |- *. simpl in Hm2 |- *. rewrite Hnone. simpl.
split_and!.
- done.
- rewrite Hm2. f_equal. rewrite <- list_fmap_compose.
  apply list_fmap_ext. intros _ m _. simpl. unfold substituted. simpl.
  by rewrite !Hidem.
- eexists _, serviceName. split.
  { apply list_lookup_insert_eq. by eapply lookup_lt_Some. }
  split; [done |].
  unfold serviceOf. simpl. rewrite <- !list_fmap_compose.
  apply list_fmap_ext. intros _ m _. simpl. by rewrite !Hidem.
Qed.

End Mutation.

(** An instance: the service of a model whose one method has no types. *)
Lemma X17_witness :
  ∃ renderer' st',
    buildServiceFromMethods (H := Example.env) 2 0%nat
      (Example.renderer "pet" Example.modelA) (Example.started "pet")
    = Ok (renderer', st') ∧
    Model.Methods (Renderer.Model renderer')
    = [Method.mk "/pets" "GET" "ListPets" "google.protobuf.Empty"
         "google.protobuf.Empty"].
Proof.
  eexists _, _.
  destruct (X17_the_empty_type_is_written_to_the_model (H := Example.env)
    2 0%nat (Example.renderer "pet" Example.modelA) (Example.started "pet")
    _ _ ltac:(vm_compute; reflexivity)) as (Hm & _).
  split; [vm_compute; reflexivity |]. rewrite Hm. reflexivity.
Defined.

(** ** The package of a referenced document *)

Lemma list_ascii_of_string_app (s1 s2 : string) :
  String.list_ascii_of_string (s1 +:+ s2)
  = String.list_ascii_of_string s1 ++ String.list_ascii_of_string s2.
Proof.
  induction s1 as [|c s1 IH]; [done |].
  unfold String.append; fold String.append. simpl. by rewrite IH.
Qed.

Lemma list_ascii_of_string_nil (s : string) :
  String.list_ascii_of_string s = [] → s = EmptyString.
Proof. by destruct s. Qed.

Lemma stripLeading_id (l : list ascii) :
  head l ≠ Some path.slash → path.stripLeading l = l.
Proof.
  destruct l as [|c l]; [done |]. simpl. intros Hc.
  destruct (decide (c = path.slash)) as [->|]; done.
Qed.

Lemma upToSlash_app (l rest : list ascii) :
  path.slash ∉ l → path.upToSlash (l ++ path.slash :: rest) = l.
Proof.
  induction l as [|c l IH]; intros Hl; simpl.
  - by repeat case_decide.
  - apply not_elem_of_cons in Hl as [Hc Hl].
    rewrite decide_False by done. by rewrite IH.
Qed.

Lemma upToSlash_id (l : list ascii) :
  path.slash ∉ l → path.upToSlash l = l.
Proof.
  induction l as [|c l IH]; intros Hl; simpl; [done |].
  apply not_elem_of_cons in Hl as [Hc Hl].
  rewrite decide_False by done. by rewrite IH.
Qed.

Lemma head_reverse_not_slash (l : list ascii) :
  path.slash ∉ l → head (reverse l) ≠ Some path.slash.
Proof.
  intros Hl Hh. apply Hl. apply elem_of_reverse.
  by apply head_Some_elem_of.
Qed.

(** [path.Base] of a path that ends in a non-empty element without slash. *)
Lemma Base_last_element (dir name : string) :
  name ≠ EmptyString →
  path.slash ∉ String.list_ascii_of_string name →
  path.Base (dir +:+ "/" +:+ name) = name ∧ path.Base name = name.
Proof.
  intros Hne Hslash.
  assert (String.string_of_list_ascii (String.list_ascii_of_string name)
          ≠ EmptyString) as Hne'.
  { by rewrite String.string_of_list_ascii_of_string. }
  unfold path.Base. split.
  - rewrite decide_False by (by destruct dir).
    rewrite list_ascii_of_string_app.
    change (String.list_ascii_of_string ("/" +:+ name))
      with (path.slash :: String.list_ascii_of_string name).
    rewrite reverse_app, reverse_cons, <- app_assoc. simpl.
    rewrite stripLeading_id.
    2: { destruct (reverse (String.list_ascii_of_string name)) as [|c l] eqn:Hr.
         - apply (f_equal reverse) in Hr. rewrite reverse_involutive in Hr.
           apply list_ascii_of_string_nil in Hr. done.
         - simpl. intros [= ->]. apply Hslash.
           apply elem_of_reverse. rewrite Hr. apply list_elem_of_here. }
    rewrite upToSlash_app by (intros Hin; by rewrite elem_of_reverse in Hin).
    rewrite reverse_involutive, decide_False by done.
    apply String.string_of_list_ascii_of_string.
  - rewrite decide_False by done.
    rewrite stripLeading_id by (by apply head_reverse_not_slash).
    rewrite upToSlash_id by (intros Hin; by rewrite elem_of_reverse in Hin).
    rewrite reverse_involutive, decide_False by done.
    apply String.string_of_list_ascii_of_string.
Qed.

Lemma extFrom_none (l acc : list ascii) :
  path.slash ∉ l → "."%char ∉ l → path.extFrom l acc = [].
Proof.
  revert acc. induction l as [|c l IH]; intros acc Hs Hd; [done |].
  apply not_elem_of_cons in Hs as [Hcs Hs].
  apply not_elem_of_cons in Hd as [Hcd Hd].
  simpl. rewrite !decide_False by done. by apply IH.
Qed.

Lemma extFrom_dot (l rest acc : list ascii) :
  path.slash ∉ l → "."%char ∉ l →
  path.extFrom (l ++ "."%char :: rest) acc = "."%char :: (reverse l ++ acc).
Proof.
  revert acc. induction l as [|c l IH]; intros acc Hs Hd.
  - simpl. by repeat case_decide.
  - apply not_elem_of_cons in Hs as [Hcs Hs].
    apply not_elem_of_cons in Hd as [Hcd Hd].
    simpl. rewrite !decide_False by done. rewrite IH by done.
    by rewrite reverse_cons, <- app_assoc.
Qed.

Lemma substring_app_l (a b : string) :
  String.substring 0 (String.length a) (a +:+ b) = a.
Proof.
  induction a as [|c a IH]; [by destruct b |].
  unfold String.append; fold String.append. simpl. by rewrite IH.
Qed.

Lemma substring_all (b : string) :
  String.substring 0 (String.length b) b = b.
Proof. induction b as [|c b IH]; [done |]. simpl. by rewrite IH. Qed.

Lemma substring_app_r (a b : string) :
  String.substring (String.length a) (String.length b) (a +:+ b) = b.
Proof.
  induction a as [|c a IH]; [apply substring_all |].
  unfold String.append; fold String.append. simpl. apply IH.
Qed.

Lemma TrimSuffix_app (a b : string) : strings.TrimSuffix (a +:+ b) b = a.
Proof.
  unfold strings.TrimSuffix, strings.HasSuffix.
  rewrite string_app_length.
  replace (String.length a + String.length b - String.length b)%nat
    with (String.length a) by lia.
  rewrite substring_app_r, substring_app_l.
  rewrite !bool_decide_eq_true_2; [done | done | lia].
Qed.

Lemma TrimSuffix_empty (s : string) : strings.TrimSuffix s "" = s.
Proof.
  rewrite <- (string_app_nil_r s) at 1. apply TrimSuffix_app.
Qed.

(** X18. The package of the run for a reference is the last element of the
    reference without its extension, the extension being what follows the
    last dot: it does not depend on what stands before the last slash, so
    that references to documents of the same name in different places give
    the same package, and the same file name. *)
Theorem X18_the_package_is_the_name_of_the_document :
  (∀ dir name : string,
     name ≠ "" →
     path.slash ∉ String.list_ascii_of_string name →
     path.Base (dir +:+ "/" +:+ name) = name ∧
     referencePackage (dir +:+ "/" +:+ name) = referencePackage name ∧
     referenceFile (dir +:+ "/" +:+ name) = referenceFile name) ∧
  (∀ stem ext : string,
     path.slash ∉ String.list_ascii_of_string stem →
     path.slash ∉ String.list_ascii_of_string ext →
     "."%char ∉ String.list_ascii_of_string ext →
     path.Ext (stem +:+ "." +:+ ext) = "." +:+ ext ∧
     referencePackage (stem +:+ "." +:+ ext) = stem ∧
     referenceFile (stem +:+ "." +:+ ext) = stem +:+ ".proto") ∧
  (∀ name : string,
     name ≠ "" →
     path.slash ∉ String.list_ascii_of_string name →
     "."%char ∉ String.list_ascii_of_string name →
     path.Ext name = "" ∧ referencePackage name = name).
Proof.
  split_and!.
  - intros dir name Hne Hslash.
    destruct (Base_last_element dir name Hne Hslash) as [Hb1 Hb2].
    unfold referenceFile, referencePackage. by rewrite Hb1, Hb2.
  - intros stem ext Hstem Hext Hdot.
    assert (path.Ext (stem +:+ "." +:+ ext) = "." +:+ ext) as Hx.
    { unfold path.Ext. rewrite list_ascii_of_string_app.
      change (String.list_ascii_of_string ("." +:+ ext))
        with ("."%char :: String.list_ascii_of_string ext).
      rewrite reverse_app, reverse_cons, <- app_assoc. simpl.
      rewrite extFrom_dot by (intros Hin; by rewrite elem_of_reverse in Hin).
      rewrite reverse_involutive, app_nil_r. simpl.
      by rewrite String.string_of_list_ascii_of_string. }
    assert (path.Base (stem +:+ "." +:+ ext) = stem +:+ "." +:+ ext) as Hb.
    { apply (Base_last_element "" (stem +:+ "." +:+ ext)).
      - by destruct stem.
      - rewrite list_ascii_of_string_app.
        change (String.list_ascii_of_string ("." +:+ ext))
          with ("."%char :: String.list_ascii_of_string ext).
        rewrite elem_of_app, elem_of_cons. intros [?|[?|?]]; done. }
    unfold referenceFile, referencePackage.
    by rewrite Hb, Hx, TrimSuffix_app.
  - intros name Hne Hslash Hdot.
    assert (path.Ext name = "") as Hx.
    { unfold path.Ext.
      by rewrite extFrom_none by (intros Hin; by rewrite elem_of_reverse in Hin). }
    split; [done |]. unfold referencePackage.
    destruct (Base_last_element "" name Hne Hslash) as [_ ->].
    by rewrite Hx, TrimSuffix_empty.
Qed.

(** ** Normalising twice *)

Lemma fragmentless_idemp url : fragmentless (fragmentless url) = fragmentless url.
Proof.
  induction url as [|c url IH]; [done |]. simpl.
  destruct (decide (c = "#"%char)) as [->|Hc]; [done |].
  simpl. rewrite decide_False by done. by rewrite IH.
Qed.

Lemma fragmentless_no_hash url :
  "#"%char ∉ String.list_ascii_of_string (fragmentless url).
Proof.
  induction url as [|c url IH]; simpl; [apply not_elem_of_nil |].
  destruct (decide (c = "#"%char)) as [->|Hc]; simpl;
    [apply not_elem_of_nil |].
  apply not_elem_of_cons. split; [done | exact IH].
Qed.

Lemma firstSeen_NoDup_id (l : list string) : NoDup l → firstSeen l = l.
Proof.
  induction 1 as [|x l Hx _ IH]; [done |]. simpl. rewrite IH. f_equal.
  clear IH. induction l as [|y l IH]; [done |].
  apply not_elem_of_cons in Hx as [Hne Hx].
  rewrite filter_cons_True by done. by rewrite IH.
Qed.

(** X19. Normalising the references a second time changes nothing: what
    [trimAndRemoveDuplicates] returns it returns again when applied to it. No
    URL it returns contains a '#', and it returns no more URLs than it was
    given. *)
Theorem X19_normalising_the_references_is_idempotent (urls : list string) :
  ∃ result,
    trimAndRemoveDuplicates urls = Ok result ∧
    trimAndRemoveDuplicates result = Ok result ∧
    (length result ≤ length urls)%nat ∧
    Forall (λ url, "#"%char ∉ String.list_ascii_of_string url) result.
Proof.
  exists (firstSeen (fragmentless <$> urls)).
  assert (Forall (λ url, ∃ u, url = fragmentless u)
            (firstSeen (fragmentless <$> urls))) as Hall.
  { apply Forall_forall. intros url Hin.
    apply firstSeen_elem_of, list_elem_of_fmap in Hin as (u & -> & _). eauto. }
  split_and!.
  - apply trimAndRemoveDuplicates_eq.
  - rewrite trimAndRemoveDuplicates_eq. f_equal.
    assert (fragmentless <$> firstSeen (fragmentless <$> urls)
            = firstSeen (fragmentless <$> urls)) as ->.
    { induction Hall as [|url l (u & ->) _ IH]; [done |].
      rewrite fmap_cons, IH. by rewrite fragmentless_idemp. }
    apply firstSeen_NoDup_id, firstSeen_NoDup.
  - etrans; [apply sublist_length, firstSeen_sublist |].
    by rewrite length_fmap.
  - eapply Forall_impl; [exact Hall |].
    intros url (u & ->). apply fragmentless_no_hash.
Qed.

(** ** When the message builder returns *)

Lemma slice_from_cases s n :
  (∃ v, slice_from s n = Ok v) ∨ slice_from s n = Panic.
Proof.
  revert s. induction n as [|n IH]; intros s; simpl; [eauto |].
  destruct s; [by right | apply IH].
Qed.

Section Outcomes.
Context `{Env}.

Lemma buildField_cases_sliceable t packageName i f message st :
(sliceable f ∧
 ∃ message' st', buildField t packageName i f message st = Ok (message', st'))
∨ (¬ sliceable f ∧ buildField t packageName i f message st = Panic).
Proof.
destruct (decide (Field.Kind f = FieldKind_MAP ∧ skipped f = false ∧
                  (String.length (Field.NativeType f) < 11)%nat))
  as [(Hk & Hs & Hlen)|Hno].
- right. split; [intros Hsl; specialize (Hsl Hk Hs); lia |].
  destruct (buildField_cases t packageName i f message st)
    as (lines & ty & _ & Heq).
  simpl in Heq. rewrite Heq. rewrite decide_True by done.
  unfold skipped in Hs. rewrite bool_decide_eq_true_2 in Hs by done.
  simpl in Hs. rewrite Hs.
  apply buildMapDescriptorProto_Panic in Hlen. by rewrite Hlen.
- assert (sliceable f) as Hsl.
  { intros Hk Hs.
    destruct (decide (11 ≤ String.length (Field.NativeType f))%nat);
      [done |].
    exfalso. apply Hno. split_and!; [done | done | lia]. }
  left. split; [done |]. by apply buildField_total.
Qed.

Lemma buildFields_cases t packageName fields : ∀ i message st,
(Forall sliceable fields ∧
 ∃ message' st',
   buildFields t packageName i fields message st = Ok (message', st'))
∨ (¬ Forall sliceable fields ∧
   buildFields t packageName i fields message st = Panic).
Proof.
induction fields as [|f fields IH]; intros i message st.
- left. split; [constructor | eexists _, _; reflexivity].
- simpl. unfold mbind, M_bind.
  destruct (buildField_cases_sliceable t packageName i f message st)
    as [(Hf & m1 & st1 & ->)|(Hf & ->)].
  + destruct (IH (S i) m1 st1) as [(Hall & m2 & st2 & ->)|(Hall & ->)].
    * left. split; [by constructor | eauto].
    * right. split; [| done]. by intros [_ ?]%Forall_cons.
  + right. split; [| done]. by intros [? _]%Forall_cons.
Qed.

Lemma bind_Panic {A B} (m : M A) (f : A → M B) st :
m st = Panic → (m ≫= f) st = Panic.
Proof. unfold mbind, M_bind. by intros ->. Qed.

Lemma bind_step {A B} (m : M A) (f : A → M B) st a st1 :
m st = Ok (a, st1) → (m ≫= f) st = f a st1.
Proof. unfold mbind, M_bind. by intros ->. Qed.

Lemma buildMessages_cases descr packageName types : ∀ st,
((types = [] ∨ is_Some (heap st !! descr)) ∧
 Forall (λ t, Forall sliceable (SType.Fields t)) types ∧
 ∃ st', buildMessages descr packageName types st = Ok (tt, st'))
∨ (¬ ((types = [] ∨ is_Some (heap st !! descr)) ∧
      Forall (λ t, Forall sliceable (SType.Fields t)) types) ∧
   buildMessages descr packageName types st = Panic).
Proof.
induction types as [|t types IH]; intros st.
- left. split; [by left |]. split; [constructor | eexists; reflexivity].
- destruct (buildFields_cases t packageName (SType.Fields t) 0%nat
              (DescriptorProto.mk (Some (SType.TypeName t)) [] [] [] None)
              st) as [(Ht & message & st1 & Hmsg)|(Ht & Hpanic)].
  2: { right. split; [by intros (_ & [? _]%Forall_cons) |].
       simpl. by apply bind_Panic. }
  fold (buildMessage t packageName) in Hmsg.
  destruct (buildMessage_Ok _ _ _ _ _ Hmsg) as [[Hname _] [lines ->]].
  destruct (heap st !! descr) as [d|] eqn:Hd.
  2: { right. split; [intros ([?|[? ?]] & _); done |].
       simpl. erewrite bind_step by exact Hmsg.
       apply bind_Panic. unfold load. simpl. by rewrite Hd. }
  set (st2 := set_heap (<[descr := add_MessageType message d]>
                          (heap (appendLog lines st))) (appendLog lines st)).
  set (st3 := set_generatedMessages
                (<[SType.TypeName t :=
                     packageName +:+ "." +:+ SType.TypeName t]>
                   (generatedMessages st2)) st2).
  assert (buildMessages descr packageName (t :: types) st
          = buildMessages descr packageName types st3) as Heq.
  { simpl. erewrite bind_step by exact Hmsg.
    erewrite bind_step by (apply load_Ok; eauto).
    erewrite bind_step by (apply store_Ok; eauto).
    erewrite bind_step by (apply lift_Ok; rewrite Hname; simpl; eauto).
    erewrite bind_step by (by apply modify_Ok).
    reflexivity. }
  rewrite Heq.
  destruct (IH st3) as [(Hd' & Hall & st' & Hok)|(Hno & Hpanic)].
  + left. split; [right; eauto |]. split; [by constructor | eauto].
  + right. split; [| done]. intros (_ & [_ Hall]%Forall_cons).
    apply Hno. split; [| done]. right. simpl.
    rewrite list_lookup_insert_eq by (by eapply lookup_lt_Some). eauto.
Qed.

(** X20. [buildMessagesFromTypes] never returns an error. It returns
  normally exactly when every map field that it keeps declares a type of
  at least 11 bytes and, unless the model has no types, the file it is to
  write is allocated; in every other case it panics. *)
Theorem X20_the_message_builder_returns_or_panics descr renderer st :
((∃ st', buildMessagesFromTypes descr renderer st = Ok (tt, st')) ↔
 (Model.Types (Renderer.Model renderer) = [] ∨ is_Some (heap st !! descr)) ∧
 Forall (λ t, Forall sliceable (SType.Fields t))
   (Model.Types (Renderer.Model renderer))) ∧
((∃ st', buildMessagesFromTypes descr renderer st = Ok (tt, st')) ∨
 buildMessagesFromTypes descr renderer st = Panic).
Proof.
unfold buildMessagesFromTypes.
destruct (buildMessages_cases descr (Renderer.Package renderer)
            (Model.Types (Renderer.Model renderer)) st)
  as [(Hd & Hall & st' & Hok)|(Hno & Hpanic)].
- split; [| eauto]. split; [done | eauto].
- split; [| by right]. rewrite Hpanic.
  split; [by intros [? ?] | done].
Qed.

End Outcomes.

(** ** Termination on references that form cycles *)

Lemma bind_returns {A B} (m : M A) (f : A → M B) st :
  m st ≠ OutOfFuel →
  (∀ a st1, m st = Ok (a, st1) → f a st1 ≠ OutOfFuel) →
  (m ≫= f) st ≠ OutOfFuel.
Proof.
  unfold mbind, M_bind. intros Hm Hf.
  destruct (m st) as [[a st1]| | |]; try done. by apply Hf.
Qed.

Lemma unresolved_mono refs st st' :
  (∀ r, marked st r → marked st' r) →
  (unresolved refs st' ≤ unresolved refs st)%nat.
Proof.
  intros Hm. unfold unresolved.
  induction refs as [|r refs IH]; [done |].
  rewrite !filter_cons.
  destruct (decide (generatedSymbolicReferences st' !! r = None)) as [Hn'|Hs'];
    destruct (decide (generatedSymbolicReferences st !! r = None)) as [Hn|Hs];
    simpl; try lia.
  exfalso. assert (marked st r) as Hr.
  { unfold marked. by destruct (generatedSymbolicReferences st !! r). }
  apply Hm in Hr. unfold marked in Hr. rewrite Hn' in Hr. by destruct Hr.
Qed.

Lemma unresolved_mark refs st ref :
  ref ∈ refs → ¬ marked st ref →
  (unresolved refs
     (set_generatedSymbolicReferences
        (<[ref := true]> (generatedSymbolicReferences st)) st)
   < unresolved refs st)%nat.
Proof.
  intros Hin Hfresh. unfold unresolved. simpl.
  induction refs as [|r refs IH]; [by apply elem_of_nil in Hin |].
  assert (length (filter (λ r0, <[ref:=true]> (generatedSymbolicReferences st)
                                  !! r0 = None) refs)
          ≤ length (filter (λ r0, generatedSymbolicReferences st !! r0 = None)
                      refs))%nat as Hle.
  { clear. induction refs as [|r refs IH]; [done |].
    rewrite !filter_cons.
    destruct (decide (ref = r)) as [->|Hne].
    - rewrite lookup_insert_eq.
      rewrite decide_False by done. case_decide; simpl; lia.
    - rewrite lookup_insert_ne by done. case_decide; simpl; lia. }
  rewrite !filter_cons.
  destruct (decide (ref = r)) as [<-|Hne].
  - rewrite lookup_insert_eq. rewrite decide_False by done.
    rewrite decide_True.
    2: { unfold marked in Hfresh.
         destruct (generatedSymbolicReferences st !! ref); [| done].
         exfalso. apply Hfresh. eauto. }
    simpl. lia.
  - apply elem_of_cons in Hin as [?|Hin]; [done |].
    rewrite lookup_insert_ne by done. specialize (IH Hin).
    case_decide; simpl; lia.
Qed.

Section Termination.
Context `{Env}.

Variable refs : list string.
Variable bound : nat.

Hypothesis closed : ∀ ref document model inputDocumentType,
ref ∈ refs →
NewModelFromOpenAPI3 document ref = Success model →
closedModel refs bound (Prepare model inputDocumentType).

Hypothesis bound_int : Z.of_nat bound < 2 ^ 63.

Lemma collectDependencies_returns lastFdProto files : ∀ dependency st,
collectDependencies lastFdProto files dependency st ≠ OutOfFuel.
Proof.
induction files as [|fd files IH]; intros dependency st; [done |].
simpl. destruct (decide (fd ≠ lastFdProto)); [| apply IH].
apply bind_returns; [unfold load; by destruct (heap st !! fd) |].
intros d st1 _.
apply bind_returns.
{ unfold lift, deref. by destruct (FileDescriptorProto.Name d). }
intros name st2 _. apply bind_returns; [done |].
intros st3 st4 _. destruct (decide _); apply IH.
Qed.

Lemma addDependencies_returns fdSet st : addDependencies fdSet st ≠ OutOfFuel.
Proof.
unfold addDependencies. apply bind_returns.
{ unfold lift, getLast, index. by destruct (_ !! _). }
intros p st1 _. apply bind_returns; [unfold load; by destruct (_ !! _) |].
intros l st2 _. apply bind_returns; [apply collectDependencies_returns |].
intros deps st3 _. unfold store. by destruct (_ !! _).
Qed.

(** The last three stages of a run return when the budget exceeds the number
  of messages the file will have. *)
Lemma finish_returns fuel p fdSet renderer st :
heap st !! p = Some (mainFileDescriptor (Renderer.Package renderer)) →
(length (Model.Types (Renderer.Model renderer)) ≤ bound)%nat →
(bound < fuel)%nat →
(buildMessagesFromTypes p renderer;;
 renderer ← buildServiceFromMethods fuel p renderer;
 addDependencies fdSet;;
 mret (fdSet, renderer)) st ≠ OutOfFuel.
Proof.
intros Hp Hbound Hfuel.
apply bind_returns.
{ unfold buildMessagesFromTypes.
  destruct (buildMessages_cases p (Renderer.Package renderer)
              (Model.Types (Renderer.Model renderer)) st)
    as [(_ & _ & st' & ->)|(_ & ->)]; done. }
intros [] st1 Hmsgs. unfold buildMessagesFromTypes in Hmsgs.
apply buildMessages_Ok in Hmsgs as (msgs & Hall & Hheap1 & _).
specialize (Hheap1 _ Hp).
assert (length msgs = length (Model.Types (Renderer.Model renderer)))
  as Hlen by (symmetry; by eapply Forall2_length).
assert (heap st1 !! p
        = Some (add_MessageTypes msgs
                  (mainFileDescriptor (Renderer.Package renderer)))) as Hp1.
{ rewrite Hheap1. apply list_lookup_insert_eq. by eapply lookup_lt_Some. }
destruct (buildServiceFromMethods_Ok fuel p renderer st1 _ Hp1)
  as (k & renderer' & _ & _ & _ & _ & _ & Hsvc).
{ simpl. eapply Forall_forall. intros m Hm.
  apply list_elem_of_lookup in Hm as [i Hi].
  destruct (Forall2_lookup_r _ _ _ _ _ Hall Hi) as (t & _ & Hb & _).
  by rewrite Hb. }
{ simpl. lia. }
{ simpl. lia. }
simpl in Hsvc. apply bind_returns; [by rewrite Hsvc |].
intros renderer1 st2 _.
apply bind_returns; [apply addDependencies_returns | done].
Qed.

Section Loop.

Variable fuel : nat.
Hypothesis run_returns : ∀ renderer st,
closedModel refs bound (Renderer.Model renderer) →
(unresolved refs st + bound + 2 ≤ fuel)%nat →
runFileDescriptorSetGenerator fuel renderer st ≠ OutOfFuel.

Lemma resolveReferences_returns symbolicReferences :
∀ renderer syms st,
Forall (λ r, r ∈ refs) symbolicReferences →
(unresolved refs st + bound + 1 ≤ fuel)%nat →
resolveReferences (runFileDescriptorSetGenerator fuel) symbolicReferences
renderer syms st ≠ OutOfFuel.
Proof.
induction symbolicReferences as [|ref rest IH]; intros renderer syms st
Hall Hfuel; [done |].
apply Forall_cons in Hall as [Hin Hall]. simpl.
apply bind_returns; [done |]. intros st0 st0' Hget.
apply get_Ok in Hget as [= -> ->].
destruct (decide (is_Some (generatedSymbolicReferences st !! ref)))
as [Hmarked|Hfresh]; [by apply IH |].
pose proof (unresolved_mark refs st ref Hin Hfresh) as Hless.
apply bind_returns; [done |]. intros [] st1 Hmod.
apply modify_Ok in Hmod as [= ->].
apply bind_returns.
{ unfold exec_gnostic. by destruct (gnostic_Output ref). }
intros b st2 Hexec.
apply exec_gnostic_Ok in Hexec as (b' & _ & [= <- ->]).
apply bind_returns.
{ unfold lift, createOpenAPIDocFromGnosticOutput.
destruct (proto_Unmarshal b Document_zero) as [document [e|]];
  [by destruct (decide _) | done]. }
intros document st3 Hdoc.
apply lift_Ok in Hdoc as (document' & _ & [= <- ->]).
apply bind_returns.
{ unfold lift_result. by destruct (NewModelFromOpenAPI3 document ref). }
intros surfaceModel st4 Hmodel.
apply lift_result_Ok in Hmodel as (model' & Hmodel & [= <- ->]).
apply bind_returns.
{ apply run_returns.
- simpl. by apply (closed ref document).
- unfold unresolved in *. simpl in *. lia. }
intros [newFdSet rr'] st5 Hrun.
apply runFileDescriptorSetGenerator_post in Hrun
as (_ & _ & _ & _ & calls1 & _ & _ & _ & _ & _ & _ & _ & _ & _ & _ & _
    & _ & _ & _ & _ & _ & Hmarks1 & _ & _).
apply bind_returns.
{ unfold lift, getLast, index.
by destruct (FileDescriptorSet.File newFdSet !! _). }
intros symbolicProto st6 Hlast.
apply lift_Ok in Hlast as (sym & _ & [= -> ->]).
apply IH; [done |].
assert (unresolved refs st5 ≤ unresolved refs st)%nat; [| lia].
etrans; [| apply Nat.lt_le_incl, Hless].
apply unresolved_mono. intros r Hr. apply Hmarks1. by left.
Qed.

End Loop.

(** X21. A run terminates although documents may refer to each other in
  cycles, because a reference is marked before it is resolved: if the
  references of the model, and of every model made of a document behind one
  of them, are among finitely many references [refs], and these models have
  at most [bound] types, then a budget of the number of references not yet
  marked, plus [bound], plus two, is enough for the run to end, by returning
  normally, by an error or by a panic. *)
Theorem X21_runs_terminate_on_cyclic_references fuel :
∀ renderer st,
closedModel refs bound (Renderer.Model renderer) →
(unresolved refs st + bound + 2 ≤ fuel)%nat →
runFileDescriptorSetGenerator fuel renderer st ≠ OutOfFuel.
Proof.
induction fuel as [|fuel IH]; intros renderer st [Hrefs Hbound] Hfuel;
  [lia |].
rewrite runFileDescriptorSetGenerator_S.
apply bind_returns; [done |]. intros p st1 Halloc.
apply alloc_Ok in Halloc as [= -> ->].
apply bind_returns; [by rewrite buildDependencies_eq |].
intros fdSet1 st2 Hdeps.
rewrite buildDependencies_eq in Hdeps. injection Hdeps as <- <-.
apply bind_returns.
- unfold buildSymbolicReferences. apply bind_returns.
  { by rewrite trimAndRemoveDuplicates_eq. }
  intros symbolicReferences st2' Htrim.
  rewrite trimAndRemoveDuplicates_eq in Htrim.
  apply lift_Ok in Htrim as (refs' & [= <-] & [= -> ->]).
  apply bind_returns; [| by intros [? ?] ? ?].
  apply resolveReferences_returns; [exact IH | |].
  + apply Forall_forall. intros r Hr.
    apply firstSeen_elem_of, list_elem_of_fmap in Hr as (url & -> & Hurl).
    rewrite Forall_forall in Hrefs. by apply Hrefs.
  + unfold unresolved in *. simpl in *. lia.
- intros [fdSet2 renderer2] st3 Hsym.
  unfold buildSymbolicReferences in Hsym.
  apply bind_Ok in Hsym as (symbolicReferences & st2' & Htrim & Hsym).
  rewrite trimAndRemoveDuplicates_eq in Htrim.
  apply lift_Ok in Htrim as (refs' & [= <-] & [= -> ->]).
  apply bind_Ok in Hsym as ([renderer2' syms'] & st3' & Hloop & Hsym).
  apply ret_Ok in Hsym as [= -> -> ->].
  apply (resolveReferences_Ok _ (runFileDescriptorSetGenerator_post fuel))
    in Hloop
    as (resolved & sets & syms & new & calls & -> & -> & Hheap3 & _).
  simpl in Hheap3.
  apply finish_returns; [| done | lia].
  rewrite Hheap3, <- !app_assoc. by apply list_lookup_middle.
Qed.

End Termination.

(** An instance: [loop.yaml] and [pair.yaml] refer to each other, and
    [loop.yaml] to itself; the run for [loop.yaml] resolves each of them
    once. *)
Lemma X21_witness :
  runFileDescriptorSetGenerator (H := Cyclic.env) 5
    (Example.renderer "loop" Cyclic.modelLoop) initialState ≠ OutOfFuel ∧
  match
    runFileDescriptorSetGenerator (H := Cyclic.env) 5
      (Example.renderer "loop" Cyclic.modelLoop) initialState
  with
  | Ok (_, st') => gnosticCalls st'
  | _ => []
  end = ["http://example.com/pair.yaml"; "http://example.com/loop.yaml"].
Proof.
  split; [| vm_compute; reflexivity].
  apply (X21_runs_terminate_on_cyclic_references (H := Cyclic.env)
           Cyclic.references 1).
  - intros ref document model inputDocumentType Hin Hmodel.
    assert (model = Cyclic.modelLoop ∨ model = Cyclic.modelPair) as Hm.
    { repeat (apply elem_of_cons in Hin as [->|Hin]);
        [| | by apply elem_of_nil in Hin];
        vm_compute in Hmodel; injection Hmodel as <-; auto. }
    destruct Hm as [-> | ->]; (split; [| simpl; lia]);
      repeat (apply Forall_cons; split); try apply Forall_nil_2;
      apply (bool_decide_unpack _); vm_compute; exact I.
  - lia.
  - split; [| simpl; lia].
    repeat (apply Forall_cons; split); try apply Forall_nil_2;
      apply (bool_decide_unpack _); vm_compute; exact I.
  - vm_compute. lia.
Defined.

(** ** Instances of the statements about the messages *)

(** An instance: [Pet] keeps one of its two maps; the type [Paint] has two
    fields with enum values, one of them a map of arrays, which is left out
    while its enum is kept. *)
Lemma X7_witness :
  ∃ st' msgs,
    buildMessagesFromTypes (H := Example.env) 0%nat
      (Example.renderer "pets"
         (Model.mk
            [Example.Pet;
             SType.mk "Paint" ""
               [Field.mk "colour" FieldKind_SCALAR Position_BODY "Colour"
                  "colour" (Some ["red"; "green"]);
                Field.mk "tags" FieldKind_MAP Position_BODY
                  "map[string][]string" "tags" (Some ["new"])]
               "Paint"] [] []))
      (Example.started "pets") = Ok (tt, st') ∧
    heap st' !! 0%nat
      = Some (add_MessageTypes msgs
                (FileDescriptorProto.mk (Some "pets.proto") (Some "pets") []
                   [] [] [] (Some "proto3"))) ∧
    (λ msg, (DescriptorProto.Name <$> DescriptorProto.NestedType msg,
             EnumDescriptorProto.Name <$> DescriptorProto.EnumType msg,
             length (DescriptorProto.Field msg))) <$> msgs
    = [([Some "countsEntry"], [], 3%nat);
       ([], [Some "Colour"; Some "map[string][]string"], 1%nat)].
Proof.
  eexists.
  destruct (X7_nested_types_and_enums_of_the_messages (H := Example.env)
    0%nat
    (Example.renderer "pets"
       (Model.mk
          [Example.Pet;
           SType.mk "Paint" ""
             [Field.mk "colour" FieldKind_SCALAR Position_BODY "Colour"
                "colour" (Some ["red"; "green"]);
              Field.mk "tags" FieldKind_MAP Position_BODY
                "map[string][]string" "tags" (Some ["new"])]
             "Paint"] [] []))
    (Example.started "pets") _ _
    ltac:(vm_compute; reflexivity) ltac:(reflexivity))
    as (msgs & Hheap & Hall).
  exists msgs. split; [reflexivity |]. split; [exact Hheap |].
  apply Forall2_cons_inv_l in Hall
    as (m1 & k1 & (_ & Hn1 & He1 & _ & Hl1) & Hall & ->).
  apply Forall2_cons_inv_l in Hall
    as (m2 & k2 & (_ & Hn2 & He2 & _ & Hl2) & Hall & ->).
  apply Forall2_nil_inv_l in Hall as ->.
  simpl. rewrite Hn1, He1, Hl1, Hn2, He2, Hl2. reflexivity.
Defined.

(** An instance: the fields of the messages of [Pet] and [Project]. *)
Lemma X8_witness :
  ∃ st' msgs,
    buildMessagesFromTypes (H := Example.env) 0%nat
      (Example.renderer "pets" (Model.mk [Example.Pet; Example.Project] [] []))
      (Example.started "pets") = Ok (tt, st') ∧
    heap st' !! 0%nat
      = Some (add_MessageTypes msgs
                (FileDescriptorProto.mk (Some "pets.proto") (Some "pets") []
                   [] [] [] (Some "proto3"))) ∧
    Forall (λ msg, Forall typed (DescriptorProto.Field msg)) msgs.
Proof.
  eexists.
  destruct (X8_type_names_go_with_message_and_enum_types (H := Example.env)
    0%nat
    (Example.renderer "pets" (Model.mk [Example.Pet; Example.Project] [] []))
    (Example.started "pets") _ _
    ltac:(vm_compute; reflexivity) ltac:(reflexivity))
    as (msgs & Hheap & Hall).
  exists msgs. split; [reflexivity |]. split; [exact Hheap |].
  eapply Forall_impl; [exact Hall |]. by intros msg [? _].
Defined.

(** An instance: [Pet] of package [pets] is registered as [pets.Pet]. *)
Lemma X9_witness :
  ∃ st',
    buildMessagesFromTypes (H := Example.env) 0%nat
      (Example.renderer "pets" (Model.mk [Example.Pet; Example.Project] [] []))
      (Example.started "pets") = Ok (tt, st') ∧
    generatedMessages st' !! "Pet" = Some "pets.Pet" ∧
    generatedMessages st' !! "Owner" = None.
Proof.
  eexists.
  destruct (X9_generated_messages_are_registered (H := Example.env)
    0%nat
    (Example.renderer "pets" (Model.mk [Example.Pet; Example.Project] [] []))
    (Example.started "pets") _
    ltac:(vm_compute; reflexivity))
    as (_ & Hin & Hout & _).
  split; [reflexivity |]. split.
  - apply (Hin Example.Pet), list_elem_of_here.
  - rewrite Hout; [reflexivity |].
    apply (bool_decide_unpack _). vm_compute. exact I.
Defined.
